(** * The OSM pipeline's load engine: a shallow embedding and its properties

    The development follows the Python sources module by module:
    - [PostGISLoader]             : src/postgis_loader.py
    - [OSMDownloader]             : src/download_osm.py
    - [PostgreSQLDatabaseManager] : src/postgres_manager.py

    Python code that can raise is embedded in a state-and-exception monad;
    the database, the connection pool and the remote service are explicit
    state, and every call the sources make on them leaves an event in a log,
    so that statements about "what the program did" are statements about
    that log. *)

From stdpp Require Import base numbers list strings gmap.
From Stdlib Require Import Ascii Strings.Byte.

Local Open Scope string_scope.
Local Open Scope list_scope.
Local Open Scope nat_scope.

(** ** Python values shared by the three modules *)

Module Py.

(** The exception classes the sources raise, catch or let through. *)
Inductive exn : Set :=
| ValueError
| KeyError
| AttributeError
| IOError
| TimeoutError
| InsufficientResponseError   (* ox._errors.InsufficientResponseError *)
| SQLAlchemyError             (* sqlalchemy.exc.SQLAlchemyError and subclasses *)
| OperationalError            (* psycopg2.OperationalError *)
| ProgrammingError            (* psycopg2.ProgrammingError *)
| InterfaceError              (* psycopg2.InterfaceError *)
| PoolError.                  (* psycopg2.pool.PoolError *)

#[global] Instance exn_eq_dec : EqDecision exn.
Proof. solve_decision. Defined.

(** [except exc.SQLAlchemyError] *)
Definition is_SQLAlchemyError (e : exn) : bool :=
  match e with SQLAlchemyError => true | _ => false end.

(** [except psycopg2.Error]: [PoolError] derives from [psycopg2.Error]. *)
Definition is_psycopg2_Error (e : exn) : bool :=
  match e with
  | OperationalError | ProgrammingError | InterfaceError | PoolError => true
  | _ => false
  end.

Inductive result (A : Type) : Type :=
| Ok (a : A)
| Raise (e : exn).
Arguments Ok {A} a.
Arguments Raise {A} e.

Definition is_ok {A} (r : result A) : bool :=
  match r with Ok _ => true | Raise _ => false end.

(** Logging levels of the [logging] module, as far as the sources use them. *)
Inductive level : Set := DEBUG | INFO | WARNING | ERROR.

#[global] Instance level_eq_dec : EqDecision level.
Proof. solve_decision. Defined.

(** A computation over a state [S] that returns or raises. *)
Definition M (S A : Type) : Type := S → result A * S.

Definition ret {S A} (a : A) : M S A := λ s, (Ok a, s).
Definition raise {S A} (e : exn) : M S A := λ s, (Raise e, s).
Definition bind {S A B} (m : M S A) (k : A → M S B) : M S B :=
  λ s, match m s with
       | (Ok a, s') => k a s'
       | (Raise e, s') => (Raise e, s')
       end.
Definition lift {S A} (r : result A) : M S A := λ s, (r, s).
Definition get {S} : M S S := λ s, (Ok s, s).
Definition modify {S} (f : S → S) : M S unit := λ s, (Ok tt, f s).

(** [try: m except <handles>: h]; an exception raised by the handler is
    not caught by a sibling handler of the same [try]. *)
Definition try_except {S A} (m : M S A) (handles : exn → bool)
    (h : exn → M S A) : M S A :=
  λ s, match m s with
       | (Ok a, s') => (Ok a, s')
       | (Raise e, s') => if handles e then h e s' else (Raise e, s')
       end.

(** [for x in xs: body x], stopping at the first exception. *)
Fixpoint for_each {S A} (xs : list A) (body : A → M S unit) : M S unit :=
  match xs with
  | [] => ret tt
  | x :: xs' => bind (body x) (λ _, for_each xs' body)
  end.

(** The pure counterpart of a loop that maps a fallible function. *)
Fixpoint map_result {A B} (f : A → result B) (xs : list A) : result (list B) :=
  match xs with
  | [] => Ok []
  | x :: xs' =>
      match f x with
      | Raise e => Raise e
      | Ok y => match map_result f xs' with
                | Raise e => Raise e
                | Ok ys => Ok (y :: ys)
                end
      end
  end.

(** [range(n)] for a Python integer [n]: empty when [n <= 0]. *)
Definition range (n : Z) : list Z := Z.of_nat <$> seq 0 (Z.to_nat n).

(** A slice bound as Python normalises it against a length. *)
Definition slice_bound (len i : Z) : Z :=
  if (i <? 0)%Z then Z.max 0 (len + i) else Z.min len i.

(** [xs[start:stop]] (and [DataFrame.iloc[start:stop]]). *)
Definition slice {A} (xs : list A) (start stop : Z) : list A :=
  let len := Z.of_nat (length xs) in
  let a := slice_bound len start in
  let b := slice_bound len stop in
  take (Z.to_nat (b - a)) (drop (Z.to_nat a) xs).

(** [str.upper] on ASCII letters. *)
Definition upper_ascii (c : ascii) : ascii :=
  let n := nat_of_ascii c in
  if ((97 <=? n) && (n <=? 122))%nat then ascii_of_nat (n - 32) else c.

Fixpoint upper (s : string) : string :=
  match s with
  | EmptyString => EmptyString
  | String c s' => String (upper_ascii c) (upper s')
  end.

End Py.

Declare Scope py_scope.
Delimit Scope py_scope with py.
Notation "'let*' x := m 'in' k" := (Py.bind m (λ x, k))
  (at level 10, x name, m at level 100, k at level 200,
   format "'[v' 'let*'  x  :=  m  'in' '/' k ']'") : py_scope.
Notation "m >> k" := (Py.bind m (λ _, k))
  (at level 65, right associativity) : py_scope.
Notation "'let?' x := r 'in' k" :=
  (match r with Py.Ok x => k | Py.Raise e => Py.Raise e end)
  (at level 10, x name, r at level 100, k at level 200,
   format "'[v' 'let?'  x  :=  r  'in' '/' k ']'") : py_scope.

(** ** src/postgis_loader.py *)

Module postgis_loader.
Import Py.
Local Open Scope py_scope.

(** *** Data *)

(** A shapely geometry, seen through the three attributes the loader
    reads: [geom.__class__.__name__], [geom.is_empty] and [geom.wkb]. *)
Record shapely : Type := Shapely {
  class_name : string;
  is_empty : bool;
  wkb : list byte
}.

(** What a cell of the geometry column can hold while [_prepare_data]
    runs: Python is dynamically typed, and the loader itself stores
    strings and bytes where geometries were. *)
Inductive pyval : Type :=
| PyNone
| PyGeom (g : shapely)
| PyStr (s : string)
| PyBytes (b : list byte).

Record row : Type := Row {
  geometry : pyval;
  attrs : list (string * string)
}.

(** A pandas object as [gpd.read_file] returns it. *)
Record DataFrame : Type := {
  is_GeoDataFrame : bool;       (* isinstance(gdf, gpd.GeoDataFrame) *)
  columns : list string;
  rows : list row
}.

(** The constructor arguments of [PostGISLoader] the load depends on. *)
Record PostGISLoader : Type := {
  chunk_size : option Z;
  geometry_type : string;
  srid : Z
}.

(** *** The database

    A table is addressed by (schema, name).  Its geometry column has the
    type [Geometry(geometry_type, srid)] it was created with. *)
Record dbrow : Type := {
  db_geometry : option (list byte);     (* NULL or a well-known binary *)
  db_attrs : list (string * string)
}.

Record table : Type := {
  column_type : string * Z;
  table_rows : list dbrow;
  table_indexes : list string
}.

Abbreviation table_ref := (string * string)%type.
Abbreviation database := (gmap (string * string) table).

Inductive event : Type :=
| Begin                                             (* engine.begin() *)
| Commit
| Rollback
| ToSql (ref : table_ref) (if_exists : string) (n : nat)
| DropTable (ref : table_ref)
| CreateTable (ref : table_ref) (gtype : string) (sr : Z)
| Insert (ref : table_ref) (rs : list dbrow)
| CreateIndex (index_name : string) (ref : table_ref)
| Log (lvl : level) (msg : string).

(** [gdf] is the loader's mutable attribute [self.gdf]; [committed] is
    what the server holds durably, [working] what the open transaction
    sees; [aborted] says that a statement of the open transaction was
    rejected by the server. *)
Record state : Type := {
  gdf : option DataFrame;
  committed : database;
  working : database;
  aborted : bool;
  sql_calls : nat;
  events : list event
}.

Definition set_gdf (g : option DataFrame) (st : state) : state :=
  {| gdf := g; committed := committed st; working := working st;
     aborted := aborted st; sql_calls := sql_calls st; events := events st |}.
Definition set_committed (d : database) (st : state) : state :=
  {| gdf := gdf st; committed := d; working := working st;
     aborted := aborted st; sql_calls := sql_calls st; events := events st |}.
Definition set_working (d : database) (st : state) : state :=
  {| gdf := gdf st; committed := committed st; working := d;
     aborted := aborted st; sql_calls := sql_calls st; events := events st |}.
Definition set_aborted (b : bool) (st : state) : state :=
  {| gdf := gdf st; committed := committed st; working := working st;
     aborted := b; sql_calls := sql_calls st; events := events st |}.
Definition count_sql_call (st : state) : state :=
  {| gdf := gdf st; committed := committed st; working := working st;
     aborted := aborted st; sql_calls := S (sql_calls st); events := events st |}.
Definition add_event (e : event) (st : state) : state :=
  {| gdf := gdf st; committed := committed st; working := working st;
     aborted := aborted st; sql_calls := sql_calls st; events := events st ++ [e] |}.

Definition emit (e : event) : M state unit := modify (add_event e).

(** What the world outside the loader decides: the content of the input
    file, whether the server can be reached, which [to_sql] call (counted
    from 0 over the state's life) fails while inserting, and whether the
    index statement fails before it is sent ([ClientSide]) or is rejected
    by the server ([ServerSide]). *)
Inductive fault : Set := ClientSide | ServerSide.

Record environment : Type := {
  read_file : result DataFrame;
  connect_fails : bool;
  insert_fails : nat → bool;
  index_fault : option fault
}.

(** *** Attribute access and column access on dynamic values *)

(** [geom.is_empty]: only a geometry has the attribute. *)
Definition getattr_is_empty (v : pyval) : result bool :=
  match v with
  | PyGeom g => Ok (is_empty g)
  | _ => Raise AttributeError
  end.

(** [geom.wkb] *)
Definition getattr_wkb (v : pyval) : result pyval :=
  match v with
  | PyGeom g => Ok (PyBytes (wkb g))
  | _ => Raise AttributeError
  end.

(** [geom.__class__.__name__] *)
Definition type_name (v : pyval) : string :=
  match v with
  | PyNone => "NoneType"
  | PyGeom g => class_name g
  | PyStr _ => "str"
  | PyBytes _ => "bytes"
  end.

(** [gdf['geometry']] *)
Definition getitem_geometry (df : DataFrame) : result (list pyval) :=
  if bool_decide ("geometry" ∈ columns df)
  then Ok (geometry <$> rows df)
  else Raise KeyError.

(** [gdf['geometry'] = cells], for a column that exists. *)
Definition setitem_geometry (df : DataFrame) (cells : list pyval) : DataFrame :=
  {| is_GeoDataFrame := is_GeoDataFrame df;
     columns := columns df;
     rows := zip_with (λ r c, Row c (attrs r)) (rows df) cells |}.

(** [gdf.iloc[start:stop]] *)
Definition iloc (df : DataFrame) (start stop : Z) : DataFrame :=
  {| is_GeoDataFrame := is_GeoDataFrame df;
     columns := columns df;
     rows := slice (rows df) start stop |}.

(** [len(gdf)] *)
Definition len (df : DataFrame) : Z := Z.of_nat (length (rows df)).

(** *** PostGISLoader._validate_schema *)

Definition _validate_schema (df : DataFrame) : result unit :=
  if negb (is_GeoDataFrame df) then Raise ValueError
  else if negb (bool_decide ("geometry" ∈ columns df)) then Raise ValueError
  else Ok tt.

(** *** PostGISLoader._prepare_data

    The first pass runs only for a declared type other than "GEOMETRY":
    it keeps an empty geometry and replaces any other by the upper-cased
    name of its class.  The second pass reads [is_empty] and [wkb] of
    every cell, whatever the first pass left there. *)
Definition ensure_type_cell (geom : pyval) : result pyval :=
  let? e := getattr_is_empty geom in
  Ok (if e then geom else PyStr (upper (type_name geom))).

Definition to_wkb_cell (geom : pyval) : result pyval :=
  let? e := getattr_is_empty geom in
  if negb e then getattr_wkb geom else Ok PyNone.

Definition _prepare_data (self : PostGISLoader) (df : DataFrame) : result DataFrame :=
  let? df1 :=
    (if bool_decide (geometry_type self ≠ "GEOMETRY") then
       let? col := getitem_geometry df in
       let? cells := map_result ensure_type_cell col in
       Ok (setitem_geometry df cells)
     else Ok df) in
  let? col := getitem_geometry df1 in
  let? cells := map_result to_wkb_cell col in
  Ok (setitem_geometry df1 cells).

(** *** The library calls the loader makes on the connection

    [DataFrame.to_sql(name, con, schema, if_exists, index=False,
    dtype={'geometry': Geometry(geometry_type, srid)})], as pandas
    documents it: an [if_exists] other than "fail", "replace" or "append"
    is a [ValueError]; on an existing table "fail" raises, "replace" drops
    and recreates it, "append" keeps it; a missing table is created; then
    the rows are inserted.  The geometry cells reach the driver as [None]
    or [bytes]; anything else cannot be adapted.  A statement the server
    rejects aborts the open transaction. *)
Definition adapt_row (r : row) : option dbrow :=
  match geometry r with
  | PyNone => Some {| db_geometry := None; db_attrs := attrs r |}
  | PyBytes b => Some {| db_geometry := Some b; db_attrs := attrs r |}
  | _ => None
  end.

Definition new_table (gtype : string) (sr : Z) : table :=
  {| column_type := (gtype, sr); table_rows := []; table_indexes := [] |}.

Definition append_rows (rs : list dbrow) (t : table) : table :=
  {| column_type := column_type t;
     table_rows := table_rows t ++ rs;
     table_indexes := table_indexes t |}.

Definition drop_table (ref : table_ref) : M state unit :=
  modify (λ st, add_event (DropTable ref) (set_working (delete ref (working st)) st)).

Definition create_table (ref : table_ref) (gtype : string) (sr : Z) : M state unit :=
  modify (λ st, add_event (CreateTable ref gtype sr)
                  (set_working (<[ref := new_table gtype sr]> (working st)) st)).

Definition insert_rows (E : environment) (ref : table_ref) (rs : list row) : M state unit :=
  λ st,
    let n := sql_calls st in
    let st := count_sql_call st in
    match mapM adapt_row rs with
    | None => (Raise SQLAlchemyError, set_aborted true st)
    | Some drs =>
        if insert_fails E n then (Raise SQLAlchemyError, set_aborted true st)
        else (Ok tt, add_event (Insert ref drs)
                       (set_working (alter (append_rows drs) ref (working st)) st))
    end.

Definition to_sql (E : environment) (df : DataFrame) (ref : table_ref)
    (if_exists : string) (gtype : string) (sr : Z) : M state unit :=
  if negb (bool_decide (if_exists ∈ ["fail"; "replace"; "append"]))
  then raise ValueError
  else
    emit (ToSql ref if_exists (length (rows df))) >>
    let* st := get in
    (match working st !! ref with
     | Some _ =>
         if bool_decide (if_exists = "fail") then raise ValueError
         else if bool_decide (if_exists = "replace")
              then drop_table ref >> create_table ref gtype sr
              else ret tt
     | None => create_table ref gtype sr
     end) >>
    insert_rows E ref (rows df).

(** [connection.execute("CREATE INDEX IF NOT EXISTS <index_name> ON
    <schema>.<table> USING GIST (geometry)")].  The statement fails when
    the environment says so, and on the server when the table is missing. *)
Definition add_index (index_name : string) (t : table) : table :=
  {| column_type := column_type t;
     table_rows := table_rows t;
     table_indexes :=
       if bool_decide (index_name ∈ table_indexes t) then table_indexes t
       else table_indexes t ++ [index_name] |}.

Definition execute_create_index (E : environment) (index_name : string)
    (ref : table_ref) : M state unit :=
  λ st,
    match index_fault E with
    | Some ClientSide => (Raise SQLAlchemyError, st)
    | Some ServerSide => (Raise SQLAlchemyError, set_aborted true st)
    | None =>
        match working st !! ref with
        | None => (Raise SQLAlchemyError, set_aborted true st)
        | Some _ =>
            (Ok tt, add_event (CreateIndex index_name ref)
                      (set_working (alter (add_index index_name) ref (working st)) st))
        end
    end.

(** [with self.engine.begin() as connection: body]: one transaction around
    the body; it is committed when the body returns and rolled back when
    the body raises.  The server executes the COMMIT of a transaction one
    of whose statements it rejected as a ROLLBACK. *)
Definition commit (st : state) : state :=
  add_event Commit
    (if aborted st then set_working (committed st) st
     else set_committed (working st) st).

Definition rollback (st : state) : state :=
  add_event Rollback (set_working (committed st) st).

Definition engine_begin {A} (E : environment) (body : M state A) : M state A :=
  λ st,
    if connect_fails E then (Raise SQLAlchemyError, st)
    else
      match body (add_event Begin (set_aborted false (set_working (committed st) st))) with
      | (Ok a, st') => (Ok a, commit st')
      | (Raise e, st') => (Raise e, rollback st')
      end.

(** *** PostGISLoader.load *)
Definition load (E : environment) : M state DataFrame :=
  try_except
    (emit (Log INFO "Loading data from file") >>
     let* df := lift (read_file E) in
     modify (set_gdf (Some df)) >>
     lift (_validate_schema df) >>
     emit (Log INFO "Loaded features") >>
     ret df)
    (λ _, true)
    (λ e, emit (Log ERROR "Failed to load file") >> raise e).

(** *** PostGISLoader._load_chunk *)
Definition _load_chunk (E : environment) (self : PostGISLoader) (df : DataFrame)
    (ref : table_ref) (if_exists : string) : M state unit :=
  let* prepared_gdf := lift (_prepare_data self df) in
  to_sql E prepared_gdf ref if_exists (geometry_type self) (srid self).

(** *** PostGISLoader._create_spatial_index *)
Definition _create_spatial_index (E : environment) (ref : table_ref) : M state unit :=
  let index_name := "idx_" +:+ ref.2 +:+ "_geometry" in
  try_except
    (execute_create_index E index_name ref >>
     emit (Log INFO "Created spatial index"))
    is_SQLAlchemyError
    (λ _, emit (Log WARNING "Failed to create spatial index")).

(** *** PostGISLoader.load_to_postgis

    [ensure_loaded] is the method's first statement,
    [if self.gdf is None: self.gdf = self.load()]; [load_chunks] is the
    [if self.chunk_size: ... else: ...] inside the [with] block and
    [chunk_body] the body of its [for chunk in range(total_chunks)], where
    [if self.chunk_size:] is Python truthiness: a chunk size that is
    neither [None] nor 0. *)
Definition ensure_loaded (E : environment) : M state DataFrame :=
  let* st := get in
  match gdf st with
  | None => let* g := load E in modify (set_gdf (Some g)) >> ret g
  | Some g => ret g
  end.

Definition chunk_body (E : environment) (self : PostGISLoader) (df : DataFrame)
    (ref : table_ref) (if_exists : string) (c : Z) (chunk : Z) : M state unit :=
  let chunk_start := (chunk * c)%Z in
  let chunk_end := ((chunk + 1) * c)%Z in
  let chunk_gdf := iloc df chunk_start chunk_end in
  _load_chunk E self chunk_gdf ref
    (if bool_decide (chunk = 0%Z) then if_exists else "append").

Definition load_chunks (E : environment) (self : PostGISLoader) (df : DataFrame)
    (ref : table_ref) (if_exists : string) : M state unit :=
  match chunk_size self with
  | Some c =>
      if bool_decide (c = 0%Z) then _load_chunk E self df ref if_exists
      else
        let total_chunks := (len df `div` c + 1)%Z in
        for_each (range total_chunks) (chunk_body E self df ref if_exists c)
  | None => _load_chunk E self df ref if_exists
  end.

Definition load_to_postgis (E : environment) (self : PostGISLoader)
    (table_name : string) (schema : string) (if_exists : string)
    (create_spatial_index : bool) : M state unit :=
  let ref := (schema, table_name) in
  let* df := ensure_loaded E in
  try_except
    (engine_begin E
       (load_chunks E self df ref if_exists >>
        (if create_spatial_index then _create_spatial_index E ref else ret tt)) >>
     emit (Log INFO "Successfully loaded"))
    (λ _, true)
    (λ e, emit (Log ERROR (if is_SQLAlchemyError e
                           then "Database operation failed"
                           else "Unexpected error")) >>
          raise e).

(** *** Notions the statements below are written with *)

(** What a record becomes in the table when its load succeeds: the
    well-known binary of a non-empty geometry, NULL otherwise. *)
Definition written_row (r : row) : dbrow :=
  {| db_geometry :=
       match geometry r with
       | PyGeom g => if is_empty g then None else Some (wkb g)
       | _ => None
       end;
     db_attrs := attrs r |}.

(** The batches of rows the log says were inserted, in order. *)
Definition inserted_batches (evs : list event) : list (list dbrow) :=
  omap (λ e, match e with Insert _ rs => Some rs | _ => None end) evs.

(** The [if_exists] arguments of the [to_sql] calls in the log, in order. *)
Definition to_sql_policies (evs : list event) : list string :=
  omap (λ e, match e with ToSql _ p _ => Some p | _ => None end) evs.

Definition is_log (e : event) : Prop :=
  match e with Log _ _ => True | _ => False end.

Definition count_event (P : event → bool) (evs : list event) : nat :=
  length (filter (λ e, P e = true) evs).

Definition is_commit (e : event) : bool :=
  match e with Commit => true | _ => false end.
Definition is_begin (e : event) : bool :=
  match e with Begin => true | _ => false end.
Definition is_drop (e : event) : bool :=
  match e with DropTable _ => true | _ => false end.
Definition is_create (e : event) : bool :=
  match e with CreateTable _ _ _ => true | _ => false end.
Definition is_insert (e : event) : bool :=
  match e with Insert _ _ => true | _ => false end.

(** The rows of the table [ref] in a database, if the table exists. *)
Definition rows_of (d : database) (ref : table_ref) : option (list dbrow) :=
  table_rows <$> d !! ref.

(** The [k]-th run of [c] consecutive elements of a list. *)
Definition chunk {A} (c : nat) (l : list A) (k : nat) : list A :=
  take c (drop (k * c) l).

(** The rows the chunks [a], [a+1], ... ([m] of them) of size [c] become. *)
Definition written_chunks (df : DataFrame) (c a m : nat) : list (list dbrow) :=
  (λ k, written_row <$> chunk c (rows df) k) <$> seq a m.

(** The table a [to_sql] call appends to, given what it finds. *)
Definition base_table (self : PostGISLoader) (if_exists : string)
    (found : option table) : table :=
  match found with
  | Some t => if bool_decide (if_exists = "replace")
              then new_table (geometry_type self) (srid self) else t
  | None => new_table (geometry_type self) (srid self)
  end.

(** The schema statements a [to_sql] call issues, given what it finds. *)
Definition schema_events (ref : table_ref) (self : PostGISLoader)
    (if_exists : string) (found : option table) : list event :=
  match found with
  | Some _ =>
      if bool_decide (if_exists = "replace")
      then [DropTable ref; CreateTable ref (geometry_type self) (srid self)]
      else []
  | None => [CreateTable ref (geometry_type self) (srid self)]
  end.

(** Events of a [to_sql] call that appends to an existing table. *)
Definition append_event (e : event) : Prop :=
  match e with
  | ToSql _ p _ => p = "append"
  | Insert _ _ => True
  | _ => False
  end.

(** Events that are no part of a [to_sql] call. *)
Definition other_event (e : event) : Prop :=
  match e with
  | ToSql _ _ _ | DropTable _ | CreateTable _ _ _ | Insert _ _ => False
  | _ => True
  end.

(** Rounded-up division, the specification's batch count. *)
Definition ceil_div (n c : nat) : nat := (n + c - 1) / c.

(** The specification's compatibility of a geometry cell with a declared
    column type: a null, any geometry under the generic type, or a
    geometry whose class is the declared one. *)
Definition compatible (declared : string) (v : pyval) : bool :=
  match v with
  | PyNone => true
  | PyGeom g => bool_decide (declared = "GEOMETRY") ||
                bool_decide (upper (class_name g) = declared)
  | _ => false
  end.

(** What a chunked load's first [to_sql] call and the later ones leave in
    the log: nothing at all, or the first call with its schema statements
    and, unless it failed, its insert, followed by appends. *)
Definition first_batch_shape (ref : table_ref) (self : PostGISLoader)
    (if_exists : string) (found : option table) (C : Z) (r : result unit)
    (first later : list event) : Prop :=
  (first = [] ∧ later = [] ∧ (r = Ok tt → (C < 0)%Z)) ∨
  (∃ n ins, first = ToSql ref if_exists n
                      :: schema_events ref self if_exists found ++ ins ∧
     ((ins = [] ∧ later = [] ∧ r ≠ Ok tt) ∨ (∃ rs, ins = [Insert ref rs]))).

(** *** Sample data for the closed examples *)
Definition point (tag : string) : row :=
  Row (PyGeom (Shapely "Point" false [x01; x01; x00; x00; x00])) [("osm_id", tag)].

Definition empty_polygon (tag : string) : row :=
  Row (PyGeom (Shapely "Polygon" true [x01; x03; x00; x00; x00])) [("osm_id", tag)].

Definition frame_of (rs : list row) : DataFrame :=
  {| is_GeoDataFrame := true; columns := ["geometry"; "osm_id"]; rows := rs |}.

Definition fresh (df : option DataFrame) : state :=
  {| gdf := df; committed := ∅; working := ∅; aborted := false;
     sql_calls := 0; events := [] |}.

(** A server that is reachable and fails the [k]-th [to_sql] call, if any. *)
Definition failing_at (k : option nat) (file : DataFrame) : environment :=
  {| read_file := Ok file; connect_fails := false;
     insert_fails := λ n, bool_decide (Some n = k);
     index_fault := None |}.

(** A database that already holds the table public.roads, with one row. *)
Definition with_roads : state :=
  {| gdf := None;
     committed := {[ ("public", "roads") :=
                       {| column_type := ("GEOMETRY", 4326%Z);
                          table_rows := [written_row (point "0")];
                          table_indexes := ["idx_roads_geometry"] |} ]};
     working := ∅; aborted := false; sql_calls := 0; events := [] |}.

Definition loader (c : option Z) (gtype : string) : PostGISLoader :=
  {| chunk_size := c; geometry_type := gtype; srid := 4326 |}.

(** *** What runs inside the transaction

    Everything the loader does between [engine.begin()] and the end of the
    [with] block leaves the committed database alone and only appends
    events that are not transaction boundaries. *)
Definition is_statement (e : event) : Prop :=
  match e with
  | Begin | Commit | Rollback => False
  | _ => True
  end.

Definition in_txn {A} (m : M state A) : Prop :=
  ∀ st, committed (m st).2 = committed st ∧
        gdf (m st).2 = gdf st ∧
        ∃ evs, events (m st).2 = events st ++ evs ∧ Forall is_statement evs.

(** *** Sample loads *)

(** Four records in chunks of two, on a healthy server. *)
Definition four_points : DataFrame :=
  frame_of [point "1"; point "2"; point "3"; point "4"].

Definition even_load : result unit * state :=
  load_to_postgis (failing_at None four_points) (loader (Some 2%Z) "GEOMETRY")
    "roads" "public" "replace" true (fresh None).

Definition replacing_load : result unit * state :=
  load_to_postgis (failing_at None four_points) (loader (Some 2%Z) "GEOMETRY")
    "roads" "public" "replace" true with_roads.

(** Three records, chunk size 1, the second [to_sql] call fails. *)
Definition three_points : DataFrame := frame_of [point "1"; point "2"; point "3"].

Definition failed_load : result unit * state :=
  load_to_postgis (failing_at (Some 1) three_points) (loader (Some 1%Z) "GEOMETRY")
    "roads" "public" "replace" true (fresh None).

Definition mixed : DataFrame := frame_of [empty_polygon "1"; point "2"].

Definition mixed_load : result unit * state :=
  load_to_postgis (failing_at None mixed) (loader (Some 1%Z) "POLYGON")
    "parcels" "public" "replace" false (fresh None).

Definition no_geometry : DataFrame :=
  {| is_GeoDataFrame := true; columns := ["osm_id"]; rows := [point "1"] |}.

Definition one_polygon : DataFrame :=
  frame_of [Row (PyGeom (Shapely "Polygon" false [x01; x03; x00; x00; x00; x01]))
              [("osm_id", "7")]].

Definition rejecting_index (file : DataFrame) : environment :=
  {| read_file := Ok file; connect_fails := false;
     insert_fails := λ _, false; index_fault := Some ServerSide |}.

Definition unindexed_load : result unit * state :=
  load_to_postgis (rejecting_index four_points) (loader None "GEOMETRY")
    "roads" "public" "replace" true (fresh None).

(** *** More notions *)

(** A geometry cell [_prepare_data] gets through: a geometry, and an
    empty one when the declared type is not the generic one. *)
Definition loadable (self : PostGISLoader) (v : pyval) : Prop :=
  ∃ g, v = PyGeom g ∧ (geometry_type self ≠ "GEOMETRY" → is_empty g = true).

#[global] Instance loadable_dec self v : Decision (loadable self v).
Proof.
  destruct v as [|g|s|b];
    [right; by intros (? & ? & _)| |right; by intros (? & ? & _)..].
  destruct (decide (geometry_type self = "GEOMETRY")) as [Hg|Hg].
  - left. by exists g.
  - destruct (is_empty g) eqn:He.
    + left. by exists g.
    + right. intros (g' & [= <-] & H). specialize (H Hg). congruence.
Defined.

(** What the first pass of [_prepare_data] leaves in a cell that holds a
    geometry. *)
Definition typed_cell (v : pyval) : pyval :=
  match v with
  | PyGeom g => if is_empty g then v else PyStr (upper (class_name g))
  | _ => v
  end.

(** What [_prepare_data] leaves in such a cell. *)
Definition prepared_cell (v : pyval) : pyval :=
  match v with
  | PyGeom g => if is_empty g then PyNone else PyBytes (wkb g)
  | _ => PyNone
  end.

Definition prepared_row (r : row) : row :=
  Row (prepared_cell (geometry r)) (attrs r).

(** A chunk size that is [None] or not negative. *)
Definition chunk_size_ok (self : PostGISLoader) : Prop :=
  match chunk_size self with
  | None => True
  | Some c => (0 ≤ c)%Z
  end.

(** The rows a successful load keeps of the table it finds. *)
Definition kept_rows (if_exists : string) (d : database) (ref : table_ref)
    : list dbrow :=
  if bool_decide (if_exists = "append") then default [] (rows_of d ref) else [].

(** [f"idx_{table_name}_geometry"] *)
Definition index_name (table_name : string) : string :=
  "idx_" +:+ table_name +:+ "_geometry".

(** *** More sample data *)

(** A healthy server and the file [four_points]. *)
Definition healthy : environment := failing_at None four_points.

Definition plain_load : result unit * state :=
  load_to_postgis healthy (loader None "GEOMETRY")
    "roads" "public" "append" true with_roads.

(** A pandas frame that is no GeoDataFrame but has a geometry column. *)
Definition plain_frame : DataFrame :=
  {| is_GeoDataFrame := false; columns := ["geometry"; "osm_id"];
     rows := [point "1"] |}.

Definition plain_load_again : result unit * state :=
  load_to_postgis healthy (loader None "GEOMETRY")
    "roads" "public" "append" true plain_load.2.

(** A load that must not touch the table it finds. *)
Definition guarded_load : result unit * state :=
  load_to_postgis healthy (loader (Some 2%Z) "GEOMETRY")
    "roads" "public" "fail" true with_roads.

(** A load of a frame that fails validation, and the same call again. *)
Definition unvalidated_load : result unit * state :=
  load_to_postgis (failing_at None plain_frame) (loader None "GEOMETRY")
    "roads" "public" "replace" false (fresh None).

Definition unvalidated_load_again : result unit * state :=
  load_to_postgis (failing_at None plain_frame) (loader None "GEOMETRY")
    "roads" "public" "replace" false unvalidated_load.2.

End postgis_loader.

(** ** src/download_osm.py *)

Module download_osm.
Import Py.
Local Open Scope py_scope.

(** The constructor arguments of [OSMDownloader].  [max_retries] is stored
    by [__init__] and read nowhere: the retry decorator has its own
    constants. *)
Record OSMDownloader : Type := {
  location_name : string;
  timeout : Z;
  max_retries : Z
}.

Inductive event : Type :=
| Request (location : string)          (* ox.features_from_place *)
| Sleep (milliseconds : Z)             (* the decorator's wait *)
| Log (lvl : level) (msg : string).

Record state : Type := {
  requests : nat;
  events : list event
}.

Definition add_event (e : event) (st : state) : state :=
  {| requests := requests st; events := events st ++ [e] |}.

Definition emit (e : event) : M state unit := modify (add_event e).

(** What the remote service answers to its [k]-th request, counted from 0
    over the state's life. *)
Record environment : Type := {
  answers : nat → result postgis_loader.DataFrame
}.

(** [ox.features_from_place(self.location_name, tags=..., which_result=None)] *)
Definition features_from_place (E : environment) (location : string)
    : M state postgis_loader.DataFrame :=
  λ st, (answers E (requests st),
         {| requests := S (requests st);
            events := events st ++ [Request location] |}).

(** *** The body of OSMDownloader.download, without its decorator *)
Definition download_body (E : environment) (self : OSMDownloader)
    : M state postgis_loader.DataFrame :=
  try_except
    (emit (Log INFO "Downloading OSM data") >>
     emit (Log DEBUG "Using tags") >>
     let* gdf := features_from_place E (location_name self) in
     emit (Log INFO "Downloaded features") >>
     ret gdf)
    (λ _, true)
    (λ e, if bool_decide (e = InsufficientResponseError)
          then emit (Log ERROR "Location not found") >> raise ValueError
          else emit (Log WARNING "Attempt failed") >> raise e).

(** *** The decorator [retrying.retry(stop_max_attempt_number, wait_fixed)]

    As the library documents it: the function is called; when it raises,
    whatever it raises (no [retry_on_exception] is given), and the number
    of attempts made is below [stop_max_attempt_number], the wrapper sleeps
    [wait_fixed] milliseconds and calls again; otherwise the exception of
    the last attempt is re-raised.  [attempts_left] is the number of
    attempts still allowed after the next one. *)
Fixpoint retrying_call {A} (wait_fixed : Z) (attempts_left : nat)
    (f : M state A) : M state A :=
  λ st,
    match f st with
    | (Ok a, st') => (Ok a, st')
    | (Raise e, st') =>
        match attempts_left with
        | 0 => (Raise e, st')
        | S k => retrying_call wait_fixed k f (add_event (Sleep wait_fixed) st')
        end
    end.

Definition retry {A} (stop_max_attempt_number : nat) (wait_fixed : Z)
    (f : M state A) : M state A :=
  retrying_call wait_fixed (stop_max_attempt_number - 1) f.

(** *** OSMDownloader.download:
    [@retry(stop_max_attempt_number=3, wait_fixed=2000)] *)
Definition download (E : environment) (self : OSMDownloader)
    : M state postgis_loader.DataFrame :=
  retry 3 2000 (download_body E self).

(** *** Notions the statements below are written with *)
Definition is_request (e : event) : bool :=
  match e with Request _ => true | _ => false end.

Definition count_event (P : event → bool) (evs : list event) : nat :=
  length (filter (λ e, P e = true) evs).

(** The waits in a log, in order. *)
Definition sleeps (evs : list event) : list Z :=
  omap (λ e, match e with Sleep ms => Some ms | _ => None end) evs.

(** What one attempt returns and logs, from the service's answer. *)
Definition attempt_result (a : result postgis_loader.DataFrame)
    : result postgis_loader.DataFrame :=
  match a with
  | Ok gdf => Ok gdf
  | Raise e => Raise (if bool_decide (e = InsufficientResponseError)
                      then ValueError else e)
  end.

Definition attempt_events (location : string)
    (a : result postgis_loader.DataFrame) : list event :=
  [Log INFO "Downloading OSM data"; Log DEBUG "Using tags"; Request location] ++
  match a with
  | Ok _ => [Log INFO "Downloaded features"]
  | Raise e => if bool_decide (e = InsufficientResponseError)
               then [Log ERROR "Location not found"]
               else [Log WARNING "Attempt failed"]
  end.

(** The number of attempts [download] makes, from the answers it gets. *)
Definition attempts_made (E : environment) (n : nat) : nat :=
  if is_ok (answers E n) then 1
  else if is_ok (answers E (S n)) then 2
  else 3.

(** *** Sample data *)
Definition ikeja : OSMDownloader :=
  {| location_name := "Ikeja, Nigeria"; timeout := 300; max_retries := 3 |}.

Definition start : state := {| requests := 0; events := [] |}.

(** A service that does not know the place, whenever it is asked. *)
Definition unknown_place : environment :=
  {| answers := λ _, Raise InsufficientResponseError |}.

Definition unknown_place_download : result postgis_loader.DataFrame * state :=
  download unknown_place ikeja start.

(** *** OSMDownloader.save

    The output path is a [pathlib.Path], given by its parent directory and
    its final component. *)
Record Path : Type := {
  parent : string;
  name : string
}.

(** [str(path)] *)
Definition path_str (p : Path) : string := parent p +:+ "/" +:+ name p.

(** [name.rfind('.')] *)
Fixpoint rfind_dot (s : string) : option nat :=
  match s with
  | EmptyString => None
  | String c s' =>
      match rfind_dot s' with
      | Some i => Some (S i)
      | None => if Ascii.eqb c "." then Some 0 else None
      end
  end.

(** [name[i:]] *)
Fixpoint skip (i : nat) (s : string) : string :=
  match i, s with
  | 0, _ => s
  | S k, String _ s' => skip k s'
  | S _, EmptyString => EmptyString
  end.

(** [PurePath.suffix]: the final component from its last dot on, unless
    that dot is its first or its last character. *)
Definition suffix (p : Path) : string :=
  match rfind_dot (name p) with
  | Some i =>
      if (0 <? i) && (i <? String.length (name p) - 1) then skip i (name p)
      else ""
  | None => ""
  end.

(** [str.lower] on ASCII letters. *)
Definition lower_ascii (c : ascii) : ascii :=
  let n := nat_of_ascii c in
  if (65 <=? n) && (n <=? 90) then ascii_of_nat (n + 32) else c.

Fixpoint lower (s : string) : string :=
  match s with
  | EmptyString => EmptyString
  | String c s' => String (lower_ascii c) (lower s')
  end.

(** ["GeoJSON" if output_path.suffix.lower() == ".geojson" else "GPKG"] *)
Definition driver_of (p : Path) : string :=
  if bool_decide (lower (suffix p) = ".geojson") then "GeoJSON" else "GPKG".

(** The file system: the directories made, and for every path written the
    driver it was written with and the frame. *)
Record disk : Type := {
  dirs : gset string;
  files : gmap string (string * postgis_loader.DataFrame)
}.

Record save_state : Type := {
  net : state;
  fs : disk
}.

(** Whether the directory can be made and the file written. *)
Record disk_environment : Type := {
  mkdir_result : string → result unit;
  to_file_result : string → result unit
}.

Definition on_net {A} (m : M state A) : M save_state A :=
  λ s, ((m (net s)).1, {| net := (m (net s)).2; fs := fs s |}).

(** [output_path.parent.mkdir(parents=True, exist_ok=True)] *)
Definition mkdir (D : disk_environment) (dir : string) : M save_state unit :=
  λ s,
    match mkdir_result D dir with
    | Ok _ => (Ok tt, {| net := net s;
                         fs := {| dirs := {[dir]} ∪ dirs (fs s);
                                  files := files (fs s) |} |})
    | Raise e => (Raise e, s)
    end.

(** [gdf.to_file(output_path, driver=driver)] *)
Definition to_file (D : disk_environment) (gdf : postgis_loader.DataFrame)
    (p : Path) (driver : string) : M save_state unit :=
  λ s,
    match to_file_result D (path_str p) with
    | Ok _ => (Ok tt, {| net := net s;
                         fs := {| dirs := dirs (fs s);
                                  files := <[path_str p := (driver, gdf)]>
                                             (files (fs s)) |} |})
    | Raise e => (Raise e, s)
    end.

Definition save (E : environment) (D : disk_environment) (self : OSMDownloader)
    (output_path : Path) : M save_state unit :=
  try_except
    (let* gdf := on_net (download E self) in
     mkdir D (parent output_path) >>
     let driver := driver_of output_path in
     to_file D gdf output_path driver >>
     on_net (emit (Log INFO "Saved features")))
    (λ _, true)
    (λ e, on_net (emit (Log ERROR "Failed to save OSM data")) >> raise IOError).

(** [download_osm_data(location_name, output_path, tags, **kwargs)], with the
    constructor's defaults for the keyword arguments left out. *)
Definition download_osm_data (E : environment) (D : disk_environment)
    (location : string) (output_path : Path) : M save_state unit :=
  save E D {| location_name := location; timeout := 300; max_retries := 3 |}
    output_path.

(** *** More sample data *)
Definition empty_disk : save_state :=
  {| net := start; fs := {| dirs := ∅; files := ∅ |} |}.

Definition writable : disk_environment :=
  {| mkdir_result := λ _, Ok tt; to_file_result := λ _, Ok tt |}.

(** The file name the pipeline saves the download under, in a folder. *)
Definition raw_path : Path := {| parent := "data/raw"; name := "osm_raw.geojson" |}.

(** A service that answers the third request. *)
Definition slow_service : environment :=
  {| answers := λ k, if bool_decide (k = 2) then Ok postgis_loader.four_points
                     else Raise TimeoutError |}.

End download_osm.

(** ** src/postgres_manager.py *)

Module postgres_manager.
Import Py.
Local Open Scope py_scope.

(** *** Connections, the server, the pool *)

(** A psycopg2 connection: the database it is connected to, its [closed]
    attribute, whether it is in autocommit mode, whether a transaction is
    open on it, and the extensions created in that open transaction. *)
Record connection : Type := Connection {
  conn_id : nat;
  conn_database : string;
  closed : bool;
  autocommit : bool;
  in_transaction : bool;
  pending : list string
}.

(** The server: its databases, each with the extensions installed in it,
    and the extensions that can be installed. *)
Record server : Type := {
  databases : gmap string (gset string);
  available : gset string
}.

(** The statements the manager builds, and the caller's own queries. *)
Inductive statement : Type :=
| SelectDatabase (datname : string)
    (* SELECT 1 FROM pg_database WHERE datname = <datname>; *)
| CreateDatabase (db_name template : string)
    (* CREATE DATABASE <db_name> WITH TEMPLATE = <template>; *)
| CreateExtension (extension : string)
    (* CREATE EXTENSION IF NOT EXISTS <extension>; *)
| Query (query : string) (params : list string).

(** What a cursor holds after [execute]: [cur.description] is [None] for a
    statement that returns no rows. *)
Inductive cursor : Type :=
| Description (rows : list (list string))
| NoDescription.

Inductive event : Type :=
| Getconn (id : nat)                    (* pool.getconn() returned it *)
| Connect (id : nat) (database : string)
| Execute (id : nat) (s : statement)
| Commit (id : nat)
| Rollback (id : nat)
| CursorClose (id : nat)
| Putconn (id : nat)                    (* pool.putconn(conn) was called *)
| Close (id : nat)
| Log (lvl : level) (msg : string).

(** psycopg2's [ThreadedConnectionPool]: the connection arguments it was
    built with, the connections it holds idle, and the ids of those it has
    handed out. *)
Record pool : Type := {
  minconn : nat;
  maxconn : nat;
  pool_database : string;
  idle : list connection;
  used : gset nat;
  pool_closed : bool
}.

Record state : Type := {
  srv : server;
  connection_pool : pool;           (* self._connection_pool *)
  next_id : nat;
  events : list event
}.

(** The constructor argument of [PostgreSQLDatabaseManager] the methods
    below read. *)
Record PostgreSQLDatabaseManager : Type := {
  extensions : list string
}.

(** What a caller's own query does on the server is not modelled: the
    environment says what its cursor holds, or that it fails. *)
Record environment : Type := {
  run_query : string → list string → result cursor
}.

Definition set_srv (s : server) (st : state) : state :=
  {| srv := s; connection_pool := connection_pool st;
     next_id := next_id st; events := events st |}.
Definition set_pool (p : pool) (st : state) : state :=
  {| srv := srv st; connection_pool := p;
     next_id := next_id st; events := events st |}.
Definition add_event (e : event) (st : state) : state :=
  {| srv := srv st; connection_pool := connection_pool st;
     next_id := next_id st; events := events st ++ [e] |}.

Definition emit (e : event) : M state unit := modify (add_event e).

Definition set_idle (l : list connection) (p : pool) : pool :=
  {| minconn := minconn p; maxconn := maxconn p; pool_database := pool_database p;
     idle := l; used := used p; pool_closed := pool_closed p |}.
Definition set_used (u : gset nat) (p : pool) : pool :=
  {| minconn := minconn p; maxconn := maxconn p; pool_database := pool_database p;
     idle := idle p; used := u; pool_closed := pool_closed p |}.

Definition set_autocommit (c : connection) : connection :=
  {| conn_id := conn_id c; conn_database := conn_database c; closed := closed c;
     autocommit := true; in_transaction := in_transaction c; pending := pending c |}.
Definition set_transaction (b : bool) (l : list string) (c : connection) : connection :=
  {| conn_id := conn_id c; conn_database := conn_database c; closed := closed c;
     autocommit := autocommit c; in_transaction := b; pending := l |}.
Definition set_closed (c : connection) : connection :=
  {| conn_id := conn_id c; conn_database := conn_database c; closed := true;
     autocommit := autocommit c; in_transaction := false; pending := [] |}.

(** *** The driver calls the manager makes *)

(** [psycopg2.connect(..., database=database)] *)
Definition connect (database : string) : M state connection :=
  λ st,
    if bool_decide (database ∈ dom (databases (srv st))) then
      let c := Connection (next_id st) database false false false [] in
      (Ok c, {| srv := srv st; connection_pool := connection_pool st;
                next_id := S (next_id st);
                events := events st ++ [Connect (next_id st) database] |})
    else (Raise OperationalError, st).

(** [pool.getconn()]: an idle connection if there is one, else a new one
    unless [maxconn] connections are handed out. *)
Definition getconn : M state connection :=
  λ st,
    let p := connection_pool st in
    if pool_closed p then (Raise PoolError, st)
    else
      match reverse (idle p) with
      | c :: rest =>
          (Ok c, add_event (Getconn (conn_id c))
                   (set_pool (set_used ({[conn_id c]} ∪ used p)
                                (set_idle (reverse rest) p)) st))
      | [] =>
          if bool_decide (size (used p) = maxconn p) then (Raise PoolError, st)
          else
            match connect (pool_database p) st with
            | (Ok c, st') =>
                (Ok c, add_event (Getconn (conn_id c))
                         (set_pool (set_used ({[conn_id c]} ∪ used p) p) st'))
            | (Raise e, st') => (Raise e, st')
            end
      end.

(** [conn.rollback()] and [conn.close()] *)
Definition rollback (c : connection) : M state connection :=
  emit (Rollback (conn_id c)) >> ret (set_transaction false [] c).

Definition close (c : connection) : M state unit :=
  emit (Close (conn_id c)).

(** [pool.putconn(conn)]: a connection the pool did not hand out is refused;
    one it did is kept idle (rolled back first if a transaction is open)
    when fewer than [minconn] are idle and it is not closed, and is closed
    otherwise. *)
Definition putconn (c : connection) : M state unit :=
  emit (Putconn (conn_id c)) >>
  let* st := get in
  let p := connection_pool st in
  if pool_closed p then raise PoolError
  else if negb (bool_decide (conn_id c ∈ used p)) then raise PoolError
  else
    (if bool_decide (length (idle p) < minconn p) then
       if closed c then ret tt
       else
         let* c' := (if in_transaction c then rollback c else ret c) in
         modify (λ st, set_pool (set_idle (idle (connection_pool st) ++ [c'])
                                   (connection_pool st)) st)
     else close c) >>
    modify (λ st, set_pool (set_used (used (connection_pool st) ∖ {[conn_id c]})
                              (connection_pool st)) st).

(** [cur.execute(...)] on a cursor of [c].  Outside autocommit mode the
    driver opens a transaction before the first statement. *)
Definition begun (c : connection) : connection :=
  if autocommit c then c else set_transaction true (pending c) c.

Definition install (d : string) (exts : list string) (s : server) : server :=
  {| databases := alter (λ inst, inst ∪ list_to_set exts) d (databases s);
     available := available s |}.

Definition execute (E : environment) (c : connection) (s : statement)
    : M state (connection * cursor) :=
  if closed c then raise InterfaceError
  else
    emit (Execute (conn_id c) s) >>
    let* st := get in
    match s with
    | SelectDatabase datname =>
        ret (begun c,
             Description (if bool_decide (datname ∈ dom (databases (srv st)))
                          then [["1"]] else []))
    | CreateDatabase db_name template =>
        (* CREATE DATABASE cannot run inside a transaction block *)
        if negb (autocommit c) then raise OperationalError
        else
          match databases (srv st) !! template with
          | None => raise ProgrammingError
          | Some inst =>
              if bool_decide (db_name ∈ dom (databases (srv st)))
              then raise ProgrammingError
              else
                modify (set_srv {| databases := <[db_name := inst]> (databases (srv st));
                                   available := available (srv st) |}) >>
                ret (c, NoDescription)
          end
    | CreateExtension extension =>
        match databases (srv st) !! conn_database c with
        | None => raise OperationalError
        | Some inst =>
            if bool_decide (extension ∈ inst) || bool_decide (extension ∈ pending c)
            then ret (begun c, NoDescription)
            else if bool_decide (extension ∈ available (srv st)) then
              if autocommit c then
                modify (λ st, set_srv (install (conn_database c) [extension] (srv st)) st) >>
                ret (c, NoDescription)
              else ret (set_transaction true (pending c ++ [extension]) c, NoDescription)
            else raise OperationalError
        end
    | Query query params =>
        let* cur := lift (run_query E query params) in
        ret (begun c, cur)
    end.

(** [conn.commit()] *)
Definition commit (c : connection) : M state connection :=
  if closed c then raise InterfaceError
  else
    emit (Commit (conn_id c)) >>
    modify (λ st, set_srv (install (conn_database c) (pending c) (srv st)) st) >>
    ret (set_transaction false [] c).

(** [cur.fetchone()], as the truth value [ensure_database] tests. *)
Definition fetchone (cur : cursor) : bool :=
  match cur with
  | Description (_ :: _) => true
  | _ => false
  end.

(** *** PostgreSQLDatabaseManager._init_connection_pool

    [ThreadedConnectionPool(minconn, maxconn, ..., database='postgres')]
    opens [minconn] connections at once. *)
Fixpoint open_idle (n : nat) (database : string) : M state (list connection) :=
  match n with
  | 0 => ret []
  | S k =>
      let* c := connect database in
      let* cs := open_idle k database in
      ret (c :: cs)
  end.

Definition _init_connection_pool (min_conn max_conn : nat) : M state unit :=
  try_except
    (let* cs := open_idle min_conn "postgres" in
     modify (set_pool {| minconn := min_conn; maxconn := max_conn;
                         pool_database := "postgres"; idle := cs;
                         used := ∅; pool_closed := false |}) >>
     emit (Log INFO "Initialized connection pool"))
    is_psycopg2_Error
    (λ e, emit (Log ERROR "Failed to initialize connection pool") >> raise e).

(** *** PostgreSQLDatabaseManager.get_connection *)
Definition get_connection (database : string) : M state connection :=
  try_except
    (let* conn := getconn in
     if closed conn then connect database else ret conn)
    is_psycopg2_Error
    (λ e, emit (Log ERROR "Failed to get connection") >> raise e).

(** *** PostgreSQLDatabaseManager.release_connection *)
Definition release_connection (conn : connection) : M state unit :=
  try_except
    (putconn conn)
    (λ _, true)
    (λ e, emit (Log WARNING "Error releasing connection") >> close conn).

(** *** PostgreSQLDatabaseManager._ensure_extensions

    In the source the call [cur.execute(] in the loop (line 157) is never
    closed: the parenthesis after [sql.Identifier(extension)] closes
    [format(], and the next line is the [logger.info] call, so Python
    rejects the module as it stands.  The loop body is read here as the two
    statements it is laid out as: the [execute] call, closed after the
    [format] call, then the [logger.info] call. *)
Fixpoint create_extensions (E : environment) (db_name : string)
    (exts : list string) (conn : connection) : M state connection :=
  match exts with
  | [] => ret conn
  | extension :: rest =>
      let* p := execute E conn (CreateExtension extension) in
      emit (Log INFO "Ensured extension") >>
      create_extensions E db_name rest p.1
  end.

Definition _ensure_extensions (E : environment) (self : PostgreSQLDatabaseManager)
    (db_name : string) : M state unit :=
  try_except
    (let* conn := get_connection db_name in
     let* conn := create_extensions E db_name (extensions self) conn in
     let* conn := commit conn in
     emit (CursorClose (conn_id conn)) >>
     release_connection conn)
    is_psycopg2_Error
    (λ e, emit (Log ERROR "Error ensuring extensions") >> raise e).

(** *** PostgreSQLDatabaseManager.ensure_database

    [check_or_create] is the method's body up to and including
    [self.release_connection(conn)]; it returns [created]. *)
Definition check_or_create (E : environment) (db_name : string)
    (template : string) : M state bool :=
  let* conn := get_connection "postgres" in
  let conn := set_autocommit conn in
  let* p := execute E conn (SelectDatabase db_name) in
  let conn := p.1 in
  let exists_ := fetchone p.2 in
  let* q := (if negb exists_ then
               emit (Log INFO "Creating database") >>
               let* p' := execute E conn (CreateDatabase db_name template) in
               ret (p'.1, true)
             else
               emit (Log INFO "Database already exists") >>
               ret (conn, false)) in
  let conn := q.1 in
  let created := q.2 in
  emit (CursorClose (conn_id conn)) >>
  release_connection conn >>
  ret created.

Definition ensure_database (E : environment) (self : PostgreSQLDatabaseManager)
    (db_name : string) (template : string) : M state bool :=
  try_except
    (let* created := check_or_create E db_name template in
     _ensure_extensions E self db_name >>
     ret created)
    is_psycopg2_Error
    (λ e, emit (Log ERROR "Error ensuring database") >> raise e).

(** *** PostgreSQLDatabaseManager.execute_sql *)
Definition execute_sql (E : environment) (self : PostgreSQLDatabaseManager)
    (db_name : string) (query : string) (params : list string)
    : M state (option (list (list string))) :=
  try_except
    (let* conn := get_connection db_name in
     let* p := execute E conn (Query query params) in
     let conn := p.1 in
     let* q := (match p.2 with
                | Description rows => ret (conn, Some rows)
                | NoDescription =>
                    let* conn' := commit conn in
                    ret (conn', None)
                end) in
     emit (CursorClose (conn_id q.1)) >>
     release_connection q.1 >>
     ret q.2)
    is_psycopg2_Error
    (λ e, emit (Log ERROR "SQL execution failed") >> raise e).

(** *** Notions the statements below are written with *)

(** What holds of every connection the pool keeps idle: it is a connection
    to the maintenance database, open, with no transaction in progress. *)
Definition idle_ok (c : connection) : Prop :=
  conn_database c = "postgres" ∧ closed c = false ∧
  in_transaction c = false ∧ pending c = [].

(** The pool was built by [_init_connection_pool]: its connections are
    connections to 'postgres'. *)
Definition pooled_to_postgres (st : state) : Prop :=
  pool_database (connection_pool st) = "postgres" ∧
  Forall (λ c, conn_database c = "postgres") (idle (connection_pool st)).

(** The invariant of the pool between two calls of the manager's methods. *)
Definition mgr_inv (st : state) : Prop :=
  let p := connection_pool st in
  pool_closed p = false ∧
  pool_database p = "postgres" ∧
  Forall idle_ok (idle p) ∧
  length (idle p) ≤ minconn p ∧
  size (used p) + length (idle p) ≤ maxconn p.

(** The invariant of the pool while the connection [id] is handed out:
    the pool knows the connection, and has room for it to come back to, or
    to open the next one. *)
Definition out_inv (id : nat) (st : state) : Prop :=
  let p := connection_pool st in
  pool_closed p = false ∧
  pool_database p = "postgres" ∧
  Forall idle_ok (idle p) ∧
  id ∈ used p ∧
  length (idle p) ≤ minconn p ∧
  size (used p) + length (idle p) ≤ maxconn p ∧
  (length (idle p) < minconn p ∨ idle p ≠ [] ∨
   (size (used p ∖ {[id]}) ≠ maxconn p ∧
    "postgres" ∈ dom (databases (srv st)))).

(** The pool can hand out a connection. *)
Definition can_serve (st : state) : Prop :=
  let p := connection_pool st in
  idle p ≠ [] ∨
  (size (used p) ≠ maxconn p ∧ "postgres" ∈ dom (databases (srv st))).

(** The extensions installed in a database. *)
Definition installed (st : state) (d : string) : gset string :=
  default ∅ (databases (srv st) !! d).

Definition is_commit (e : event) : Prop :=
  match e with Commit _ => True | _ => False end.

(** *** Sample data *)
Definition bare_server : server :=
  {| databases := {[ "postgres" := ∅; "template1" := ∅ ]};
     available := {[ "postgis" ]} |}.

Definition no_pool : pool :=
  {| minconn := 0; maxconn := 0; pool_database := ""; idle := [];
     used := ∅; pool_closed := true |}.

(** The state [__init__] leaves with [min_connections=1, max_connections=5]. *)
Definition initial : state :=
  {| srv := bare_server; connection_pool := no_pool; next_id := 0; events := [] |}.

Definition started : state := (_init_connection_pool 1 5 initial).2.

Definition manager : PostgreSQLDatabaseManager := {| extensions := ["postgis"] |}.

(** Queries that start with nothing but a SELECT return rows. *)
Definition answering : environment :=
  {| run_query := λ q _, if bool_decide (q = "SELECT 1;")
                         then Ok (Description [["1"]]) else Ok NoDescription |}.

(** The connection the pool of [started] holds, and the state once it is
    handed out. *)
Definition pooled : connection := Connection 0 "postgres" false false false [].
Definition leased : state := (getconn started).2.

(** A first run of [ensure_database], for a database that is not there. *)
Definition first_run : result bool * state :=
  ensure_database answering manager "osm" "template1" started.

(** The pooled connection, found closed. *)
Definition stale : state :=
  {| srv := srv started;
     connection_pool := set_idle (set_closed <$> idle (connection_pool started))
                          (connection_pool started);
     next_id := next_id started; events := events started |}.

(** *** PostgreSQLDatabaseManager.optimize_postgis_settings

    The [settings] dictionary, in the order it is written, which is the
    order [settings.items()] yields. *)
Definition settings : list (string * string) :=
  [("shared_buffers", "1GB"); ("maintenance_work_mem", "256MB");
   ("work_mem", "64MB"); ("effective_cache_size", "3GB");
   ("random_page_cost", "1.1"); ("geqo_threshold", "12")].

(** [f"ALTER SYSTEM SET {name} = %s;"] *)
Definition alter_system (name : string) : string :=
  "ALTER SYSTEM SET " +:+ name +:+ " = %s;".

Definition optimize_postgis_settings (E : environment)
    (self : PostgreSQLDatabaseManager) (db_name : string) : M state unit :=
  try_except
    (for_each settings
       (λ s, let* _ := execute_sql E self db_name (alter_system s.1) [s.2] in
             ret tt) >>
     emit (Log INFO "Optimized PostGIS settings"))
    is_psycopg2_Error
    (λ e, emit (Log WARNING "Could not optimize settings")).

(** *** PostgreSQLDatabaseManager.close, __enter__ and __exit__

    [pool.closeall()] refuses a pool that is closed already; otherwise it
    closes the connections it holds idle and those it has handed out, and
    marks the pool closed.  The order in which the handed-out connections
    are closed is that of their ids here. *)
Definition set_pool_closed (p : pool) : pool :=
  {| minconn := minconn p; maxconn := maxconn p; pool_database := pool_database p;
     idle := idle p; used := used p; pool_closed := true |}.

Definition closeall : M state unit :=
  let* st := get in
  let p := connection_pool st in
  if pool_closed p then raise PoolError
  else
    for_each (idle p) close >>
    for_each (elements (used p)) (λ id, emit (Close id)) >>
    modify (λ st, set_pool (set_pool_closed (connection_pool st)) st).

(** [PostgreSQLDatabaseManager.close]; its test [if self._connection_pool]
    holds for every manager [__init__] returned. *)
Definition manager_close : M state unit :=
  closeall >> emit (Log INFO "Closed all database connections").

(** [with PostgreSQLDatabaseManager(...) as db_manager: body], once the
    manager is constructed: [__exit__] calls [close] and returns [None],
    so what the body raised is raised again, unless [close] itself
    raises. *)
Definition with_manager {A} (body : M state A) : M state A :=
  λ st,
    match body st with
    | (r, st1) =>
        match manager_close st1 with
        | (Ok _, st2) => (r, st2)
        | (Raise e, st2) => (Raise e, st2)
        end
    end.

(** *** More notions *)

(** The connections the pool can still hand out. *)
Definition free (st : state) : nat :=
  maxconn (connection_pool st) - size (used (connection_pool st)).

(** The pool's bookkeeping of identities: the idle connections are
    distinct, none of them is also handed out, and every connection the
    pool knows was opened before. *)
Definition wf_ids (st : state) : Prop :=
  let p := connection_pool st in
  NoDup (conn_id <$> idle p) ∧
  (∀ c, c ∈ idle p → (conn_id c ∉ used p) ∧ conn_id c < next_id st) ∧
  (∀ id, id ∈ used p → id < next_id st).

Definition pool_wf (st : state) : Prop := mgr_inv st ∧ wf_ids st.

(** The queries of the caller the log says were executed, in order. *)
Definition queries_of (evs : list event) : list (string * list string) :=
  omap (λ e, match e with Execute _ (Query q ps) => Some (q, ps) | _ => None end) evs.

Definition is_raise {A} (r : result A) : Prop :=
  match r with Raise _ => True | Ok _ => False end.

#[global] Instance is_commit_dec e : Decision (is_commit e).
Proof. destruct e; apply _. Defined.

Definition count_commits (evs : list event) : nat :=
  length (filter is_commit evs).

#[global] Instance is_raise_dec {A} (r : result A) : Decision (is_raise r).
Proof. destruct r; apply _. Defined.

(** *** More sample data *)

(** A server that rejects every query of the caller. *)
Definition failing : environment :=
  {| run_query := λ _ _, Raise OperationalError |}.

(** The state after [n] rejected queries. *)
Fixpoint fail_times (n : nat) (st : state) : state :=
  match n with
  | 0 => st
  | S k => fail_times k (execute_sql failing manager "osm" "SELECT 1;" [] st).2
  end.

Definition exhausted : state := fail_times 5 started.

(** A server that accepts every setting but [work_mem]. *)
Definition rejecting_work_mem : environment :=
  {| run_query := λ q _, if bool_decide (q = alter_system "work_mem")
                         then Raise OperationalError else Ok NoDescription |}.

(** The manager of the module's command line, which asks for an extension
    [bare_server] does not offer. *)
Definition topology_manager : PostgreSQLDatabaseManager :=
  {| extensions := ["postgis"; "postgis_topology"] |}.

End postgres_manager.

(** ** src/pipeline.py *)

Module pipeline.

(** *** JSON documents as [json.load] returns them: an object is a [dict],
    which keeps its keys in insertion order. *)
Inductive json : Type :=
| JNull
| JBool (b : bool)
| JNum (z : Z)
| JFloat (mantissa exponent : Z)
| JStr (s : string)
| JArr (l : list json)
| JObj (m : list (string * json)).

(** The exceptions [load_config] meets.  [JSONDecodeError] and
    [UnicodeDecodeError] derive from [ValueError], [FileNotFoundError] from
    [OSError].  The two whose text [load_config] logs carry it. *)
Inductive exception : Type :=
| FileNotFoundError
| OSError
| JSONDecodeError
| UnicodeDecodeError (msg : string)
| ValueError (msg : string)
| TypeError
| AttributeError
| KeyError
| SystemExit (code : Z).

Inductive outcome (A : Type) : Type :=
| Return (a : A)
| Raises (e : exception).
Arguments Return {A} a.
Arguments Raises {A} e.

(** *** [dict] operations *)

(** [d.get(k)] *)
Fixpoint dict_get (k : string) (d : list (string * json)) : option json :=
  match d with
  | [] => None
  | (k', v) :: d' => if bool_decide (k' = k) then Some v else dict_get k d'
  end.

(** [d[k] = v]: the value of an existing key is replaced where it stands,
    a new key goes last. *)
Fixpoint dict_set (k : string) (v : json) (d : list (string * json))
    : list (string * json) :=
  match d with
  | [] => [(k, v)]
  | (k', v') :: d' =>
      if bool_decide (k' = k) then (k', v) :: d' else (k', v') :: dict_set k v d'
  end.

(** [d.setdefault(k, v)], for its effect on [d]. *)
Definition setdefault (k : string) (v : json) (d : list (string * json))
    : list (string * json) :=
  match dict_get k d with
  | Some _ => d
  | None => dict_set k v d
  end.

(** [section not in config], for whatever [json.load] returned: a key test
    on a dict, a membership test on a list, a substring test on a string,
    and a [TypeError] on anything else. *)
Definition is_str (s : string) (j : json) : bool :=
  match j with
  | JStr s' => bool_decide (s' = s)
  | _ => false
  end.

Definition contains (section : string) (config : json) : outcome bool :=
  match config with
  | JObj d => Return (bool_decide (is_Some (dict_get section d)))
  | JArr l => Return (existsb (is_str section) l)
  | JStr s => Return (bool_decide (is_Some (String.index 0 section s)))
  | JNull | JBool _ | JNum _ | JFloat _ _ => Raises TypeError
  end.

(** [config["postgis"]], once the key test has passed. *)
Definition getitem (k : string) (config : json) : outcome json :=
  match config with
  | JObj d => match dict_get k d with
              | Some v => Return v
              | None => Raises KeyError
              end
  | _ => Raises TypeError
  end.

(** *** load_config *)

Definition required_sections : list string := ["osm"; "cleaning"; "postgis"].

(** The four [setdefault] calls, in order. *)
Definition with_defaults (pg : list (string * json)) : list (string * json) :=
  setdefault "geometry_type" (JStr "GEOMETRY")
    (setdefault "chunk_size" JNull
       (setdefault "create_index" (JBool true)
          (setdefault "extensions" (JArr [JStr "postgis"]) pg))).

(** [for section in required_sections: if section not in config: raise
    ValueError] *)
Fixpoint check_sections (sections : list string) (config : json) : outcome unit :=
  match sections with
  | [] => Return tt
  | section :: rest =>
      match contains section config with
      | Raises e => Raises e
      | Return false =>
          Raises (ValueError ("Missing required config section: " +:+ section))
      | Return true => check_sections rest config
      end
  end.

(** What [open(config_path)] and [json.load(f)] give: the document, or the
    way they fail. *)
Inductive file : Type :=
| Missing                 (* FileNotFoundError *)
| Unreadable              (* another OSError *)
| Malformed               (* json.JSONDecodeError *)
| Undecodable (msg : string)   (* UnicodeDecodeError *)
| Document (config : json).

Definition read (f : file) : outcome json :=
  match f with
  | Missing => Raises FileNotFoundError
  | Unreadable => Raises OSError
  | Malformed => Raises JSONDecodeError
  | Undecodable msg => Raises (UnicodeDecodeError msg)
  | Document config => Return config
  end.

(** The body of the [try]. *)
Definition load_config_body (f : file) : outcome json :=
  match read f with
  | Raises e => Raises e
  | Return config =>
      match check_sections required_sections config with
      | Raises e => Raises e
      | Return _ =>
          match getitem "postgis" config with
          | Raises e => Raises e
          | Return (JObj pg) =>
              match config with
              | JObj d => Return (JObj (dict_set "postgis" (JObj (with_defaults pg)) d))
              | _ => Raises TypeError
              end
          | Return _ => Raises AttributeError
          end
      end
  end.

(** [load_config]: its result and the lines it logs with [logging.error].
    The three [except] clauses log and call [sys.exit(1)]; what they do not
    name propagates. *)
Definition load_config (config_path : string) (f : file)
    : outcome json * list string :=
  match load_config_body f with
  | Return config => (Return config, [])
  | Raises FileNotFoundError =>
      (Raises (SystemExit 1), ["Config file not found at " +:+ config_path])
  | Raises JSONDecodeError =>
      (Raises (SystemExit 1), ["Invalid JSON in config file " +:+ config_path])
  | Raises (ValueError msg) | Raises (UnicodeDecodeError msg) =>
      (Raises (SystemExit 1), ["Configuration error: " +:+ msg])
  | Raises e => (Raises e, [])
  end.

(** *** Logging set-up *)

Inductive handler : Type :=
| StreamHandler
| FileHandler (filename : string).

(** The root logger: its level and its handlers. *)
Record root_logger : Type := {
  root_level : Py.level;
  handlers : list handler
}.

(** The root logger of an interpreter that has just started. *)
Definition fresh_root : root_logger :=
  {| root_level := Py.WARNING; handlers := [] |}.

(** [logging.basicConfig(level=..., handlers=...)]: it does nothing when the
    root logger has handlers already; otherwise it installs the handlers
    given, or a [StreamHandler] when none are, and sets the level. *)
Definition basicConfig (level : Py.level) (hs : option (list handler))
    (root : root_logger) : root_logger :=
  match handlers root with
  | [] => {| root_level := level; handlers := default [StreamHandler] hs |}
  | _ :: _ => root
  end.

(** The module-level statements that touch the root logger when pipeline.py
    is imported: line 21 of download_osm.py, line 20 of postgres_manager.py
    and line 24 of postgis_loader.py, in the order of the imports
    (geo_cleaner.py has none). *)
Definition imports (root : root_logger) : root_logger :=
  basicConfig Py.INFO None (basicConfig Py.INFO None (basicConfig Py.INFO None root)).

Definition setup_logging (verbose debug : bool) (root : root_logger)
    : root_logger :=
  let level := if debug then Py.DEBUG
               else if verbose then Py.INFO else Py.WARNING in
  basicConfig level (Some [StreamHandler; FileHandler "pipeline.log"]) root.

(** [main] up to the call of [load_config]: the imports have run, then
    [setup_logging(verbose=args.verbose, debug=args.debug)]. *)
Definition main_logging (verbose debug : bool) (root : root_logger)
    : root_logger :=
  setup_logging verbose debug (imports root).

(** [logger.isEnabledFor(level)] on the root logger: the numeric levels are
    10, 20, 30 and 40. *)
Definition level_no (l : Py.level) : nat :=
  match l with
  | Py.DEBUG => 10 | Py.INFO => 20 | Py.WARNING => 30 | Py.ERROR => 40
  end.

Definition isEnabledFor (l : Py.level) (root : root_logger) : bool :=
  bool_decide (level_no (root_level root) ≤ level_no l).

(** *** Notions the statements below are written with *)

(** The keys [load_config] gives defaults to, with the defaults. *)
Definition defaults : list (string * json) :=
  [("extensions", JArr [JStr "postgis"]); ("create_index", JBool true);
   ("chunk_size", JNull); ("geometry_type", JStr "GEOMETRY")].

(** *** Sample data: a configuration that sets its own chunk size. *)
Definition sample_config : json :=
  JObj [("osm", JObj [("location_name", JStr "Ikeja, Nigeria")]);
        ("cleaning", JObj [("target_crs", JStr "EPSG:4326")]);
        ("postgis", JObj [("table_name", JStr "osm_features");
                          ("chunk_size", JNum 1000)])].

End pipeline.

(** * Properties *)

(** ** Properties of src/postgis_loader.py *)

Module postgis_loader_facts.
Import Py postgis_loader.
Local Open Scope py_scope.

(** *** What runs inside the transaction *)

Lemma in_txn_ret {A} (a : A) : in_txn (ret a).
Proof. intros st; cbn. split_and!; [done..|]. exists []. by rewrite app_nil_r. Qed.

Lemma in_txn_raise {A} (e : exn) : in_txn (@raise state A e).
Proof. intros st; cbn. split_and!; [done..|]. exists []. by rewrite app_nil_r. Qed.

Lemma in_txn_lift {A} (r : result A) : in_txn (lift r).
Proof. intros st; cbn. split_and!; [done..|]. exists []. by rewrite app_nil_r. Qed.

Lemma in_txn_get : in_txn get.
Proof. intros st; cbn. split_and!; [done..|]. exists []. by rewrite app_nil_r. Qed.

Lemma in_txn_bind {A B} (m : M state A) (k : A → M state B) :
  in_txn m → (∀ a, in_txn (k a)) → in_txn (bind m k).
Proof.
  intros Hm Hk st. unfold bind.
  destruct (Hm st) as (Hc & Hg & evs & He & Hf).
  destruct (m st) as [[a|e] st1]; cbn in *.
  - destruct (Hk a st1) as (Hc' & Hg' & evs' & He' & Hf').
    split_and!; [congruence..|].
    exists (evs ++ evs'). rewrite He', He, app_assoc.
    split; [done|]. by apply Forall_app.
  - split_and!; [done..|]. by exists evs.
Qed.

Lemma in_txn_try_except {A} (m : M state A) handles (h : exn → M state A) :
  in_txn m → (∀ e, in_txn (h e)) → in_txn (try_except m handles h).
Proof.
  intros Hm Hh st. unfold try_except.
  destruct (Hm st) as (Hc & Hg & evs & He & Hf).
  destruct (m st) as [[a|e] st1]; cbn in *.
  - split_and!; [done..|]. by exists evs.
  - destruct (handles e); cbn.
    + destruct (Hh e st1) as (Hc' & Hg' & evs' & He' & Hf').
      split_and!; [congruence..|].
      exists (evs ++ evs'). rewrite He', He, app_assoc.
      split; [done|]. by apply Forall_app.
    + split_and!; [done..|]. by exists evs.
Qed.

Lemma in_txn_for_each {A} (xs : list A) (body : A → M state unit) :
  (∀ x, in_txn (body x)) → in_txn (for_each xs body).
Proof.
  intros Hb. induction xs as [|x xs IH]; cbn.
  - apply in_txn_ret.
  - apply in_txn_bind; [apply Hb | intros _; apply IH].
Qed.

Lemma in_txn_emit (e : event) : is_statement e → in_txn (emit e).
Proof.
  intros He st; cbn. split_and!; [done..|]. exists [e]. split; [done|].
  by apply Forall_singleton.
Qed.

Lemma in_txn_drop_table ref : in_txn (drop_table ref).
Proof.
  intros st; cbn. split_and!; [done..|]. exists [DropTable ref].
  split; [done|]. by apply Forall_singleton.
Qed.

Lemma in_txn_create_table ref gtype sr : in_txn (create_table ref gtype sr).
Proof.
  intros st; cbn. split_and!; [done..|]. exists [CreateTable ref gtype sr].
  split; [done|]. by apply Forall_singleton.
Qed.

Lemma in_txn_insert_rows E ref rs : in_txn (insert_rows E ref rs).
Proof.
  intros st. unfold insert_rows.
  destruct (mapM adapt_row rs) as [drs|]; [destruct (insert_fails E _)|]; cbn.
  - split_and!; [done..|]. exists []. by rewrite app_nil_r.
  - split_and!; [done..|]. exists [Insert ref drs]. split; [done|].
    by apply Forall_singleton.
  - split_and!; [done..|]. exists []. by rewrite app_nil_r.
Qed.

Lemma in_txn_to_sql E df ref if_exists gtype sr :
  in_txn (to_sql E df ref if_exists gtype sr).
Proof.
  unfold to_sql. destruct (negb _); [apply in_txn_raise|].
  apply in_txn_bind; [by apply in_txn_emit|intros _].
  apply in_txn_bind; [apply in_txn_get|intros st].
  apply in_txn_bind; [|intros _; apply in_txn_insert_rows].
  destruct (working st !! ref).
  - repeat case_bool_decide; auto using in_txn_raise, in_txn_ret.
    apply in_txn_bind; [apply in_txn_drop_table|intros _; apply in_txn_create_table].
  - apply in_txn_create_table.
Qed.

Lemma in_txn_load_chunk E self df ref if_exists :
  in_txn (_load_chunk E self df ref if_exists).
Proof.
  unfold _load_chunk. apply in_txn_bind; [apply in_txn_lift|intros ?].
  apply in_txn_to_sql.
Qed.

Lemma in_txn_load_chunks E self df ref if_exists :
  in_txn (load_chunks E self df ref if_exists).
Proof.
  unfold load_chunks. destruct (chunk_size self) as [c|].
  - case_bool_decide; [apply in_txn_load_chunk|].
    apply in_txn_for_each. intros chunk. apply in_txn_load_chunk.
  - apply in_txn_load_chunk.
Qed.

Lemma in_txn_execute_create_index E index_name ref :
  in_txn (execute_create_index E index_name ref).
Proof.
  intros st. unfold execute_create_index.
  destruct (index_fault E) as [[]|]; cbn.
  - split_and!; [done..|]. exists []. by rewrite app_nil_r.
  - split_and!; [done..|]. exists []. by rewrite app_nil_r.
  - destruct (working st !! ref); cbn.
    + split_and!; [done..|]. exists [CreateIndex index_name ref].
      split; [done|]. by apply Forall_singleton.
    + split_and!; [done..|]. exists []. by rewrite app_nil_r.
Qed.

Lemma in_txn_create_spatial_index E ref : in_txn (_create_spatial_index E ref).
Proof.
  unfold _create_spatial_index. apply in_txn_try_except.
  - apply in_txn_bind; [apply in_txn_execute_create_index|].
    intros _. by apply in_txn_emit.
  - intros _. by apply in_txn_emit.
Qed.

Lemma in_txn_body E self df ref if_exists (create_spatial_index : bool) :
  in_txn (load_chunks E self df ref if_exists >>
          (if create_spatial_index then _create_spatial_index E ref else ret tt)).
Proof.
  apply in_txn_bind; [apply in_txn_load_chunks|intros _].
  destruct create_spatial_index; [apply in_txn_create_spatial_index|apply in_txn_ret].
Qed.

Lemma statement_not_boundary evs :
  Forall is_statement evs → (Begin ∉ evs) ∧ (Commit ∉ evs) ∧ (Rollback ∉ evs).
Proof.
  intros H. rewrite Forall_forall in H.
  split_and!; intros Hin; apply H in Hin; exact Hin.
Qed.

Lemma log_is_statement evs : Forall is_log evs → Forall is_statement evs.
Proof. intros H. eapply Forall_impl; [exact H|]. by intros []. Qed.

(** [load] touches neither the committed nor the working database, and
    only logs. *)
Lemma load_spec E st :
  committed (load E st).2 = committed st ∧
  working (load E st).2 = working st ∧
  ∃ evs, events (load E st).2 = events st ++ evs ∧ Forall is_log evs.
Proof.
  unfold load, try_except, bind, emit, modify, lift, raise, ret; cbn.
  destruct (read_file E) as [df|e]; cbn.
  - destruct (_validate_schema df); cbn.
    + split_and!; [done..|]. eexists. rewrite <- app_assoc.
      split; [done|]. repeat constructor.
    + split_and!; [done..|]. eexists. rewrite <- app_assoc.
      split; [done|]. repeat constructor.
  - split_and!; [done..|]. eexists. rewrite <- app_assoc.
    split; [done|]. repeat constructor.
Qed.

(** A transaction whose body raises is rolled back. *)
Lemma engine_begin_raise {A} E (body : M state A) st e st1 :
  in_txn body →
  engine_begin E body st = (Raise e, st1) →
  committed st1 = committed st ∧
  ∃ evs, events st1 = events st ++ evs ∧ (Commit ∉ evs) ∧
         (Begin ∈ evs → Rollback ∈ evs).
Proof.
  intros Hb. unfold engine_begin.
  destruct (connect_fails E).
  - intros [= <- <-]. split; [done|]. exists []. rewrite app_nil_r.
    split_and!; [done| |]; by intros ?%elem_of_nil.
  - set (st0 := add_event Begin _).
    destruct (Hb st0) as (Hc & _ & evs & He & Hf).
    destruct (body st0) as [[a|e'] st2]; [done|].
    intros [= <- <-]. cbn in *. split; [by rewrite Hc|].
    exists (Begin :: evs ++ [Rollback]).
    rewrite He. rewrite <- !app_assoc. split; [done|].
    apply statement_not_boundary in Hf as (_ & Hcm & _).
    split.
    + rewrite elem_of_cons, elem_of_app, list_elem_of_singleton.
      intros [?|[?|?]]; [done|auto|done].
    + intros _. rewrite elem_of_cons, elem_of_app, list_elem_of_singleton. auto.
Qed.

Lemma ensure_loaded_spec E st :
  committed (ensure_loaded E st).2 = committed st ∧
  working (ensure_loaded E st).2 = working st ∧
  ∃ evs, events (ensure_loaded E st).2 = events st ++ evs ∧ Forall is_log evs.
Proof.
  unfold ensure_loaded, bind at 1. cbn. destruct (gdf st).
  - cbn. split_and!; [done..|]. exists []. by rewrite app_nil_r.
  - unfold bind. destruct (load_spec E st) as (Hc & Hw & evs & He & Hf).
    destruct (load E st) as [[g|e0] st0]; cbn in *; split_and!; eauto.
Qed.

(** *** What a successful chunk writes *)

Lemma to_wkb_cell_ok v c :
  to_wkb_cell v = Ok c →
  ∃ g, v = PyGeom g ∧ c = if is_empty g then PyNone else PyBytes (wkb g).
Proof.
  destruct v as [|g| |]; try done. cbn. exists g. split; [done|].
  destruct (is_empty g); cbn in *; congruence.
Qed.

Lemma ensure_type_cell_ok v c :
  ensure_type_cell v = Ok c →
  ∃ g, v = PyGeom g ∧
       c = if is_empty g then PyGeom g else PyStr (upper (class_name g)).
Proof.
  destruct v as [|g| |]; try done. cbn. exists g. split; [done|]. congruence.
Qed.

Lemma map_result_cons_ok {A B} (f : A → result B) x xs ys :
  map_result f (x :: xs) = Ok ys →
  ∃ y ys', ys = y :: ys' ∧ f x = Ok y ∧ map_result f xs = Ok ys'.
Proof.
  cbn. destruct (f x) as [y|]; [|done].
  destruct (map_result f xs) as [ys'|]; [|done].
  intros [= <-]. eauto.
Qed.

Lemma wkb_pass_written rs cells :
  map_result to_wkb_cell (geometry <$> rs) = Ok cells →
  mapM adapt_row (zip_with (λ r c, Row c (attrs r)) rs cells)
  = Some (written_row <$> rs).
Proof.
  revert cells. induction rs as [|r rs IH]; intros cells H.
  - cbn in H. by injection H as <-.
  - rewrite fmap_cons in H.
    apply map_result_cons_ok in H as (c & cells' & -> & Hc & Hrest).
    apply to_wkb_cell_ok in Hc as (g & Hg & ->).
    cbn. rewrite (IH _ Hrest). unfold written_row. rewrite Hg.
    by destruct (is_empty g).
Qed.

Lemma both_passes_written rs cells1 cells2 :
  map_result ensure_type_cell (geometry <$> rs) = Ok cells1 →
  map_result to_wkb_cell
    (geometry <$> zip_with (λ r c, Row c (attrs r)) rs cells1) = Ok cells2 →
  mapM adapt_row
    (zip_with (λ r c, Row c (attrs r))
       (zip_with (λ r c, Row c (attrs r)) rs cells1) cells2)
  = Some (written_row <$> rs).
Proof.
  revert cells1 cells2. induction rs as [|r rs IH]; intros cells1 cells2 H1 H2.
  - cbn in H1. injection H1 as <-. cbn in H2. by injection H2 as <-.
  - rewrite fmap_cons in H1.
    apply map_result_cons_ok in H1 as (c1 & cells1' & -> & Hc1 & Hrest1).
    cbn [zip_with] in H2. rewrite fmap_cons in H2.
    apply map_result_cons_ok in H2 as (c2 & cells2' & -> & Hc2 & Hrest2).
    apply ensure_type_cell_ok in Hc1 as (g & Hg & ->).
    cbn in Hc2. apply to_wkb_cell_ok in Hc2 as (g' & Hg' & ->).
    cbn. rewrite (IH _ _ Hrest1 Hrest2). unfold written_row. rewrite Hg.
    destruct (is_empty g) eqn:He; [|done].
    injection Hg' as <-. by rewrite He.
Qed.

Lemma prepare_data_written self df df' :
  _prepare_data self df = Ok df' →
  mapM adapt_row (rows df') = Some (written_row <$> rows df).
Proof.
  unfold _prepare_data, getitem_geometry. case_bool_decide as Ht.
  - destruct (bool_decide ("geometry" ∈ columns df)) eqn:Hcol; [|done].
    destruct (map_result ensure_type_cell _) as [cells1|] eqn:H1; [|done].
    cbn [columns setitem_geometry rows]. rewrite Hcol.
    destruct (map_result to_wkb_cell _) as [cells2|] eqn:H2; [|done].
    intros [= <-]. cbn. by apply both_passes_written.
  - destruct (bool_decide ("geometry" ∈ columns df)) eqn:Hcol; [|done].
    destruct (map_result to_wkb_cell _) as [cells2|] eqn:H2; [|done].
    intros [= <-]. cbn. by apply wkb_pass_written.
Qed.

Lemma inserted_batches_app evs1 evs2 :
  inserted_batches (evs1 ++ evs2) = inserted_batches evs1 ++ inserted_batches evs2.
Proof. apply omap_app. Qed.

Lemma load_chunk_ok E self df ref pol st st' :
  _load_chunk E self df ref pol st = (Ok tt, st') →
  working st' !! ref
    = Some (append_rows (written_row <$> rows df)
              (base_table self pol (working st !! ref))) ∧
  inserted_batches (events st')
    = inserted_batches (events st) ++ [written_row <$> rows df] ∧
  aborted st' = aborted st ∧
  (pol = "replace" ∨ pol = "append" ∨ (pol = "fail" ∧ working st !! ref = None)).
Proof.
  unfold _load_chunk, bind at 1, lift.
  destruct (_prepare_data self df) as [p|] eqn:Hp; [|done].
  apply prepare_data_written in Hp.
  unfold to_sql. case_bool_decide as Hpol; [|done]. cbn [negb].
  unfold bind, emit, modify, get, insert_rows. cbn.
  rewrite Hp.
  destruct (working st !! ref) as [t|] eqn:Hw; cbn.
  - case_bool_decide; [done|]. case_bool_decide; cbn.
    + destruct (insert_fails E _); [done|]. intros [= <-]; cbn.
      rewrite lookup_alter_eq, lookup_insert_eq. cbn.
      rewrite <- !app_assoc, !inserted_batches_app. split_and!; auto.
    + destruct (insert_fails E _); [done|]. intros [= <-]; cbn.
      rewrite lookup_alter_eq, Hw. cbn.
      rewrite <- !app_assoc, !inserted_batches_app. split_and!; [done..|].
      rewrite !elem_of_cons, elem_of_nil in Hpol.
      destruct Hpol as [->|[->|[->|[]]]]; auto; done.
  - destruct (insert_fails E _); [done|]. intros [= <-]; cbn.
    rewrite lookup_alter_eq, lookup_insert_eq. cbn.
    rewrite <- !app_assoc, !inserted_batches_app. split_and!; [done..|].
    rewrite !elem_of_cons, elem_of_nil in Hpol.
    destruct Hpol as [->|[->|[->|[]]]]; auto.
Qed.

Section chunks.
Context {A : Type}.
Implicit Types (l : list A) (c n k a m : nat).

Lemma slice_chunk l k (C : Z) :
  (0 < C)%Z →
  slice l (Z.of_nat k * C) ((Z.of_nat k + 1) * C) = chunk (Z.to_nat C) l k.
Proof.
  intros HC.
  assert (∃ c, C = Z.of_nat c ∧ 0 < c) as (c & -> & Hc).
  { exists (Z.to_nat C). lia. }
  rewrite Nat2Z.id. unfold slice, slice_bound, chunk.
  destruct (Z.ltb_spec (Z.of_nat k * Z.of_nat c) 0); [lia|].
  destruct (Z.ltb_spec ((Z.of_nat k + 1) * Z.of_nat c) 0); [lia|].
  destruct (decide (k * c ≤ length l)) as [Hle|Hgt].
  - replace (Z.to_nat (Z.of_nat (length l) `min` (Z.of_nat k * Z.of_nat c)))
      with (k * c) by lia.
    destruct (decide ((k + 1) * c ≤ length l)).
    + f_equal. lia.
    + rewrite !take_ge; [done|rewrite length_drop; lia..].
  - rewrite (drop_ge l (k * c)) by lia.
    rewrite (drop_ge l) by lia. by rewrite !take_nil.
Qed.

Lemma concat_chunks c l m a :
  concat (chunk c l <$> seq a m) = take (m * c) (drop (a * c) l).
Proof.
  revert a. induction m as [|m IH]; intros a; [done|].
  cbn [seq fmap list_fmap concat]. rewrite IH. unfold chunk.
  replace (S a * c) with (a * c + c) by lia.
  by rewrite <- drop_drop, take_take_drop.
Qed.

Lemma length_chunk c l k : length (chunk c l k) = c `min` (length l - k * c).
Proof. unfold chunk. by rewrite length_take, length_drop. Qed.

Lemma ceil_div_spec n c :
  0 < c → ceil_div n c = n / c + (if decide (n `mod` c = 0) then 0 else 1).
Proof.
  intros Hc. unfold ceil_div.
  pose proof (Nat.div_mod_eq n c). pose proof (Nat.mod_upper_bound n c).
  case_decide.
  - symmetry. apply (Nat.div_unique _ _ _ (c - 1)); lia.
  - symmetry. apply (Nat.div_unique _ _ _ (n `mod` c - 1)); lia.
Qed.

Lemma filter_all (P : list A → Prop) `{!∀ x, Decision (P x)} (bs : list (list A)) :
  Forall P bs → filter P bs = bs.
Proof.
  induction 1 as [|b bs Hb _ IH]; [done|].
  by rewrite filter_cons_True, IH.
Qed.

Lemma nonempty_chunks c l :
  0 < c →
  filter (λ b, length b ≠ 0) (chunk c l <$> seq 0 (length l / c + 1))
  = chunk c l <$> seq 0 (ceil_div (length l) c).
Proof.
  intros Hc. rewrite ceil_div_spec by done.
  pose proof (Nat.div_mod_eq (length l) c).
  pose proof (Nat.mod_upper_bound (length l) c).
  rewrite seq_app, fmap_app, filter_app. cbn [seq fmap list_fmap].
  rewrite filter_all.
  - case_decide.
    + rewrite filter_cons_False, filter_nil.
      * by rewrite Nat.add_0_r, app_nil_r.
      * rewrite length_chunk. lia.
    + rewrite filter_cons_True, filter_nil.
      * by rewrite seq_app, fmap_app.
      * rewrite length_chunk. lia.
  - apply Forall_fmap, Forall_forall. intros k [_ Hk]%elem_of_seq.
    cbn. rewrite length_chunk. nia.
Qed.

Lemma concat_all_chunks c l :
  0 < c → concat (chunk c l <$> seq 0 (ceil_div (length l) c)) = l.
Proof.
  intros Hc. rewrite concat_chunks. cbn. apply take_ge.
  rewrite ceil_div_spec by done.
  pose proof (Nat.div_mod_eq (length l) c).
  pose proof (Nat.mod_upper_bound (length l) c).
  case_decide; nia.
Qed.

Lemma full_chunks c l i :
  0 < c → S i < ceil_div (length l) c → length (chunk c l i) = c.
Proof.
  intros Hc. rewrite ceil_div_spec by done.
  pose proof (Nat.div_mod_eq (length l) c).
  pose proof (Nat.mod_upper_bound (length l) c).
  rewrite length_chunk. case_decide; nia.
Qed.

End chunks.

Lemma fmap_chunk {A B} (f : A → B) c l k : f <$> chunk c l k = chunk c (f <$> l) k.
Proof. unfold chunk. by rewrite fmap_take, fmap_drop. Qed.

Lemma append_rows_app rs1 rs2 t :
  append_rows rs2 (append_rows rs1 t) = append_rows (rs1 ++ rs2) t.
Proof. unfold append_rows; cbn. by rewrite app_assoc. Qed.

Lemma append_rows_nil t : append_rows [] t = t.
Proof. destruct t. unfold append_rows; cbn. by rewrite app_nil_r. Qed.

Section chunk_loop.
Context (E : environment) (self : PostGISLoader) (df : DataFrame)
  (ref : table_ref) (pol : string) (C : Z) (HC : (0 < C)%Z).

Lemma append_loop_ok m : ∀ a st st' t,
  1 ≤ a →
  working st !! ref = Some t →
  for_each (Z.of_nat <$> seq a m) (chunk_body E self df ref pol C) st = (Ok tt, st') →
  working st' !! ref
    = Some (append_rows (concat (written_chunks df (Z.to_nat C) a m)) t) ∧
  inserted_batches (events st')
    = inserted_batches (events st) ++ written_chunks df (Z.to_nat C) a m ∧
  aborted st' = aborted st.
Proof.
  induction m as [|m IH]; intros a st st' t Ha Ht.
  - cbn. intros [= <-]. rewrite append_rows_nil, app_nil_r. done.
  - cbn [seq fmap list_fmap for_each]. unfold bind at 1.
    destruct (chunk_body E self df ref pol C (Z.of_nat a) st)
      as [[[]|e] st1] eqn:Hb; [|done].
    intros Hrest. unfold chunk_body in Hb.
    rewrite bool_decide_eq_false_2 in Hb by lia.
    apply load_chunk_ok in Hb as (Hw1 & Hi1 & Ha1 & _).
    rewrite Ht in Hw1. cbn [base_table rows iloc] in Hw1, Hi1.
    rewrite bool_decide_eq_false_2 in Hw1 by done.
    rewrite slice_chunk in Hw1, Hi1 by done.
    apply (IH (S a) _ _ _ ltac:(lia) Hw1) in Hrest as (Hw & Hi & Hab).
    unfold written_chunks at 1 2. cbn [seq fmap list_fmap concat].
    fold (written_chunks df (Z.to_nat C) (S a) m).
    rewrite Hw, Hi, Hi1, append_rows_app, <- app_assoc.
    split_and!; [done..|congruence].
Qed.

Lemma load_chunks_ok st st' :
  chunk_size self = Some C →
  load_chunks E self df ref pol st = (Ok tt, st') →
  let c := Z.to_nat C in
  let n := length (rows df) in
  working st' !! ref
    = Some (append_rows (concat (written_chunks df c 0 (n / c + 1)))
              (base_table self pol (working st !! ref))) ∧
  inserted_batches (events st')
    = inserted_batches (events st) ++ written_chunks df c 0 (n / c + 1) ∧
  aborted st' = aborted st ∧
  (pol = "replace" ∨ pol = "append" ∨ (pol = "fail" ∧ working st !! ref = None)).
Proof.
  intros Hcs. unfold load_chunks. rewrite Hcs.
  rewrite bool_decide_eq_false_2 by lia.
  unfold range, len.
  replace (Z.to_nat (Z.of_nat (length (rows df)) `div` C + 1))
    with (S (length (rows df) / Z.to_nat C)).
  2:{ rewrite <- (Z2Nat.id C) at 2 by lia.
      rewrite <- Nat2Z.inj_div. lia. }
  cbn [seq fmap list_fmap for_each]. unfold bind at 1.
  destruct (chunk_body E self df ref pol C (Z.of_nat 0) st)
    as [[[]|e] st1] eqn:Hb; [|done].
  intros Hrest. unfold chunk_body in Hb. cbn [Z.of_nat] in Hb.
  rewrite bool_decide_eq_true_2 in Hb by done.
  apply load_chunk_ok in Hb as (Hw1 & Hi1 & Ha1 & Hpol).
  cbn [rows iloc] in Hw1, Hi1. change 0%Z with (Z.of_nat 0) in Hw1, Hi1.
  rewrite slice_chunk in Hw1, Hi1 by done.
  apply (append_loop_ok _ 1 _ _ _ ltac:(lia) Hw1) in Hrest as (Hw & Hi & Hab).
  cbn zeta. rewrite Nat.add_1_r.
  unfold written_chunks at 1 2. cbn [seq fmap list_fmap concat].
  fold (written_chunks df (Z.to_nat C) 1 (length (rows df) / Z.to_nat C)).
  rewrite Hw, Hi, Hi1, append_rows_app, <- app_assoc.
  split_and!; [done|done|congruence|done].
Qed.

End chunk_loop.

Lemma create_spatial_index_spec E ref st :
  ∃ st1, _create_spatial_index E ref st = (Ok tt, st1) ∧
    rows_of (working st1) ref = rows_of (working st) ref ∧
    inserted_batches (events st1) = inserted_batches (events st) ∧
    (index_fault E ≠ Some ServerSide → is_Some (working st !! ref) →
     aborted st1 = aborted st).
Proof.
  unfold _create_spatial_index, try_except, bind, execute_create_index, emit, modify.
  destruct (index_fault E) as [[]|]; cbn.
  - eexists. split; [done|]. cbn. split; [done|]. split; [|done].
    by rewrite inserted_batches_app, app_nil_r.
  - eexists. split; [done|]. cbn. split; [done|]. split; [|done].
    by rewrite inserted_batches_app, app_nil_r.
  - destruct (working st !! ref) as [t|] eqn:Hw; cbn.
    + eexists. split; [done|]. cbn. split; [|split; [|done]].
      * unfold rows_of. by rewrite lookup_alter_eq, Hw.
      * by rewrite <- app_assoc, inserted_batches_app, app_nil_r.
    + eexists. split; [done|]. cbn. split; [done|]. split.
      * by rewrite inserted_batches_app, app_nil_r.
      * by intros _ [? ?].
Qed.

Lemma count_event_app P evs1 evs2 :
  count_event P (evs1 ++ evs2) = count_event P evs1 + count_event P evs2.
Proof. unfold count_event. by rewrite filter_app, length_app. Qed.

Lemma count_statements evs :
  Forall is_statement evs →
  count_event is_begin evs = 0 ∧ count_event is_commit evs = 0.
Proof.
  unfold count_event. induction 1 as [|e evs He _ [IH1 IH2]]; [done|].
  destruct e; try done; by rewrite !filter_cons_False.
Qed.

(** The index step, whether requested or not, returns normally and adds
    no row. *)
Lemma index_step_spec E ref (idx : bool) st :
  ∃ st2, (if idx then _create_spatial_index E ref else ret tt) st = (Ok tt, st2) ∧
    rows_of (working st2) ref = rows_of (working st) ref ∧
    committed st2 = committed st ∧
    (idx = false ∨ index_fault E ≠ Some ServerSide →
     is_Some (working st !! ref) → aborted st2 = aborted st) ∧
    ∃ evs, events st2 = events st ++ evs ∧ Forall is_statement evs ∧
           inserted_batches evs = [].
Proof.
  destruct idx.
  - destruct (create_spatial_index_spec E ref st) as (st2 & Hr & Hrows & Hi & Hab).
    destruct (in_txn_create_spatial_index E ref st) as (Hc & _ & evs & He & Hf).
    rewrite Hr in Hc, He. cbn in Hc, He.
    exists st2. split_and!; [done..| |].
    + intros [?|?]; [done|auto].
    + exists evs. split_and!; [done..|].
      rewrite He, inserted_batches_app in Hi.
      rewrite <- (app_nil_r (inserted_batches (events st))) in Hi at 2.
      by apply app_inv_head in Hi.
  - exists st. cbn. split_and!; [done..|]. exists []. by rewrite app_nil_r.
Qed.

Lemma written_chunks_fmap df c a m :
  written_chunks df c a m = chunk c (written_row <$> rows df) <$> seq a m.
Proof.
  unfold written_chunks. apply list_fmap_ext. intros _ k _. apply fmap_chunk.
Qed.

Lemma inserted_batches_logs evs : Forall is_log evs → inserted_batches evs = [].
Proof.
  unfold inserted_batches. induction 1 as [|e evs He _ IH]; [done|].
  by destruct e.
Qed.

(** *** Chunked loads *)

(** C2 (amended): for every chunk size C >= 1 and every dataset of N
    records, a successful load writes its batches inside one transaction
    that is begun once and committed once; the non-empty batches it writes
    number ceil(N/C), each has at most C records and every one but the last
    exactly C, they follow the dataset's order (their concatenation is the
    dataset as written), and, unless the server rejected the index
    statement, the table finally holds the rows it kept (those it had, for
    "append") followed by the N records. *)
Theorem chunked_load_batches E self C df table_name schema if_exists idx st st' :
  (1 ≤ C)%Z →
  chunk_size self = Some C →
  (ensure_loaded E st).1 = Ok df →
  load_to_postgis E self table_name schema if_exists idx st = (Ok tt, st') →
  ∃ evs, events st' = events st ++ evs ∧
    let c := Z.to_nat C in
    let n := length (rows df) in
    let batches := filter (λ b, length b ≠ 0) (inserted_batches evs) in
    length batches = ceil_div n c ∧
    (∀ i b, batches !! i = Some b →
        length b ≤ c ∧ (S i < length batches → length b = c)) ∧
    concat batches = written_row <$> rows df ∧
    count_event is_begin evs = 1 ∧
    count_event is_commit evs = 1 ∧
    (idx = false ∨ index_fault E ≠ Some ServerSide →
     rows_of (committed st') (schema, table_name)
     = Some ((if bool_decide (if_exists = "append")
              then default [] (rows_of (committed st) (schema, table_name))
              else []) ++ (written_row <$> rows df))).
Proof.
  intros HC Hcs Hdf. unfold load_to_postgis, bind at 1.
  destruct (ensure_loaded_spec E st) as (Hc0 & Hw0 & evs0 & He0 & Hf0).
  destruct (ensure_loaded E st) as [r0 sta]. cbn in Hdf, Hc0, Hw0, He0. subst r0.
  unfold try_except, bind at 1, engine_begin.
  destruct (connect_fails E); [done|].
  set (st0 := add_event Begin _).
  set (ref := (schema, table_name)).
  unfold bind at 1.
  destruct (in_txn_load_chunks E self df ref if_exists st0)
    as (Hc1 & _ & evs1 & He1 & Hf1).
  destruct (load_chunks E self df ref if_exists st0) as [[[]|e] st1] eqn:Hl;
    [|by destruct idx].
  cbn [snd] in Hc1, He1.
  apply (load_chunks_ok E self df ref if_exists C ltac:(lia)) in Hl
    as (Hw1 & Hi1 & Ha1 & Hpol); [|done].
  cbn zeta in Hw1, Hi1.
  destruct (index_step_spec E ref idx st1)
    as (st2 & -> & Hrows2 & Hc2 & Hab2 & evs2 & He2 & Hf2 & Hi2).
  cbn. intros [= <-].
  assert (inserted_batches evs1
          = chunk (Z.to_nat C) (written_row <$> rows df)
              <$> seq 0 (length (rows df) / Z.to_nat C + 1)) as Hb1.
  { rewrite He1, inserted_batches_app in Hi1. apply app_inv_head in Hi1.
    by rewrite Hi1, written_chunks_fmap. }
  assert (0 < Z.to_nat C) as Hcpos by lia.
  exists (evs0 ++ Begin :: evs1 ++ evs2 ++ [Commit; Log INFO "Successfully loaded"]).
  split.
  { unfold commit. destruct (aborted st2); cbn; rewrite He2, He1; cbn;
      by rewrite He0, <- !app_assoc. }
  cbn zeta.
  replace (inserted_batches (evs0 ++ Begin :: evs1 ++ evs2 ++ _))
    with (inserted_batches evs1).
  2:{ change (Begin :: evs1 ++ ?l) with ([Begin] ++ evs1 ++ l).
      rewrite !inserted_batches_app, Hi2, (inserted_batches_logs evs0) by done.
      cbn. by rewrite app_nil_r. }
  rewrite Hb1. rewrite <- (length_fmap written_row (rows df)).
  rewrite nonempty_chunks by done.
  set (W := written_row <$> rows df).
  apply log_is_statement in Hf0.
  split_and!.
  - by rewrite length_fmap, length_seq.
  - intros i b. rewrite list_lookup_fmap, length_fmap, length_seq.
    intros Hib. apply fmap_Some in Hib as (k & [-> Hk]%lookup_seq & ->).
    split.
    + rewrite length_chunk. lia.
    + intros Hlt. by apply full_chunks.
  - by apply concat_all_chunks.
  - change (Begin :: evs1 ++ ?l) with ([Begin] ++ evs1 ++ l).
    rewrite !count_event_app.
    apply count_statements in Hf0 as [-> _], Hf1 as [-> _], Hf2 as [-> _]. done.
  - change (Begin :: evs1 ++ ?l) with ([Begin] ++ evs1 ++ l).
    rewrite !count_event_app.
    apply count_statements in Hf0 as [_ ->], Hf1 as [_ ->], Hf2 as [_ ->]. done.
  - subst W. intros Hidx. cbn [committed add_event]. unfold commit.
    rewrite (Hab2 Hidx) by (by rewrite Hw1).
    rewrite Ha1. cbn. unfold rows_of in *. rewrite Hrows2, Hw1. cbn.
    f_equal. rewrite written_chunks_fmap, concat_chunks, drop_0.
    rewrite take_ge.
    2:{ rewrite length_fmap.
        pose proof (Nat.div_mod_eq (length (rows df)) (Z.to_nat C)).
        pose proof (Nat.mod_upper_bound (length (rows df)) (Z.to_nat C)). nia. }
    f_equal. unfold base_table. cbn in Hpol |- *. rewrite Hc0 in Hpol |- *.
    destruct Hpol as [->|[->|[-> Hnone]]]; cbn in *;
      destruct (committed st !! ref); repeat case_bool_decide; done.
Qed.

Lemma chunked_load_batches_witness :
  ∃ evs, events even_load.2 = events (fresh None) ++ evs ∧
    let batches := filter (λ b, length b ≠ 0) (inserted_batches evs) in
    length batches = ceil_div 4 2 ∧
    (∀ i b, batches !! i = Some b →
        length b ≤ 2 ∧ (S i < length batches → length b = 2)) ∧
    concat batches = written_row <$> rows four_points ∧
    count_event is_begin evs = 1 ∧
    count_event is_commit evs = 1 ∧
    (true = false ∨ index_fault (failing_at None four_points) ≠ Some ServerSide →
     rows_of (committed even_load.2) ("public", "roads")
     = Some ((if bool_decide ("replace" = "append")
              then default [] (rows_of (committed (fresh None)) ("public", "roads"))
              else []) ++ (written_row <$> rows four_points))).
Proof.
  apply (chunked_load_batches
           (failing_at None four_points) (loader (Some 2%Z) "GEOMETRY") 2%Z
           four_points "roads" "public" "replace" true (fresh None)).
  - lia.
  - reflexivity.
  - reflexivity.
  - vm_compute. reflexivity.
Defined.

(** C2 as stated does not hold: four records in chunks of two load
    successfully, ceil(4/2) is 2, yet the load issues one commit, not two,
    and writes three batches, the third of them empty. *)
Lemma batch_count_counterexample :
  even_load.1 = Ok tt ∧
  ceil_div 4 2 = 2 ∧
  count_event is_commit (events even_load.2) = 1 ∧
  length <$> inserted_batches (events even_load.2) = [2; 2; 0].
Proof. vm_compute. done. Qed.

(** *** The existence policy across chunks *)

Lemma load_chunk_events E self df ref pol st r st' :
  _load_chunk E self df ref pol st = (r, st') →
  ∃ evs, events st' = events st ++ evs ∧
    ((evs = [] ∧ r ≠ Ok tt) ∨
     (∃ n ins, evs = ToSql ref pol n
                       :: schema_events ref self pol (working st !! ref) ++ ins ∧
        is_Some (working st' !! ref) ∧
        ((r = Ok tt ∧ ∃ rs, ins = [Insert ref rs]) ∨ (r ≠ Ok tt ∧ ins = [])))).
Proof.
  unfold _load_chunk, bind at 1, lift.
  destruct (_prepare_data self df) as [p|] eqn:Hp.
  2:{ intros [= <- <-]. exists []. rewrite app_nil_r. split; [done|]. by left. }
  apply prepare_data_written in Hp.
  unfold to_sql. case_bool_decide as Hpol; cbn [negb].
  2:{ intros [= <- <-]. exists []. rewrite app_nil_r. split; [done|]. by left. }
  unfold bind, emit, modify, get, insert_rows, schema_events. cbn.
  rewrite Hp.
  destruct (working st !! ref) as [t|] eqn:Hw; cbn.
  - case_bool_decide; cbn.
    { intros [= <- <-]. cbn. eexists. split; [done|]. right.
      exists (length (rows p)), []. rewrite bool_decide_eq_false_2 by (by subst).
      split_and!; [done| |right; done]. by rewrite Hw. }
    case_bool_decide; cbn.
    + destruct (insert_fails E _); intros [= <- <-]; cbn;
        (eexists; split; [by rewrite <- ?app_assoc|]); right;
        eexists _, _; (split; [cbn; reflexivity|]).
      * split; [by rewrite lookup_insert_eq|]. by right.
      * split; [by rewrite lookup_alter_eq, lookup_insert_eq|]. left. eauto.
    + destruct (insert_fails E _); intros [= <- <-]; cbn;
        (eexists; split; [by rewrite <- ?app_assoc|]); right;
        eexists _, _; (split; [cbn; reflexivity|]).
      * split; [by rewrite Hw|]. by right.
      * split; [by rewrite lookup_alter_eq, Hw|]. left. eauto.
  - destruct (insert_fails E _); intros [= <- <-]; cbn;
      (eexists; split; [by rewrite <- ?app_assoc|]); right;
      eexists _, _; (split; [cbn; reflexivity|]).
    + split; [by rewrite lookup_insert_eq|]. by right.
    + split; [by rewrite lookup_alter_eq, lookup_insert_eq|]. left. eauto.
Qed.

Lemma later_loop_events E self df ref pol C m : ∀ a st r st',
  1 ≤ a → is_Some (working st !! ref) →
  for_each (Z.of_nat <$> seq a m) (chunk_body E self df ref pol C) st = (r, st') →
  ∃ evs, events st' = events st ++ evs ∧ Forall append_event evs.
Proof.
  induction m as [|m IH]; intros a st r st' Ha [t Ht].
  - cbn. intros [= <- <-]. exists []. by rewrite app_nil_r.
  - cbn [seq fmap list_fmap for_each]. unfold bind at 1.
    destruct (chunk_body E self df ref pol C (Z.of_nat a) st)
      as [r1 st1] eqn:Hb.
    unfold chunk_body in Hb. rewrite bool_decide_eq_false_2 in Hb by lia.
    apply load_chunk_events in Hb as (evs1 & He1 & Hshape).
    rewrite Ht in Hshape. cbn in Hshape.
    destruct Hshape as [[-> Hr]|(n & ins & -> & Hsome & Hins)].
    + destruct r1 as [[]|e]; [done|]. intros [= <- <-].
      exists []. by rewrite He1.
    + destruct Hins as [[-> (rs & ->)]|[Hr ->]].
      * intros Hrest. apply IH in Hrest as (evs & He & Hf); [|lia|done].
        eexists. rewrite He, He1, <- app_assoc. split; [done|].
        apply Forall_app. split; [|done]. by repeat constructor.
      * destruct r1 as [[]|e]; [done|]. intros [= <- <-].
        eexists. split; [done|]. by repeat constructor.
Qed.

Lemma load_chunks_events E self df ref pol C st r st' :
  chunk_size self = Some C → C ≠ 0%Z →
  load_chunks E self df ref pol st = (r, st') →
  ∃ first later, events st' = events st ++ first ++ later ∧
    Forall append_event later ∧
    ((first = [] ∧ later = [] ∧ (r = Ok tt → (C < 0)%Z)) ∨
     (∃ n ins, first = ToSql ref pol n
                         :: schema_events ref self pol (working st !! ref) ++ ins ∧
        ((ins = [] ∧ later = [] ∧ r ≠ Ok tt) ∨ (∃ rs, ins = [Insert ref rs])))).
Proof.
  intros Hcs HC. unfold load_chunks. rewrite Hcs.
  rewrite bool_decide_eq_false_2 by done. unfold range, len.
  destruct (Z.to_nat _) as [|m] eqn:Htotal.
  - cbn. intros [= <- <-]. exists [], []. rewrite app_nil_r.
    split_and!; [done..|]. left. split_and!; [done..|]. intros _.
    destruct (Z.lt_trichotomy C 0) as [?|[?|?]]; [done..|].
    pose proof (Z.div_pos (Z.of_nat (length (rows df))) C). lia.
  - cbn [seq fmap list_fmap for_each]. unfold bind at 1.
    destruct (chunk_body E self df ref pol C (Z.of_nat 0) st)
      as [r1 st1] eqn:Hb.
    unfold chunk_body in Hb. cbn [Z.of_nat] in Hb.
    rewrite bool_decide_eq_true_2 in Hb by done.
    apply load_chunk_events in Hb as (evs1 & He1 & Hshape).
    destruct Hshape as [[-> Hr]|(n & ins & -> & Hsome & Hins)].
    + destruct r1 as [[]|e]; [done|]. intros [= <- <-].
      exists [], []. rewrite He1. split_and!; [done..|]. left. done.
    + destruct Hins as [[-> (rs & ->)]|[Hr ->]].
      * intros Hrest. apply later_loop_events in Hrest as (evs & He & Hf);
          [|lia|done].
        eexists _, evs. rewrite He, He1, <- app_assoc.
        split_and!; [done..|]. right. eexists _, _. split; [done|]. eauto.
      * destruct r1 as [[]|e]; [done|]. intros [= <- <-].
        eexists _, []. rewrite app_nil_r. split_and!; [done..|].
        right. eexists _, _. split; [done|]. left. done.
Qed.

Lemma to_sql_policies_app evs1 evs2 :
  to_sql_policies (evs1 ++ evs2) = to_sql_policies evs1 ++ to_sql_policies evs2.
Proof. apply omap_app. Qed.

Lemma other_summary evs :
  Forall other_event evs →
  to_sql_policies evs = [] ∧ inserted_batches evs = [] ∧
  count_event is_drop evs = 0 ∧ count_event is_create evs = 0.
Proof.
  unfold to_sql_policies, inserted_batches, count_event.
  induction 1 as [|e evs He _ (IH1 & IH2 & IH3 & IH4)]; [done|].
  destruct e; try done; by rewrite !filter_cons_False.
Qed.

Lemma append_summary evs :
  Forall append_event evs →
  Forall (λ p, p = "append") (to_sql_policies evs) ∧
  count_event is_drop evs = 0 ∧ count_event is_create evs = 0.
Proof.
  unfold to_sql_policies, count_event.
  induction 1 as [|e evs He _ (IH1 & IH2 & IH3)]; [done|].
  destruct e; try done; cbn; rewrite ?filter_cons_False by done; auto.
Qed.

Lemma index_step_other E ref (idx : bool) st :
  ∃ evs, events ((if idx then _create_spatial_index E ref else ret tt) st).2
         = events st ++ evs ∧ Forall other_event evs.
Proof.
  destruct idx; cbn.
  - unfold _create_spatial_index, try_except, bind, execute_create_index, emit, modify.
    destruct (index_fault E) as [[]|]; cbn.
    + eexists. split; [done|]. by repeat constructor.
    + eexists. split; [done|]. by repeat constructor.
    + destruct (working st !! ref); cbn.
      * eexists. rewrite <- app_assoc. split; [done|]. by repeat constructor.
      * eexists. split; [done|]. by repeat constructor.
  - exists []. by rewrite app_nil_r.
Qed.

Lemma log_is_other evs : Forall is_log evs → Forall other_event evs.
Proof. intros H. eapply Forall_impl; [exact H|]. by intros []. Qed.

Lemma chunked_load_shape E self C table_name schema if_exists idx st r st' :
  chunk_size self = Some C → C ≠ 0%Z →
  load_to_postgis E self table_name schema if_exists idx st = (r, st') →
  ∃ pre first later post,
    events st' = events st ++ pre ++ first ++ later ++ post ∧
    Forall other_event pre ∧ Forall other_event post ∧
    Forall append_event later ∧
    first_batch_shape (schema, table_name) self if_exists
      (committed st !! (schema, table_name)) C r first later.
Proof.
  intros Hcs HC. unfold load_to_postgis, bind at 1.
  destruct (ensure_loaded_spec E st) as (Hc0 & Hw0 & evs0 & He0 & Hf0).
  destruct (ensure_loaded E st) as [[df|e0] sta]; cbn in Hc0, Hw0, He0.
  2:{ intros [= <- <-]. exists evs0, [], [], []. rewrite !app_nil_r.
      split_and!; [done|by apply log_is_other|done..|]. left. done. }
  apply log_is_other in Hf0.
  unfold try_except, bind at 1, engine_begin.
  destruct (connect_fails E).
  { cbn. intros [= <- <-]. eexists (evs0 ++ [_]), [], [], []. cbn.
    rewrite !app_nil_r, He0, <- app_assoc. split_and!; [done| |done..|by left].
    apply Forall_app. split; [done|]. by repeat constructor. }
  set (st0 := add_event Begin _). set (ref := (schema, table_name)).
  unfold bind at 1.
  destruct (load_chunks E self df ref if_exists st0) as [r1 st1] eqn:Hl.
  apply (load_chunks_events _ _ _ _ _ C) in Hl
    as (first & later & He1 & Hfl & Hshape); [|done..].
  cbn in Hshape, He1. rewrite Hc0 in Hshape.
  destruct r1 as [[]|e1].
  - destruct (index_step_other E ref idx st1) as (evs2 & He2 & Hf2).
    destruct (index_step_spec E ref idx st1) as (st2 & Hr2 & _).
    rewrite Hr2 in He2 |- *. cbn in He2.
    cbn. intros [= <- <-].
    exists (evs0 ++ [Begin]), first, later,
      (evs2 ++ [Commit; Log INFO "Successfully loaded"]).
    split.
    { unfold commit. destruct (aborted st2); cbn; rewrite He2, He1, He0;
        by rewrite <- !app_assoc. }
    split_and!; [| |done|done].
    + apply Forall_app. split; [done|]. by repeat constructor.
    + apply Forall_app. split; [done|]. by repeat constructor.
  - cbn. intros [= <- <-].
    exists (evs0 ++ [Begin]), first, later, [Rollback; Log ERROR
        (if is_SQLAlchemyError e1 then "Database operation failed"
         else "Unexpected error")].
    split; [cbn; rewrite He1, He0; by rewrite <- !app_assoc|].
    split_and!; [|by repeat constructor|done|done].
    apply Forall_app. split; [done|]. by repeat constructor.
Qed.

Lemma count_event_cons P e evs :
  count_event P (e :: evs) = (if P e then 1 else 0) + count_event P evs.
Proof.
  unfold count_event. destruct (P e) eqn:He.
  - by rewrite filter_cons_True.
  - rewrite filter_cons_False; [done|]. by rewrite He.
Qed.

(** C4: in every chunked load, whatever its outcome, the [to_sql] call of
    the first batch is made with the configured existence policy and every
    later one with "append"; the table is dropped at most once, and only
    under "replace"; no table is dropped or created once the first rows
    have been inserted; and a successful load with "replace" creates the
    table exactly once and drops it exactly once when it existed. *)
Theorem existence_policy_first_batch_only
    E self C table_name schema if_exists idx st r st' :
  chunk_size self = Some C → C ≠ 0%Z →
  load_to_postgis E self table_name schema if_exists idx st = (r, st') →
  ∃ evs, events st' = events st ++ evs ∧
    (∀ i p, to_sql_policies evs !! i = Some p →
            p = match i with 0 => if_exists | S _ => "append" end) ∧
    (∃ head tail, evs = head ++ tail ∧ inserted_batches head = [] ∧
        count_event is_drop tail = 0 ∧ count_event is_create tail = 0) ∧
    count_event is_drop evs ≤ 1 ∧
    (if_exists ≠ "replace" → count_event is_drop evs = 0) ∧
    (r = Ok tt → (0 < C)%Z → if_exists = "replace" →
       count_event is_create evs = 1 ∧
       count_event is_drop evs
       = match committed st !! (schema, table_name) with
         | Some _ => 1
         | None => 0
         end).
Proof.
  intros Hcs HC Hrun.
  apply (chunked_load_shape _ _ C) in Hrun
    as (pre & first & later & post & He & Hpre & Hpost & Hlater & Hshape);
    [|done..].
  set (ref := (schema, table_name)) in *.
  apply other_summary in Hpre as (Hp1 & Hp2 & Hp3 & Hp4).
  apply other_summary in Hpost as (Hq1 & Hq2 & Hq3 & Hq4).
  apply append_summary in Hlater as (Hl1 & Hl2 & Hl3).
  exists (pre ++ first ++ later ++ post). split; [done|].
  rewrite !to_sql_policies_app, !count_event_app, Hp1, Hq1, Hp3, Hq3, Hp4, Hq4,
    Hl2, Hl3, app_nil_r. cbn [app].
  destruct Hshape as [(-> & -> & Hneg)|(n & ins & -> & Hins)].
  - cbn. split_and!; [by intros []| |lia|done|intros Hr ? _; specialize (Hneg Hr); lia].
    exists pre, post. rewrite Hp2, Hq3, Hq4. done.
  - assert (to_sql_policies ins = [] ∧ count_event is_drop ins = 0 ∧
            count_event is_create ins = 0) as (Hi1 & Hi2 & Hi3).
    { destruct Hins as [(-> & _)|(rs & ->)]; done. }
    assert (to_sql_policies (schema_events ref self if_exists (committed st !! ref)) = []
            ∧ inserted_batches (schema_events ref self if_exists (committed st !! ref)) = [])
      as [Hs1 Hs2].
    { unfold schema_events. destruct (committed st !! ref); [case_bool_decide|]; done. }
    change (ToSql ref if_exists n :: ?l) with ([ToSql ref if_exists n] ++ l).
    rewrite !to_sql_policies_app, !count_event_app, Hs1, Hi1, Hi2, Hi3.
    cbn [to_sql_policies omap list_omap app].
    rewrite !Nat.add_0_r.
    split_and!.
    + intros [|i] p; cbn; [congruence|]. intros Hp.
      rewrite Forall_forall in Hl1. apply Hl1. by eapply list_elem_of_lookup_2.
    + exists (pre ++ [ToSql ref if_exists n]
                ++ schema_events ref self if_exists (committed st !! ref)),
             (ins ++ later ++ post).
      rewrite !inserted_batches_app, !count_event_app,
        Hp2, Hs2, Hi2, Hi3, Hl2, Hl3, Hq3, Hq4.
      split; [by rewrite <- !app_assoc|]. done.
    + unfold schema_events. destruct (committed st !! ref); [case_bool_decide|];
        vm_compute; lia.
    + intros Hne. unfold schema_events.
      destruct (committed st !! ref); [case_bool_decide|]; done.
    + intros _ _ ->. unfold schema_events.
      destruct (committed st !! ref); [rewrite bool_decide_eq_true_2 by done|];
        done.
Qed.

Lemma existence_policy_first_batch_only_witness :
  ∃ evs, events replacing_load.2 = events with_roads ++ evs ∧
    (∀ i p, to_sql_policies evs !! i = Some p →
            p = match i with 0 => "replace" | S _ => "append" end) ∧
    (∃ head tail, evs = head ++ tail ∧ inserted_batches head = [] ∧
        count_event is_drop tail = 0 ∧ count_event is_create tail = 0) ∧
    count_event is_drop evs ≤ 1 ∧
    ("replace" ≠ "replace" → count_event is_drop evs = 0) ∧
    (replacing_load.1 = Ok tt → (0 < 2)%Z → "replace" = "replace" →
       count_event is_create evs = 1 ∧
       count_event is_drop evs
       = match committed with_roads !! ("public", "roads") with
         | Some _ => 1
         | None => 0
         end).
Proof.
  apply (existence_policy_first_batch_only
           (failing_at None four_points) (loader (Some 2%Z) "GEOMETRY") 2%Z
           "roads" "public" "replace" true with_roads).
  - reflexivity.
  - lia.
  - apply surjective_pairing.
Defined.

Example replacing_load_log :
  replacing_load.1 = Ok tt ∧
  to_sql_policies (events replacing_load.2) = ["replace"; "append"; "append"] ∧
  count_event is_drop (events replacing_load.2) = 1 ∧
  count_event is_create (events replacing_load.2) = 1 ∧
  rows_of (committed replacing_load.2) ("public", "roads")
  = Some (written_row <$> rows four_points).
Proof. vm_compute. done. Qed.

(** *** One load, one transaction *)

(** C1 (amended): every load, chunked or not, writes all its batches inside
    the one transaction it opens; when the load fails (for instance while
    writing batch k) that transaction is never committed, and the committed
    database, hence the target table, is exactly what it was before the
    load: none of the batches written before the failure remains. *)
Theorem load_failure_restores_table E self table_name schema if_exists idx st e st' :
  load_to_postgis E self table_name schema if_exists idx st = (Raise e, st') →
  committed st' = committed st ∧
  ∃ evs, events st' = events st ++ evs ∧ (Commit ∉ evs) ∧
         (Begin ∈ evs → Rollback ∈ evs).
Proof.
  unfold load_to_postgis. intros H. unfold bind at 1 in H.
  destruct (ensure_loaded_spec E st) as (Hc0 & _ & evs0 & He0 & Hf0).
  destruct (ensure_loaded E st) as [r0 st0]. cbn in Hc0, He0.
  apply log_is_statement, statement_not_boundary in Hf0 as (Hb0 & Hcm0 & _).
  destruct r0 as [df|e0].
  - unfold try_except, bind in H.
    destruct (engine_begin _ _ st0) as [[[]|e1] st1] eqn:Hbeg; [done|].
    cbn in H. injection H as <- <-.
    apply engine_begin_raise in Hbeg as (Hc1 & evs1 & He1 & Hcm1 & Hr1);
      [|apply in_txn_body].
    cbn. split; [congruence|].
    eexists (evs0 ++ evs1 ++ [_]).
    rewrite He1, He0, <- !app_assoc. split; [done|].
    rewrite !elem_of_app, !list_elem_of_singleton. split.
    + intros [?|[?|?]]; done.
    + intros [?|[?|?]]; [done|auto|done].
  - injection H as <- <-. split; [done|]. exists evs0. by split_and!.
Qed.

Lemma load_failure_restores_table_witness :
  committed failed_load.2 = committed (fresh None) ∧
  ∃ evs, events failed_load.2 = events (fresh None) ++ evs ∧ (Commit ∉ evs) ∧
         (Begin ∈ evs → Rollback ∈ evs).
Proof.
  apply (load_failure_restores_table
           (failing_at (Some 1) three_points) (loader (Some 1%Z) "GEOMETRY")
           "roads" "public" "replace" true (fresh None) SQLAlchemyError).
  vm_compute. reflexivity.
Defined.

(** C1 as stated does not hold: the load of three records in chunks of one
    fails while writing batch 2 (of 4); batch 1 had been written and is not
    empty, yet afterwards the table does not hold its row: the table does
    not even exist. *)
Lemma prefix_durability_counterexample :
  failed_load.1 = Raise SQLAlchemyError ∧
  inserted_batches (events failed_load.2) = [[written_row (point "1")]] ∧
  rows_of (committed failed_load.2) ("public", "roads") = None ∧
  rows_of (committed failed_load.2) ("public", "roads")
    ≠ Some [written_row (point "1")].
Proof. vm_compute. split_and!; done. Qed.

(** *** Validation *)

Lemma validate_schema_ok df :
  _validate_schema df = Ok tt ↔
  is_GeoDataFrame df = true ∧ "geometry" ∈ columns df.
Proof.
  unfold _validate_schema. destruct (is_GeoDataFrame df); cbn.
  - case_bool_decide; cbn; intuition congruence.
  - intuition congruence.
Qed.

Lemma validate_schema_raises df e :
  _validate_schema df = Raise e → e = ValueError.
Proof.
  unfold _validate_schema. destruct (negb _); [congruence|].
  destruct (negb _); congruence.
Qed.

(** C3 (amended): validation checks only that the input is a GeoDataFrame
    and that it has a geometry column; it does not depend on the records,
    so not on their geometry types either; when the dataset read from the
    file fails it, [ValueError] is raised before any database operation:
    the committed and the working database are untouched and the log
    holds no statement. *)
Theorem validation_checks_column_only E self table_name schema if_exists idx st df :
  (_validate_schema df = Ok tt ↔
     is_GeoDataFrame df = true ∧ "geometry" ∈ columns df) ∧
  (∀ rs, _validate_schema {| is_GeoDataFrame := is_GeoDataFrame df;
                             columns := columns df; rows := rs |}
         = _validate_schema df) ∧
  (gdf st = None → read_file E = Ok df → _validate_schema df ≠ Ok tt →
   ∃ st', load_to_postgis E self table_name schema if_exists idx st
          = (Raise ValueError, st') ∧
          committed st' = committed st ∧ working st' = working st ∧
          events st' = events st ++ [Log INFO "Loading data from file";
                                     Log ERROR "Failed to load file"]).
Proof.
  split_and!.
  - apply validate_schema_ok.
  - done.
  - intros Hgdf Hfile Hbad.
    unfold load_to_postgis, bind at 1, ensure_loaded, bind at 1, get.
    rewrite Hgdf. unfold bind at 1, load, try_except, bind, emit, modify, lift.
    cbn. rewrite Hfile. cbn.
    destruct (_validate_schema df) as [[]|e] eqn:Hv; [done|].
    apply validate_schema_raises in Hv as ->. cbn.
    eexists. split; [done|]. cbn. by rewrite <- app_assoc.
Qed.

(** C3 as stated does not hold: under the declared type "POLYGON" a frame
    with a point passes validation; the load then writes its first batch
    and fails in the second, with an [AttributeError]. *)
Lemma validation_counterexample :
  geometry_type (loader (Some 1%Z) "POLYGON") ≠ "GEOMETRY" ∧
  compatible "POLYGON" (geometry (point "2")) = false ∧
  _validate_schema mixed = Ok tt ∧
  mixed_load.1 = Raise AttributeError ∧
  inserted_batches (events mixed_load.2) = [[written_row (empty_polygon "1")]].
Proof. vm_compute. split_and!; done. Qed.

Example validation_failure_example :
  let out := load_to_postgis (failing_at None no_geometry) (loader None "GEOMETRY")
               "roads" "public" "replace" true with_roads in
  out.1 = Raise ValueError ∧ committed out.2 = committed with_roads ∧
  events out.2 = [Log INFO "Loading data from file"; Log ERROR "Failed to load file"].
Proof. vm_compute. done. Qed.

(** *** Preparing the geometry column *)

Lemma map_result_Forall2 {A B} (f : A → result B) xs ys :
  map_result f xs = Ok ys → Forall2 (λ x y, f x = Ok y) xs ys.
Proof.
  revert ys. induction xs as [|x xs IH]; intros ys H.
  - cbn in H. injection H as <-. constructor.
  - apply map_result_cons_ok in H as (y & ys' & -> & Hy & Hrest).
    constructor; auto.
Qed.

Lemma map_result_raise {A B} (f : A → result B) xs e :
  map_result f xs = Raise e → ∃ x, x ∈ xs ∧ f x = Raise e.
Proof.
  induction xs as [|x xs IH]; [done|]. cbn.
  destruct (f x) as [y|e'] eqn:Hx.
  - destruct (map_result f xs) as [ys|e'']; [done|].
    intros [= ->]. destruct IH as (x' & Hin & Hx'); [done|].
    exists x'. split; [by right|done].
  - intros [= ->]. exists x. split; [by left|done].
Qed.

Lemma to_wkb_cell_raises v e : to_wkb_cell v = Raise e → e = AttributeError.
Proof.
  destruct v as [|g| |]; cbn; try congruence.
  destruct (is_empty g); cbn; congruence.
Qed.

Lemma ensure_type_cell_raises v e : ensure_type_cell v = Raise e → e = AttributeError.
Proof. destruct v; cbn; congruence. Qed.

Lemma geometry_setitem rs cells :
  length rs = length cells →
  geometry <$> zip_with (λ r c, Row c (attrs r)) rs cells = cells.
Proof.
  revert cells. induction rs as [|r rs IH]; intros [|c cells]; try done.
  cbn. intros [= Hl]. by rewrite IH.
Qed.

(** C7, where the code departs from it: under a declared type other than
    "GEOMETRY", preparing a frame that holds any non-empty geometry raises
    [AttributeError]: the first pass has replaced the geometry by a string,
    and the second pass reads [is_empty] of that string.  Nothing is
    serialized. *)
Theorem typed_prepare_data_raises self df g :
  geometry_type self ≠ "GEOMETRY" →
  "geometry" ∈ columns df →
  PyGeom g ∈ geometry <$> rows df →
  is_empty g = false →
  _prepare_data self df = Raise AttributeError.
Proof.
  intros Ht Hcol Hin Hne. unfold _prepare_data, getitem_geometry.
  rewrite bool_decide_eq_true_2 by done.
  rewrite bool_decide_eq_true_2 by done.
  destruct (map_result ensure_type_cell _) as [cells1|e1] eqn:H1.
  2:{ apply map_result_raise in H1 as (v & _ & Hv).
      by apply ensure_type_cell_raises in Hv as ->. }
  cbn [columns setitem_geometry rows]. rewrite bool_decide_eq_true_2 by done.
  apply map_result_Forall2 in H1.
  rewrite geometry_setitem by (by apply Forall2_length in H1; rewrite length_fmap in H1).
  destruct (map_result to_wkb_cell cells1) as [cells2|e2] eqn:H2.
  2:{ apply map_result_raise in H2 as (v & _ & Hv).
      by apply to_wkb_cell_raises in Hv as ->. }
  exfalso. apply map_result_Forall2 in H2.
  apply list_elem_of_lookup in Hin as (i & Hi).
  destruct (Forall2_lookup_l _ _ _ _ _ H1 Hi) as (c1 & Hc1 & Hens).
  destruct (Forall2_lookup_l _ _ _ _ _ H2 Hc1) as (c2 & _ & Hwkb).
  cbn in Hens. rewrite Hne in Hens. injection Hens as <-. done.
Qed.

Lemma typed_prepare_data_raises_witness :
  _prepare_data (loader None "POLYGON") one_polygon = Raise AttributeError.
Proof.
  apply (typed_prepare_data_raises (loader None "POLYGON") one_polygon
           (Shapely "Polygon" false [x01; x03; x00; x00; x00; x01])).
  - done.
  - vm_compute. apply list_elem_of_here.
  - vm_compute. apply list_elem_of_here.
  - reflexivity.
Defined.

(** Under the generic type a frame of geometries is prepared as C7 says:
    the well-known binary of a non-empty geometry, [None] for an empty one. *)
Lemma generic_prepare_data self df gs :
  geometry_type self = "GEOMETRY" →
  "geometry" ∈ columns df →
  geometry <$> rows df = PyGeom <$> gs →
  ∃ df', _prepare_data self df = Ok df' ∧
    geometry <$> rows df'
    = (λ g, if is_empty g then PyNone else PyBytes (wkb g)) <$> gs.
Proof.
  intros Ht Hcol Hgs. unfold _prepare_data, getitem_geometry.
  rewrite bool_decide_eq_false_2 by (by intros []).
  rewrite bool_decide_eq_true_2 by done. rewrite Hgs.
  assert (map_result to_wkb_cell (PyGeom <$> gs)
          = Ok ((λ g, if is_empty g then PyNone else PyBytes (wkb g)) <$> gs)) as ->.
  { clear. induction gs as [|g gs IH]; [done|]. cbn. rewrite IH.
    by destruct (is_empty g). }
  eexists. split; [done|]. cbn. apply geometry_setitem.
  rewrite length_fmap. apply (f_equal length) in Hgs. by rewrite !length_fmap in Hgs.
Qed.

(** A null geometry is not written as NULL: preparing it raises. *)
Example null_geometry_raises :
  _prepare_data (loader None "GEOMETRY") (frame_of [Row PyNone [("osm_id", "8")]])
  = Raise AttributeError.
Proof. reflexivity. Qed.

(** *** The index statement inside the load's transaction *)

Lemma rejected_index_step E ref st :
  index_fault E = Some ServerSide →
  _create_spatial_index E ref st
  = (Ok tt, add_event (Log WARNING "Failed to create spatial index")
              (set_aborted true st)).
Proof.
  intros H.
  unfold _create_spatial_index, try_except, bind, execute_create_index, emit, modify.
  by rewrite H.
Qed.

(** C8, where the code departs from it: the index statement runs inside
    the load's one transaction, before the commit.  When the server rejects
    it, the loader logs the warning, returns normally and logs success, but
    the commit it then issues is executed by the server as a rollback: the
    committed database is what it was before the load, without any of the
    rows the load wrote. *)
Theorem rejected_index_discards_load E self table_name schema if_exists st st' :
  index_fault E = Some ServerSide →
  load_to_postgis E self table_name schema if_exists true st = (Ok tt, st') →
  committed st' = committed st ∧
  Log WARNING "Failed to create spatial index" ∈ events st' ∧
  Commit ∈ events st' ∧
  Log INFO "Successfully loaded" ∈ events st'.
Proof.
  intros Hfault. unfold load_to_postgis, bind at 1.
  destruct (ensure_loaded_spec E st) as (Hc0 & _ & _).
  destruct (ensure_loaded E st) as [[df|e0] sta]; [|done]. cbn in Hc0.
  unfold try_except, bind at 1, engine_begin.
  destruct (connect_fails E); [done|].
  set (st0 := add_event Begin _). set (ref := (schema, table_name)).
  unfold bind at 1.
  destruct (in_txn_load_chunks E self df ref if_exists st0) as (Hc1 & _).
  destruct (load_chunks E self df ref if_exists st0) as [[[]|e] st1]; [|done].
  rewrite (rejected_index_step _ _ _ Hfault). cbn in Hc1 |- *.
  intros [= <-]. cbn. split; [congruence|].
  rewrite !elem_of_app, !list_elem_of_singleton. auto.
Qed.

Lemma rejected_index_discards_load_witness :
  committed unindexed_load.2 = committed (fresh None) ∧
  Log WARNING "Failed to create spatial index" ∈ events unindexed_load.2 ∧
  Commit ∈ events unindexed_load.2 ∧
  Log INFO "Successfully loaded" ∈ events unindexed_load.2.
Proof.
  apply (rejected_index_discards_load (rejecting_index four_points)
           (loader None "GEOMETRY") "roads" "public" "replace" (fresh None)).
  - reflexivity.
  - vm_compute. reflexivity.
Defined.

Example unindexed_load_log :
  unindexed_load.1 = Ok tt ∧
  length <$> inserted_batches (events unindexed_load.2) = [4] ∧
  rows_of (committed unindexed_load.2) ("public", "roads") = None.
Proof. vm_compute. done. Qed.

(** The same failure before the statement reaches the server leaves the
    transaction intact, and the rows are committed. *)
Example unsent_index_keeps_rows :
  let E := {| read_file := Ok four_points; connect_fails := false;
              insert_fails := λ _, false; index_fault := Some ClientSide |} in
  let out := load_to_postgis E (loader None "GEOMETRY")
               "roads" "public" "replace" true (fresh None) in
  out.1 = Ok tt ∧
  Log WARNING "Failed to create spatial index" ∈ events out.2 ∧
  rows_of (committed out.2) ("public", "roads")
  = Some (written_row <$> rows four_points).
Proof.
  cbv zeta. split_and!; [by vm_compute| |by vm_compute].
  match goal with
  | |- ?x ∈ ?l => let l' := eval vm_compute in l in change (x ∈ l')
  end.
  rewrite !elem_of_cons. auto 10.
Qed.

(** *** One attempt per load *)

(** [load_to_postgis] opens its transaction at most once: nothing in it
    repeats a failed load. *)
Lemma load_begins_once E self table_name schema if_exists idx st :
  ∃ evs, events (load_to_postgis E self table_name schema if_exists idx st).2
         = events st ++ evs ∧
         count_event is_begin evs ≤ 1.
Proof.
  unfold load_to_postgis, bind at 1.
  destruct (ensure_loaded_spec E st) as (_ & _ & evs0 & He0 & Hf0).
  apply log_is_statement, count_statements in Hf0 as [Hb0 _].
  destruct (ensure_loaded E st) as [[df|e0] sta]; cbn in He0.
  2:{ exists evs0. cbn. split; [done|lia]. }
  unfold try_except, bind at 1, engine_begin.
  destruct (connect_fails E).
  { cbn. eexists (evs0 ++ [_]). rewrite He0, <- app_assoc. split; [done|].
    rewrite count_event_app, Hb0, !count_event_cons. cbn. lia. }
  set (st0 := add_event Begin _).
  destruct (in_txn_body E self df (schema, table_name) if_exists idx st0)
    as (_ & _ & evs1 & He1 & Hf1).
  apply count_statements in Hf1 as [Hb1 _].
  destruct ((_ >> _) st0) as [[[]|e1] st1]; cbn in He1 |- *.
  - exists (evs0 ++ [Begin] ++ evs1 ++ [Commit; Log INFO "Successfully loaded"]).
    split.
    + unfold commit. destruct (aborted st1); cbn; rewrite He1; cbn;
        by rewrite He0, <- !app_assoc.
    + rewrite !count_event_app, Hb0, Hb1, !count_event_cons. cbn. lia.
  - eexists (evs0 ++ [Begin] ++ evs1 ++ [Rollback; Log ERROR _]).
    split.
    + rewrite He1. cbn. by rewrite He0, <- !app_assoc.
    + rewrite !count_event_app, Hb0, Hb1, !count_event_cons. cbn. lia.
Qed.

(** ** Further properties of src/postgis_loader.py *)

(** *** What _prepare_data accepts *)

Lemma to_wkb_cell_spec v :
  to_wkb_cell v = match v with
                  | PyGeom g => Ok (prepared_cell v)
                  | _ => Raise AttributeError
                  end.
Proof. destruct v as [|g| |]; try done. cbn. by destruct (is_empty g). Qed.

Lemma map_result_ok_iff {A B} (f : A → result B) xs ys :
  map_result f xs = Ok ys ↔ Forall2 (λ x y, f x = Ok y) xs ys.
Proof.
  split; [apply map_result_Forall2|].
  induction 1 as [|x y xs ys Hxy _ IH]; [done|]. cbn. by rewrite Hxy, IH.
Qed.

Lemma map_result_raises {A B} (f : A → result B) xs e0 :
  (∀ x e, f x = Raise e → e = e0) →
  ¬ Forall (λ x, is_ok (f x) = true) xs →
  map_result f xs = Raise e0.
Proof.
  intros Hf. induction xs as [|x xs IH]; intros Hnot.
  { by destruct Hnot. }
  cbn. destruct (f x) as [y|e] eqn:Hx; [|by rewrite (Hf _ _ Hx)].
  rewrite IH; [done|]. intros Hall. apply Hnot. constructor; [by rewrite Hx|done].
Qed.

Lemma map_result_total {A B} (f : A → result B) (g : A → B) xs :
  Forall (λ x, f x = Ok (g x)) xs → map_result f xs = Ok (g <$> xs).
Proof.
  induction 1 as [|x xs Hx _ IH]; [done|]. cbn. by rewrite Hx, IH.
Qed.

Lemma setitem_prepared rs (h : pyval → pyval) :
  zip_with (λ r c, Row c (attrs r)) rs (h <$> (geometry <$> rs))
  = (λ r, Row (h (geometry r)) (attrs r)) <$> rs.
Proof. induction rs as [|r rs IH]; [done|]. cbn. by rewrite IH. Qed.

Lemma ensure_type_cell_spec v :
  ensure_type_cell v
  = match v with
    | PyGeom g => Ok (if is_empty g then v else PyStr (upper (class_name g)))
    | _ => Raise AttributeError
    end.
Proof. by destruct v. Qed.

Lemma typed_rows rs :
  Forall (λ r, ∃ g, geometry r = PyGeom g ∧ is_empty g = true) rs →
  zip_with (λ r c, Row c (attrs r))
    (zip_with (λ r c, Row c (attrs r)) rs (typed_cell <$> (geometry <$> rs)))
    (prepared_cell
       <$> (geometry ∘ (λ r, Row (typed_cell (geometry r)) (attrs r)) <$> rs))
  = prepared_row <$> rs.
Proof.
  induction 1 as [|r rs (g & Hg & He) _ IH]; [done|]. cbn. rewrite IH.
  f_equal. unfold prepared_row. rewrite Hg. cbn. rewrite He. cbn. by rewrite He.
Qed.

(** What [_prepare_data] does with every frame.  Without a geometry column
    it raises [KeyError].  Otherwise it returns exactly when every geometry
    cell holds a geometry and, under a declared type other than "GEOMETRY",
    an empty one; the frame returned has the same columns and the same
    records in the same order, each geometry replaced by its well-known
    binary, or by [None] when it is empty.  In every other case, a null
    geometry included, it raises [AttributeError]. *)
Theorem prepare_data_spec self df :
  match _prepare_data self df with
  | Ok df' =>
      "geometry" ∈ columns df ∧
      Forall (loadable self) (geometry <$> rows df) ∧
      df' = {| is_GeoDataFrame := is_GeoDataFrame df; columns := columns df;
               rows := prepared_row <$> rows df |}
  | Raise e =>
      (e = KeyError ∧ "geometry" ∉ columns df) ∨
      (e = AttributeError ∧ "geometry" ∈ columns df ∧
       ¬ Forall (loadable self) (geometry <$> rows df))
  end.
Proof.
  unfold _prepare_data, getitem_geometry.
  destruct (decide ("geometry" ∈ columns df)) as [Hcol|Hcol].
  2:{ rewrite !(bool_decide_eq_false_2 _ Hcol).
      case_bool_decide; cbn; rewrite ?(bool_decide_eq_false_2 _ Hcol); by left. }
  rewrite (bool_decide_eq_true_2 _ Hcol).
  case_bool_decide as Htyped; cbn.
  - (* a declared type: the first pass runs *)
    destruct (decide (Forall (λ v, is_ok (ensure_type_cell v) = true)
                        (geometry <$> rows df))) as [Hgeoms|Hgeoms].
    2:{ rewrite (map_result_raises ensure_type_cell _ AttributeError); [|apply ensure_type_cell_raises|done].
        right. split_and!; [done..|]. intros Hall. apply Hgeoms.
        eapply Forall_impl; [exact Hall|]. by intros v (g & -> & _). }
    rewrite (map_result_total ensure_type_cell typed_cell).
    2:{ eapply Forall_impl; [exact Hgeoms|]. by intros [|g| |]. }
    cbn [setitem_geometry columns rows]. rewrite (bool_decide_eq_true_2 _ Hcol).
    rewrite (setitem_prepared (rows df) typed_cell).
    rewrite <- list_fmap_compose.
    destruct (decide (Forall (loadable self) (geometry <$> rows df)))
      as [Hload|Hload].
    + rewrite (map_result_total to_wkb_cell prepared_cell).
      2:{ rewrite Forall_fmap. rewrite Forall_fmap in Hload.
          eapply Forall_impl; [exact Hload|]. intros r (g & Hg & Hempty). cbn.
          rewrite Hg. cbn. rewrite (Hempty Htyped). cbn. by rewrite (Hempty Htyped). }
      cbn. split_and!; [done..|]. unfold setitem_geometry. cbn. f_equal.
      apply typed_rows. rewrite Forall_fmap in Hload.
      eapply Forall_impl; [exact Hload|]. intros r (g & Hg & Hempty).
      exists g. split; [done|]. by apply Hempty.
    + rewrite (map_result_raises to_wkb_cell _ AttributeError);
        [|apply to_wkb_cell_raises|].
      * right. by split_and!.
      * intros Hall. apply Hload. rewrite Forall_fmap in Hall, Hgeoms |- *.
        rewrite Forall_forall in Hall, Hgeoms |- *. intros r Hr.
        specialize (Hall r Hr). specialize (Hgeoms r Hr). cbn in Hall, Hgeoms |- *.
        destruct (geometry r) as [|g| |]; try done.
        exists g. split; [done|]. intros _.
        cbn in Hall. destruct (is_empty g); [done|]. by cbn in Hall.
  - (* the generic type: the second pass only *)
    assert (geometry_type self = "GEOMETRY") as Hgen.
    { by destruct (decide (geometry_type self = "GEOMETRY")). }
    rewrite ?(bool_decide_eq_true_2 _ Hcol). cbn.
    destruct (decide (Forall (loadable self) (geometry <$> rows df)))
      as [Hload|Hload].
    + rewrite (map_result_total to_wkb_cell prepared_cell).
      2:{ eapply Forall_impl; [exact Hload|]. intros v (g & -> & _).
          by rewrite to_wkb_cell_spec. }
      cbn. split_and!; [done..|]. unfold setitem_geometry. f_equal.
      by rewrite (setitem_prepared (rows df) prepared_cell).
    + rewrite (map_result_raises to_wkb_cell _ AttributeError);
        [|apply to_wkb_cell_raises|].
      * right. by split_and!.
      * intros Hall. apply Hload. eapply Forall_impl; [exact Hall|].
        intros [|g| |]; rewrite to_wkb_cell_spec; try done. intros _. by exists g.
Qed.

(** *** The run of a successful load *)

Lemma ensure_loaded_gdf E st df sta :
  ensure_loaded E st = (Ok df, sta) → gdf sta = Some df.
Proof.
  unfold ensure_loaded, bind at 1. cbn. destruct (gdf st) as [g|] eqn:Hg.
  - by intros [= <- <-].
  - unfold bind. destruct (load E st) as [[g|e] st0]; [|done].
    cbn. by intros [= <- <-].
Qed.

Lemma load_ok_run E self table_name schema if_exists idx st st' df :
  (ensure_loaded E st).1 = Ok df →
  load_to_postgis E self table_name schema if_exists idx st = (Ok tt, st') →
  ∃ sta st1 st2 evs0,
    ensure_loaded E st = (Ok df, sta) ∧ committed sta = committed st ∧
    gdf sta = Some df ∧
    events sta = events st ++ evs0 ∧ Forall is_log evs0 ∧
    connect_fails E = false ∧
    load_chunks E self df (schema, table_name) if_exists
      (add_event Begin (set_aborted false (set_working (committed sta) sta)))
    = (Ok tt, st1) ∧
    (if idx then _create_spatial_index E (schema, table_name) else ret tt) st1
    = (Ok tt, st2) ∧
    st' = add_event (Log INFO "Successfully loaded") (commit st2).
Proof.
  intros Hdf. unfold load_to_postgis, bind at 1.
  destruct (ensure_loaded_spec E st) as (Hc0 & Hw0 & evs0 & He0 & Hf0).
  destruct (ensure_loaded E st) as [r0 sta] eqn:Hload.
  cbn in Hdf, Hc0, Hw0, He0. subst r0.
  unfold try_except, bind at 1, engine_begin.
  destruct (connect_fails E); [done|].
  unfold bind at 1.
  destruct (load_chunks E self df _ if_exists _) as [[[]|e] st1] eqn:Hl;
    [|by destruct idx].
  destruct (index_step_spec E (schema, table_name) idx st1) as (st2 & Hidx & _).
  rewrite Hidx. cbn. intros [= <-].
  exists sta, st1, st2, evs0. split_and!; try done.
  by apply (ensure_loaded_gdf E st).
Qed.

Lemma all_chunks df c :
  0 < c →
  concat (written_chunks df c 0 (length (rows df) / c + 1))
  = written_row <$> rows df.
Proof.
  intros Hc. rewrite written_chunks_fmap, concat_chunks, drop_0.
  apply take_ge. rewrite length_fmap.
  pose proof (Nat.div_mod_eq (length (rows df)) c).
  pose proof (Nat.mod_upper_bound (length (rows df)) c). nia.
Qed.

Lemma load_chunks_table E self df ref pol st st1 :
  chunk_size_ok self →
  load_chunks E self df ref pol st = (Ok tt, st1) →
  working st1 !! ref
    = Some (append_rows (written_row <$> rows df)
              (base_table self pol (working st !! ref))) ∧
  aborted st1 = aborted st ∧
  (pol = "replace" ∨ pol = "append" ∨ (pol = "fail" ∧ working st !! ref = None)).
Proof.
  unfold chunk_size_ok. destruct (chunk_size self) as [C|] eqn:Hcs.
  - intros HC. destruct (decide (C = 0%Z)) as [->|Hne].
    + unfold load_chunks. rewrite Hcs. cbn. intros Hl.
      apply load_chunk_ok in Hl as (? & _ & ? & ?). done.
    + intros Hl.
      apply (load_chunks_ok E self df ref pol C ltac:(lia)) in Hl
        as (Hw & _ & Ha & Hpol); [|done].
      cbn zeta in Hw. rewrite all_chunks in Hw by lia. done.
  - intros _. unfold load_chunks. rewrite Hcs. intros Hl.
    apply load_chunk_ok in Hl as (? & _ & ? & ?). done.
Qed.

Lemma load_ok_table E self table_name schema if_exists idx st st' df :
  chunk_size_ok self →
  (ensure_loaded E st).1 = Ok df →
  load_to_postgis E self table_name schema if_exists idx st = (Ok tt, st') →
  gdf st' = Some df ∧
  (if_exists = "replace" ∨ if_exists = "append" ∨
   (if_exists = "fail" ∧ committed st !! (schema, table_name) = None)) ∧
  (idx = false ∨ index_fault E ≠ Some ServerSide →
   rows_of (committed st') (schema, table_name)
   = Some (kept_rows if_exists (committed st) (schema, table_name)
           ++ (written_row <$> rows df))).
Proof.
  intros Hcs Hdf Hrun.
  destruct (load_ok_run _ _ _ _ _ _ _ _ _ Hdf Hrun)
    as (sta & st1 & st2 & evs0 & Hload & Hc0 & Hg0 & He0 & Hf0 & Hconn & Hl & Hidx & ->).
  assert (gdf st2 = Some df) as Hg2.
  { destruct (in_txn_load_chunks E self df (schema, table_name) if_exists
                (add_event Begin (set_aborted false
                   (set_working (committed sta) sta)))) as (_ & Hg1 & _).
    rewrite Hl in Hg1. cbn in Hg1.
    destruct idx.
    - destruct (in_txn_create_spatial_index E (schema, table_name) st1)
        as (_ & Hg & _).
      rewrite Hidx in Hg. cbn in Hg. congruence.
    - injection Hidx as <-. congruence. }
  apply load_chunks_table in Hl as (Hw1 & Ha1 & Hpol); [|done].
  cbn in Hw1, Ha1, Hpol. rewrite Hc0 in Hw1, Hpol.
  destruct (index_step_spec E (schema, table_name) idx st1)
    as (st2' & Hidx' & Hrows2 & Hc2 & Hab2 & evs2 & He2 & Hf2 & Hi2).
  rewrite Hidx in Hidx'. injection Hidx' as <-.
  split_and!; [|done|].
  - cbn. unfold commit.
    by destruct (aborted st2).
  - intros Hix. cbn [committed add_event]. unfold commit.
    rewrite (Hab2 Hix) by (by rewrite Hw1). rewrite Ha1. cbn.
    unfold rows_of in *. rewrite Hrows2, Hw1. cbn. f_equal.
    unfold kept_rows, base_table, rows_of.
    destruct Hpol as [->|[->|[-> Hnone]]]; cbn in *;
      destruct (committed st !! (schema, table_name)); repeat case_bool_decide; done.
Qed.

(** *** A load without chunks *)

Lemma schema_events_summary ref self pol found :
  to_sql_policies (schema_events ref self pol found) = [] ∧
  inserted_batches (schema_events ref self pol found) = [] ∧
  Forall is_statement (schema_events ref self pol found).
Proof.
  unfold schema_events. destruct found; [case_bool_decide|];
    split_and!; try done; by repeat constructor.
Qed.

(** A load with no chunk size, or with chunk size 0, which Python takes
    for none: when it succeeds it made one [to_sql] call, with the
    configured policy and all the records, inside one transaction begun and
    committed once; unless the server rejected the index statement, the
    table then holds the rows it kept followed by the records. *)
Theorem unchunked_load E self df table_name schema if_exists idx st st' :
  chunk_size self = None ∨ chunk_size self = Some 0%Z →
  (ensure_loaded E st).1 = Ok df →
  load_to_postgis E self table_name schema if_exists idx st = (Ok tt, st') →
  ∃ evs, events st' = events st ++ evs ∧
    to_sql_policies evs = [if_exists] ∧
    inserted_batches evs = [written_row <$> rows df] ∧
    count_event is_begin evs = 1 ∧
    count_event is_commit evs = 1 ∧
    (idx = false ∨ index_fault E ≠ Some ServerSide →
     rows_of (committed st') (schema, table_name)
     = Some (kept_rows if_exists (committed st) (schema, table_name)
             ++ (written_row <$> rows df))).
Proof.
  intros Hcs Hdf Hrun.
  assert (chunk_size_ok self) as Hok.
  { unfold chunk_size_ok. by destruct Hcs as [->| ->]. }
  destruct (load_ok_table _ _ _ _ _ _ _ _ _ Hok Hdf Hrun) as (_ & _ & Htable).
  destruct (load_ok_run _ _ _ _ _ _ _ _ _ Hdf Hrun)
    as (sta & st1 & st2 & evs0 & Hload & Hc0 & Hg0 & He0 & Hf0 & Hconn & Hl & Hidx & ->).
  set (ref := (schema, table_name)) in *.
  set (st0 := add_event Begin _) in Hl.
  assert (_load_chunk E self df ref if_exists st0 = (Ok tt, st1)) as Hchunk.
  { revert Hl. unfold load_chunks. by destruct Hcs as [->| ->]. }
  destruct (load_chunk_events _ _ _ _ _ _ _ _ Hchunk) as (evs1 & He1 & Hshape).
  destruct Hshape as [[_ ?]|(n & ins & -> & _ & [[_ (rs & ->)]|[? _]])]; [done| |done].
  apply load_chunk_ok in Hchunk as (_ & Hi1 & _).
  destruct (index_step_spec E ref idx st1)
    as (st2' & Hidx' & _ & _ & _ & evs2 & He2 & Hf2 & Hi2).
  rewrite Hidx in Hidx'. injection Hidx' as <-.
  destruct (index_step_other E ref idx st1) as (evs2' & He2' & Ho2).
  rewrite Hidx in He2'. cbn in He2'. rewrite He2 in He2'.
  apply app_inv_head in He2'. subst evs2'.
  destruct (schema_events_summary ref self if_exists (working st0 !! ref))
    as (Hp & Hb & Hs).
  assert (rs = written_row <$> rows df) as ->.
  { rewrite He1 in Hi1. rewrite inserted_batches_app in Hi1.
    apply app_inv_head in Hi1.
    change (ToSql ref if_exists n :: ?l) with ([ToSql ref if_exists n] ++ l) in Hi1.
    rewrite !inserted_batches_app, Hb in Hi1. cbn in Hi1. by injection Hi1. }
  exists (evs0 ++ [Begin] ++ (ToSql ref if_exists n
            :: schema_events ref self if_exists (working st0 !! ref)
               ++ [Insert ref (written_row <$> rows df)])
          ++ evs2 ++ [Commit; Log INFO "Successfully loaded"]).
  pose proof (log_is_other _ Hf0) as Ho0.
  apply other_summary in Ho0 as (Hp0 & Hb0 & _).
  apply other_summary in Ho2 as (Hp2 & Hb2 & _).
  apply log_is_statement, count_statements in Hf0 as [Hbeg0 Hcom0].
  apply count_statements in Hf2 as [Hbeg2 Hcom2].
  apply count_statements in Hs as [Hbeg1 Hcom1].
  split_and!.
  - cbn. unfold commit. destruct (aborted st2); cbn; rewrite He2, He1; cbn;
      rewrite He0; repeat (rewrite <- app_assoc; cbn); done.
  - change (ToSql ref if_exists n :: ?l) with ([ToSql ref if_exists n] ++ l).
    rewrite !to_sql_policies_app, Hp0, Hp2, Hp. done.
  - change (ToSql ref if_exists n :: ?l) with ([ToSql ref if_exists n] ++ l).
    rewrite !inserted_batches_app, Hb0, Hb2, Hb. done.
  - change (ToSql ref if_exists n :: ?l) with ([ToSql ref if_exists n] ++ l).
    rewrite !count_event_app, Hbeg0, Hbeg2, Hbeg1. done.
  - change (ToSql ref if_exists n :: ?l) with ([ToSql ref if_exists n] ++ l).
    rewrite !count_event_app, Hcom0, Hcom2, Hcom1. done.
  - done.
Qed.

(** *** Loading twice *)

Lemma ensure_loaded_cached E st df :
  gdf st = Some df → ensure_loaded E st = (Ok df, st).
Proof. intros Hg. unfold ensure_loaded, bind, get. by rewrite Hg. Qed.

(** Loading the same dataset twice.  When both loads succeed the policy
    was not "fail"; under "replace" the table holds the dataset once, as
    after the first load; under "append" it holds it twice, after the rows
    it had: nothing removes duplicates.  The second load uses the frame
    the first one read. *)
Theorem repeated_load E self df table_name schema if_exists idx st st1 st2 :
  chunk_size_ok self →
  idx = false ∨ index_fault E ≠ Some ServerSide →
  (ensure_loaded E st).1 = Ok df →
  load_to_postgis E self table_name schema if_exists idx st = (Ok tt, st1) →
  load_to_postgis E self table_name schema if_exists idx st1 = (Ok tt, st2) →
  if_exists ≠ "fail" ∧
  rows_of (committed st2) (schema, table_name)
  = Some (kept_rows if_exists (committed st) (schema, table_name)
          ++ (if bool_decide (if_exists = "append")
              then (written_row <$> rows df) ++ (written_row <$> rows df)
              else written_row <$> rows df)).
Proof.
  intros Hok Hidx Hdf Hrun1 Hrun2.
  destruct (load_ok_table _ _ _ _ _ _ _ _ _ Hok Hdf Hrun1) as (Hg1 & _ & Ht1).
  specialize (Ht1 Hidx).
  assert ((ensure_loaded E st1).1 = Ok df) as Hdf1.
  { by rewrite (ensure_loaded_cached E st1 df Hg1). }
  destruct (load_ok_table _ _ _ _ _ _ _ _ _ Hok Hdf1 Hrun2) as (_ & Hpol & Ht2).
  specialize (Ht2 Hidx).
  assert (if_exists ≠ "fail") as Hnf.
  { intros ->. destruct Hpol as [?|[?|[_ Hnone]]]; [done..|].
    unfold rows_of in Ht1. by rewrite Hnone in Ht1. }
  split; [done|]. rewrite Ht2. f_equal. unfold kept_rows at 1. rewrite Ht1. cbn.
  unfold kept_rows. case_bool_decide; [|done]. by rewrite <- app_assoc.
Qed.

(** *** The policy "fail" *)

Lemma load_raise_committed E self table_name schema if_exists idx st e st' :
  load_to_postgis E self table_name schema if_exists idx st = (Raise e, st') →
  committed st' = committed st.
Proof.
  unfold load_to_postgis. intros H. unfold bind at 1 in H.
  destruct (ensure_loaded_spec E st) as (Hc0 & _ & _).
  destruct (ensure_loaded E st) as [[df|e0] st0]; cbn in Hc0.
  - unfold try_except, bind in H.
    destruct (engine_begin _ _ st0) as [[[]|e1] st1] eqn:Hbeg; [done|].
    cbn in H. injection H as <- <-.
    apply engine_begin_raise in Hbeg as (Hc1 & _); [|apply in_txn_body].
    cbn. congruence.
  - by injection H as <- <-.
Qed.

(** Under the policy "fail" a table that exists is never touched: the load
    does not succeed, and the committed database is what it was. *)
Theorem fail_policy_protects_table E self table_name schema idx st t r st' :
  chunk_size_ok self →
  committed st !! (schema, table_name) = Some t →
  load_to_postgis E self table_name schema "fail" idx st = (r, st') →
  r ≠ Ok tt ∧ committed st' = committed st.
Proof.
  intros Hok Ht Hrun. destruct r as [[]|e].
  - exfalso.
    destruct (ensure_loaded E st) as [[df|e0] sta] eqn:Hload.
    + destruct (load_ok_table E self table_name schema "fail" idx st st' df Hok)
        as (_ & Hpol & _); [by rewrite Hload|done|].
      destruct Hpol as [?|[?|[_ Hnone]]]; [done..|]. by rewrite Hnone in Ht.
    + unfold load_to_postgis, bind in Hrun. by rewrite Hload in Hrun.
  - split; [done|]. by eapply load_raise_committed.
Qed.

(** *** A negative chunk size *)

Lemma negative_chunk_range (n C : Z) :
  (0 < n)%Z → (C < 0)%Z → range (n `div` C + 1) = [].
Proof.
  intros Hn HC. unfold range.
  assert (n `div` C < 0)%Z as Hq.
  { pose proof (Z.div_mod n C ltac:(lia)) as Hdm.
    pose proof (Z.mod_neg_bound n C HC) as Hm. nia. }
  replace (Z.to_nat (n `div` C + 1)) with 0 by lia. done.
Qed.

(** A negative chunk size passes the truth test, and [range] of the chunk
    count it gives is empty for a dataset that is not: the load makes no
    [to_sql] call, writes no row, and still commits and logs success. *)
Theorem negative_chunk_size_loads_nothing
    E self C df table_name schema if_exists idx st :
  chunk_size self = Some C → (C < 0)%Z →
  (ensure_loaded E st).1 = Ok df →
  rows df ≠ [] →
  connect_fails E = false →
  ∃ st' evs, load_to_postgis E self table_name schema if_exists idx st = (Ok tt, st') ∧
    events st' = events st ++ evs ∧
    to_sql_policies evs = [] ∧
    inserted_batches evs = [] ∧
    rows_of (committed st') (schema, table_name)
    = rows_of (committed st) (schema, table_name) ∧
    last evs = Some (Log INFO "Successfully loaded").
Proof.
  intros Hcs HC Hdf Hrows Hconn.
  unfold load_to_postgis, bind at 1.
  destruct (ensure_loaded_spec E st) as (Hc0 & Hw0 & evs0 & He0 & Hf0).
  destruct (ensure_loaded E st) as [r0 sta]. cbn in Hdf, Hc0, Hw0, He0. subst r0.
  unfold try_except, bind at 1, engine_begin. rewrite Hconn.
  set (st0 := add_event Begin _). set (ref := (schema, table_name)).
  unfold bind at 1.
  assert (load_chunks E self df ref if_exists st0 = (Ok tt, st0)) as ->.
  { unfold load_chunks. rewrite Hcs. rewrite bool_decide_eq_false_2 by lia.
    rewrite negative_chunk_range; [done| |done]. unfold len.
    destruct (rows df); [done|]. cbn. lia. }
  destruct (index_step_other E ref idx st0) as (evs2 & He2 & Ho2).
  destruct (index_step_spec E ref idx st0)
    as (st2 & Hstep & Hrows2 & Hc2 & _ & _).
  rewrite Hstep in He2 |- *. cbn in He2.
  apply other_summary in Ho2 as (Hp2 & Hb2 & _).
  pose proof (log_is_other _ Hf0) as Ho0.
  apply other_summary in Ho0 as (Hp0 & Hb0 & _).
  cbn. eexists _, (evs0 ++ [Begin] ++ evs2 ++ [Commit; Log INFO "Successfully loaded"]).
  split; [done|]. split_and!.
  - cbn. unfold commit. destruct (aborted st2); cbn; rewrite He2; cbn;
      rewrite He0; repeat (rewrite <- app_assoc; cbn); done.
  - rewrite !to_sql_policies_app, Hp0, Hp2. done.
  - rewrite !inserted_batches_app, Hb0, Hb2. done.
  - cbn [committed add_event]. unfold commit.
    destruct (aborted st2); cbn; [by rewrite Hc2; cbn; rewrite Hc0|].
    rewrite Hrows2. cbn. by rewrite Hc0.
  - change [Commit; Log INFO "Successfully loaded"]
      with ([Commit] ++ [Log INFO "Successfully loaded"]).
    rewrite !app_assoc. by rewrite last_snoc.
Qed.

(** *** The cached frame *)

Lemma cached_load_begins E self table_name schema if_exists idx st df :
  gdf st = Some df → connect_fails E = false →
  ∃ evs, events (load_to_postgis E self table_name schema if_exists idx st).2
         = events st ++ Begin :: evs.
Proof.
  intros Hg Hconn. unfold load_to_postgis, bind at 1.
  rewrite (ensure_loaded_cached E st df Hg).
  unfold try_except, bind at 1, engine_begin. rewrite Hconn.
  set (st0 := add_event Begin _).
  destruct (in_txn_body E self df (schema, table_name) if_exists idx st0)
    as (_ & _ & evs1 & He1 & _).
  destruct ((_ >> _) st0) as [[[]|e1] st1]; cbn in He1 |- *.
  - eexists (evs1 ++ [Commit; Log INFO "Successfully loaded"]).
    unfold commit. destruct (aborted st1); cbn; rewrite He1; cbn;
      repeat (rewrite <- app_assoc; cbn); done.
  - eexists (evs1 ++ [Rollback; Log ERROR _]).
    rewrite He1. cbn. repeat (rewrite <- app_assoc; cbn). done.
Qed.

(** [load] stores the frame in [self.gdf] before it validates it.  After a
    load that failed validation the frame is therefore cached, and the next
    call of [load_to_postgis] neither reads the file nor validates: it
    goes straight to the database. *)
Theorem failed_validation_is_cached E self table_name schema if_exists idx st df :
  gdf st = None → read_file E = Ok df → _validate_schema df ≠ Ok tt →
  connect_fails E = false →
  ∃ st1, load_to_postgis E self table_name schema if_exists idx st
         = (Raise ValueError, st1) ∧
    gdf st1 = Some df ∧
    ∃ evs, events (load_to_postgis E self table_name schema if_exists idx st1).2
           = events st1 ++ Begin :: evs.
Proof.
  intros Hg Hfile Hbad Hconn.
  assert (_validate_schema df = Raise ValueError) as Hv.
  { destruct (_validate_schema df) as [[]|e] eqn:Hv; [done|].
    by rewrite (validate_schema_raises _ _ Hv). }
  eexists. split; [|split].
  - unfold load_to_postgis, bind at 1, ensure_loaded. unfold bind at 1, get at 1.
    rewrite Hg. unfold bind at 1, load, try_except.
    unfold bind, emit, modify, lift. cbn. rewrite Hfile, Hv. cbn. reflexivity.
  - done.
  - by eapply cached_load_begins.
Qed.

(** *** The table a load leaves *)



Lemma unchunked_load_witness :
  ∃ evs, events plain_load.2 = events with_roads ++ evs ∧
    to_sql_policies evs = ["append"] ∧
    inserted_batches evs = [written_row <$> rows four_points] ∧
    count_event is_begin evs = 1 ∧
    count_event is_commit evs = 1 ∧
    (true = false ∨ index_fault healthy ≠ Some ServerSide →
     rows_of (committed plain_load.2) ("public", "roads")
     = Some (kept_rows "append" (committed with_roads) ("public", "roads")
             ++ (written_row <$> rows four_points))).
Proof.
  apply (unchunked_load healthy (loader None "GEOMETRY") four_points
           "roads" "public" "append" true with_roads plain_load.2).
  - by left.
  - reflexivity.
  - vm_compute. reflexivity.
Defined.

Lemma repeated_load_witness :
  "append" ≠ "fail" ∧
  rows_of (committed plain_load_again.2) ("public", "roads")
  = Some (kept_rows "append" (committed with_roads) ("public", "roads")
          ++ (if bool_decide ("append" = "append")
              then (written_row <$> rows four_points)
                   ++ (written_row <$> rows four_points)
              else written_row <$> rows four_points)).
Proof.
  apply (repeated_load healthy (loader None "GEOMETRY") four_points
           "roads" "public" "append" true with_roads plain_load.2 plain_load_again.2).
  - exact I.
  - right. done.
  - reflexivity.
  - vm_compute. reflexivity.
  - vm_compute. reflexivity.
Defined.

Lemma fail_policy_protects_table_witness :
  guarded_load.1 ≠ Ok tt ∧ committed guarded_load.2 = committed with_roads.
Proof.
  apply (fail_policy_protects_table healthy (loader (Some 2%Z) "GEOMETRY")
           "roads" "public" true with_roads
           {| column_type := ("GEOMETRY", 4326%Z);
              table_rows := [written_row (point "0")];
              table_indexes := ["idx_roads_geometry"] |}).
  - cbn. lia.
  - vm_compute. reflexivity.
  - apply surjective_pairing.
Defined.

Lemma negative_chunk_size_loads_nothing_witness :
  ∃ st' evs, load_to_postgis healthy (loader (Some (-2)%Z) "GEOMETRY")
               "roads" "public" "replace" true (fresh None) = (Ok tt, st') ∧
    events st' = events (fresh None) ++ evs ∧
    to_sql_policies evs = [] ∧
    inserted_batches evs = [] ∧
    rows_of (committed st') ("public", "roads")
    = rows_of (committed (fresh None)) ("public", "roads") ∧
    last evs = Some (Log INFO "Successfully loaded").
Proof.
  apply (negative_chunk_size_loads_nothing healthy (loader (Some (-2)%Z) "GEOMETRY")
           (-2) four_points).
  - reflexivity.
  - lia.
  - reflexivity.
  - done.
  - reflexivity.
Defined.

Lemma failed_validation_is_cached_witness :
  ∃ st1, load_to_postgis (failing_at None plain_frame) (loader None "GEOMETRY")
           "roads" "public" "replace" false (fresh None)
         = (Raise ValueError, st1) ∧
    gdf st1 = Some plain_frame ∧
    ∃ evs, events (load_to_postgis (failing_at None plain_frame)
                     (loader None "GEOMETRY") "roads" "public" "replace" false st1).2
           = events st1 ++ Begin :: evs.
Proof.
  apply (failed_validation_is_cached (failing_at None plain_frame)
           (loader None "GEOMETRY") "roads" "public" "replace" false (fresh None)
           plain_frame).
  - reflexivity.
  - reflexivity.
  - done.
  - reflexivity.
Defined.

(** The frame that failed validation is loaded by the next call. *)
Example unvalidated_frame_is_loaded :
  unvalidated_load.1 = Raise ValueError ∧
  unvalidated_load_again.1 = Ok tt ∧
  rows_of (committed unvalidated_load_again.2) ("public", "roads")
  = Some (written_row <$> rows plain_frame).
Proof. vm_compute. done. Qed.


End postgis_loader_facts.

(** ** Properties of src/download_osm.py *)

Module download_osm_facts.
Import Py download_osm.
Local Open Scope py_scope.

(** One attempt makes one request, and fails exactly when the service
    does. *)
Lemma download_body_spec E self st :
  download_body E self st
  = (attempt_result (answers E (requests st)),
     {| requests := S (requests st);
        events := events st
                  ++ attempt_events (location_name self) (answers E (requests st)) |}).
Proof.
  unfold download_body, try_except, bind, emit, modify, features_from_place,
    attempt_events. cbn.
  destruct (answers E (requests st)) as [gdf|e]; cbn.
  - unfold add_event; cbn. by rewrite <- !app_assoc.
  - case_bool_decide; unfold add_event; cbn; by rewrite <- !app_assoc.
Qed.

Lemma count_events_app P evs1 evs2 :
  count_event P (evs1 ++ evs2) = count_event P evs1 + count_event P evs2.
Proof. unfold count_event. by rewrite filter_app, length_app. Qed.

Lemma sleeps_app evs1 evs2 : sleeps (evs1 ++ evs2) = sleeps evs1 ++ sleeps evs2.
Proof. apply omap_app. Qed.

Lemma attempt_events_summary location a :
  count_event is_request (attempt_events location a) = 1 ∧
  sleeps (attempt_events location a) = [].
Proof. destruct a as [g|e]; [done|]. unfold attempt_events. by case_bool_decide. Qed.

Lemma download_spec E self st :
  ∃ evs, events (download E self st).2 = events st ++ evs ∧
    count_event is_request evs = attempts_made E (requests st) ∧
    sleeps evs = replicate (attempts_made E (requests st) - 1) 2000%Z ∧
    (download E self st).1
    = attempt_result
        (answers E (requests st + (attempts_made E (requests st) - 1))).
Proof.
  unfold download, retry, attempts_made. cbn [Nat.sub retrying_call].
  rewrite download_body_spec.
  set (n := requests st). set (loc := location_name self).
  destruct (attempt_events_summary loc (answers E n)) as [Hc1 Hs1].
  destruct (attempt_events_summary loc (answers E (S n))) as [Hc2 Hs2].
  destruct (attempt_events_summary loc (answers E (S (S n)))) as [Hc3 Hs3].
  destruct (answers E n) as [g1|e1] eqn:Ha1; cbn [attempt_result is_ok].
  { exists (attempt_events loc (Ok g1)). split; [done|]. cbn [snd fst].
    by rewrite Hc1, Hs1, Nat.add_0_r, Ha1. }
  rewrite download_body_spec. cbn [requests events add_event].
  destruct (answers E (S n)) as [g2|e2] eqn:Ha2; cbn [attempt_result is_ok].
  { exists (attempt_events loc (Raise e1) ++ [Sleep 2000%Z]
              ++ attempt_events loc (Ok g2)).
    rewrite <- !app_assoc. split; [done|]. cbn [snd fst].
    rewrite !count_events_app, !sleeps_app, Hc1, Hc2, Hs1, Hs2.
    replace (n + (2 - 1)) with (S n) by lia. by rewrite Ha2. }
  rewrite download_body_spec. cbn [requests events add_event].
  replace (n + (3 - 1)) with (S (S n)) by lia.
  destruct (answers E (S (S n))) as [g3|e3]; cbn [attempt_result];
    (eexists (attempt_events loc (Raise e1) ++ [Sleep 2000%Z]
                ++ attempt_events loc (Raise e2) ++ [Sleep 2000%Z]
                ++ attempt_events loc _);
     rewrite <- !app_assoc; split; [done|]; cbn [snd fst];
     by rewrite !count_events_app, !sleeps_app, Hc1, Hc2, Hc3, Hs1, Hs2, Hs3).
Qed.

(** C5 (amended): the retry policy is the decorator of [download] and wraps
    nothing else.  [download] makes between one and three attempts, with a
    fixed wait of 2000 ms before each new attempt, and it makes a new
    attempt after every failed one, whatever was raised, the
    location-not-found error included; what it returns or raises is the
    outcome of its last attempt.  [load_to_postgis] is not retried: it
    opens its transaction at most once and lets every error through. *)
Theorem retry_wraps_download_only
    E self st LE Lself table_name schema if_exists idx lst :
  (∃ evs, events (download E self st).2 = events st ++ evs ∧
     let attempts := count_event is_request evs in
     attempts = attempts_made E (requests st) ∧
     1 ≤ attempts ≤ 3 ∧
     sleeps evs = replicate (attempts - 1) 2000%Z ∧
     (∀ e, answers E (requests st) = Raise e → 2 ≤ attempts) ∧
     (download E self st).1
     = attempt_result (answers E (requests st + (attempts - 1)))) ∧
  (∃ evs, postgis_loader.events
            (postgis_loader.load_to_postgis
               LE Lself table_name schema if_exists idx lst).2
          = postgis_loader.events lst ++ evs ∧
     postgis_loader.count_event postgis_loader.is_begin evs ≤ 1).
Proof.
  split; [|apply postgis_loader_facts.load_begins_once].
  destruct (download_spec E self st) as (evs & He & Hc & Hs & Hr).
  exists evs. split; [done|]. cbn zeta. rewrite Hc.
  split_and!; [done| | |done| |done].
  - unfold attempts_made. repeat destruct (is_ok _); lia.
  - unfold attempts_made. repeat destruct (is_ok _); lia.
  - intros e Ha. unfold attempts_made. rewrite Ha. cbn.
    destruct (is_ok _); lia.
Qed.

(** C5 as stated does not hold: when the service does not know the place,
    [download] raises the location-not-found [ValueError] only after three
    requests and two waits. *)
Lemma location_not_found_is_retried :
  unknown_place_download.1 = Raise ValueError ∧
  count_event is_request (events unknown_place_download.2) = 3 ∧
  sleeps (events unknown_place_download.2) = [2000%Z; 2000%Z].
Proof. vm_compute. done. Qed.

(** ** Further properties of src/download_osm.py *)

(** *** The suffix of a path and the driver *)

Lemma append_nil s : "" +:+ s = s.
Proof. reflexivity. Qed.

Lemma append_cons c s1 s2 : String c s1 +:+ s2 = String c (s1 +:+ s2).
Proof. reflexivity. Qed.

Lemma rfind_dot_app s1 s2 :
  rfind_dot (s1 +:+ s2)
  = match rfind_dot s2 with
    | Some i => Some (String.length s1 + i)
    | None => rfind_dot s1
    end.
Proof.
  induction s1 as [|c s1 IH].
  - rewrite append_nil. by destruct (rfind_dot s2).
  - rewrite append_cons. cbn. rewrite IH. by destruct (rfind_dot s2).
Qed.

Lemma length_append s1 s2 :
  String.length (s1 +:+ s2) = String.length s1 + String.length s2.
Proof.
  induction s1 as [|c s1 IH]; [done|]. rewrite append_cons. cbn. by rewrite IH.
Qed.

Lemma skip_append s1 s2 : skip (String.length s1) (s1 +:+ s2) = s2.
Proof.
  induction s1 as [|c s1 IH]; [by destruct s2|]. by rewrite append_cons.
Qed.

Lemma suffix_extension dir stem ext :
  stem ≠ "" → ext ≠ "" → rfind_dot ext = None →
  suffix {| parent := dir; name := stem +:+ "." +:+ ext |} = "." +:+ ext.
Proof.
  intros Hstem Hext Hnodot. unfold suffix. cbn [name].
  rewrite rfind_dot_app, append_cons, append_nil. cbn [rfind_dot].
  rewrite Hnodot. cbn [Ascii.eqb Bool.eqb]. rewrite Nat.add_0_r, length_append.
  destruct stem as [|c stem]; [done|]. destruct ext as [|d ext]; [done|].
  cbn [String.length].
  replace (0 <? S (String.length stem)) with true by (symmetry; apply Nat.ltb_lt; lia).
  replace (S (String.length stem) <? _) with true
    by (symmetry; apply Nat.ltb_lt; cbn; lia).
  cbn [andb]. change (S (String.length stem)) with (String.length (String c stem)).
  by rewrite skip_append.
Qed.

Lemma lower_append s1 s2 : lower (s1 +:+ s2) = lower s1 +:+ lower s2.
Proof.
  induction s1 as [|c s1 IH]; [done|]. rewrite !append_cons. cbn.
  by rewrite IH, append_cons.
Qed.

(** The driver [save] writes with follows the extension of the file name
    alone: a name [stem.ext] is written as GeoJSON when [ext] is "geojson"
    in any letter case, and as GPKG for every other extension; a name
    without a dot, a name whose only dot comes first, and a name that ends
    in a dot are written as GPKG. *)
Theorem driver_follows_extension dir stem ext :
  (stem ≠ "" → ext ≠ "" → rfind_dot ext = None →
   driver_of {| parent := dir; name := stem +:+ "." +:+ ext |}
   = if bool_decide (lower ext = "geojson") then "GeoJSON" else "GPKG") ∧
  (rfind_dot ext = None →
   driver_of {| parent := dir; name := ext |} = "GPKG" ∧
   driver_of {| parent := dir; name := "." +:+ ext |} = "GPKG" ∧
   driver_of {| parent := dir; name := ext +:+ "." |} = "GPKG").
Proof.
  split.
  - intros Hstem Hext Hnodot. unfold driver_of.
    rewrite suffix_extension by done. rewrite append_cons, append_nil. cbn [lower].
    change (lower_ascii ".") with "."%char.
    case_bool_decide as H1; case_bool_decide as H2; try done.
    + by injection H1.
    + by rewrite H2 in H1.
  - intros Hnodot. unfold driver_of, suffix. cbn [name]. split_and!.
    + by rewrite Hnodot.
    + rewrite append_cons, append_nil. cbn [rfind_dot]. by rewrite Hnodot.
    + rewrite rfind_dot_app. cbn [rfind_dot Ascii.eqb Bool.eqb].
      rewrite Nat.add_0_r, length_append. cbn [String.length].
      replace (String.length ext <? String.length ext + 1 - 1) with false
        by (symmetry; apply Nat.ltb_ge; lia).
      by rewrite andb_false_r.
Qed.

Example pipeline_driver : driver_of raw_path = "GeoJSON".
Proof. reflexivity. Qed.

Example uppercase_extension :
  driver_of {| parent := "out"; name := "Ikeja.GeoJSON" |} = "GeoJSON" ∧
  driver_of {| parent := "out"; name := "ikeja.json" |} = "GPKG" ∧
  driver_of {| parent := "out"; name := "ikeja.shp" |} = "GPKG".
Proof. done. Qed.

(** *** save *)

(** What [save] does.  It returns when the download, the making of the
    directory and the writing all succeed: the file then holds the
    downloaded frame under the driver of the path, and the success is
    logged.  When any of the three fails, whatever was raised, the
    location-not-found [ValueError] of [download] included, [save] logs
    the failure and raises [IOError], and no file is written.  It makes the
    requests of one [download] call, no more. *)
Theorem save_outcome E D self p st :
  let d := download E self (net st) in
  let out := save E D self p st in
  (if is_ok d.1 && is_ok (mkdir_result D (parent p))
      && is_ok (to_file_result D (path_str p))
   then ∃ gdf, d.1 = Ok gdf ∧ out.1 = Ok tt ∧
        files (fs out.2) = <[path_str p := (driver_of p, gdf)]> (files (fs st)) ∧
        parent p ∈ dirs (fs out.2) ∧
        events (net out.2) = events d.2 ++ [Log INFO "Saved features"]
   else out.1 = Raise IOError ∧
        files (fs out.2) = files (fs st) ∧
        events (net out.2) = events d.2 ++ [Log ERROR "Failed to save OSM data"]) ∧
  requests (net out.2) = requests d.2.
Proof.
  cbn zeta. unfold save, try_except, bind, on_net, mkdir, to_file, emit, modify,
    raise.
  set (d := download E self (net st)). clearbody d.
  destruct d as [[gdf|e] n1]; cbn [fst snd is_ok andb net fs]; [|done].
  destruct (mkdir_result D (parent p)) as [[]|e]; cbn [fst snd is_ok andb net fs];
    [|done].
  destruct (to_file_result D (path_str p)) as [[]|e];
    cbn [fst snd is_ok andb net fs files dirs]; [|done].
  split; [|done]. exists gdf. split_and!; [done..|set_solver|done].
Qed.

Example save_after_retries :
  let out := save slow_service writable ikeja raw_path empty_disk in
  out.1 = Ok tt ∧
  files (fs out.2) !! "data/raw/osm_raw.geojson"
  = Some ("GeoJSON", postgis_loader.four_points) ∧
  count_event is_request (events (net out.2)) = 3.
Proof. vm_compute. done. Qed.

Example save_unknown_place :
  let out := save unknown_place writable ikeja raw_path empty_disk in
  out.1 = Raise IOError ∧ files (fs out.2) = ∅ ∧
  count_event is_request (events (net out.2)) = 3.
Proof. vm_compute. done. Qed.

End download_osm_facts.

(** ** Properties of src/postgres_manager.py *)

Module postgres_manager_facts.
Import Py postgres_manager.
Local Open Scope py_scope.

(** *** get_connection *)

Lemma connect_ok database st c st' :
  connect database st = (Ok c, st') →
  c = Connection (next_id st) database false false false [] ∧
  database ∈ dom (databases (srv st)) ∧
  srv st' = srv st ∧ connection_pool st' = connection_pool st ∧
  events st' = events st ++ [Connect (next_id st) database].
Proof.
  unfold connect. case_bool_decide; [|done]. intros [= <- <-]. done.
Qed.

Lemma getconn_database st p st1 :
  pooled_to_postgres st →
  getconn st = (Ok p, st1) →
  conn_database p = "postgres".
Proof.
  intros [Hdb Hidle]. unfold getconn.
  destruct (pool_closed _); [done|].
  destruct (reverse (idle (connection_pool st))) as [|c rest] eqn:Hrev.
  - case_bool_decide; [done|].
    destruct (connect _ st) as [[c|e] st'] eqn:Hc; [|done].
    intros [= <- <-]. apply connect_ok in Hc as (-> & _). by cbn.
  - intros [= <- <-]. rewrite Forall_forall in Hidle. apply Hidle.
    apply elem_of_reverse. rewrite Hrev. left.
Qed.

(** C9: when [get_connection database] returns, the pool handed out a
    connection [p] to the maintenance database 'postgres'.  If [p] is not
    closed, the call returns [p] itself, and would have returned it, in the
    same state, for every other [database] argument.  If [p] is found
    closed, the call returns a fresh direct connection to [database]. *)
Theorem get_connection_ignores_database database st c st' :
  pooled_to_postgres st →
  get_connection database st = (Ok c, st') →
  ∃ p st1, getconn st = (Ok p, st1) ∧
    conn_database p = "postgres" ∧
    (closed p = false →
       c = p ∧ st' = st1 ∧
       ∀ database', get_connection database' st = (Ok p, st1)) ∧
    (closed p = true →
       c = Connection (next_id st1) database false false false [] ∧
       connect database st1 = (Ok c, st')).
Proof.
  intros Hinv Hrun.
  destruct (getconn st) as [[p|e] st1] eqn:Hget.
  2:{ unfold get_connection, try_except, bind in Hrun. rewrite Hget in Hrun.
      by destruct (is_psycopg2_Error e). }
  pose proof (getconn_database _ _ _ Hinv Hget) as Hdb.
  exists p, st1. split_and!; [done..| |]; intros Hclosed.
  - assert (∀ d, get_connection d st = (Ok p, st1)) as Hany.
    { intros d. unfold get_connection, try_except, bind.
      by rewrite Hget, Hclosed. }
    rewrite Hany in Hrun. by injection Hrun as <- <-.
  - unfold get_connection, try_except, bind in Hrun.
    rewrite Hget, Hclosed in Hrun.
    destruct (connect database st1) as [[c'|e] st2] eqn:Hc.
    + injection Hrun as <- <-.
      by pose proof (connect_ok _ _ _ _ Hc) as (-> & _).
    + by destruct (is_psycopg2_Error e).
Qed.

Lemma get_connection_ignores_database_witness :
  ∃ p st1, getconn started = (Ok p, st1) ∧
    conn_database p = "postgres" ∧
    (closed p = false →
       pooled = p ∧ leased = st1 ∧
       ∀ database', get_connection database' started = (Ok p, st1)) ∧
    (closed p = true →
       pooled = Connection (next_id st1) "osm" false false false [] ∧
       connect "osm" st1 = (Ok pooled, leased)).
Proof.
  apply (get_connection_ignores_database "osm" started pooled leased).
  - split; [reflexivity|]. vm_compute. repeat constructor.
  - vm_compute. reflexivity.
Defined.

(** A pooled connection found closed is replaced by a direct connection to
    the database asked for. *)
Example stale_connection_replaced :
  (get_connection "template1" stale).1
  = Ok (Connection 1 "template1" false false false []).
Proof. vm_compute. reflexivity. Qed.

Lemma get_connection_open database st c st' :
  get_connection database st = (Ok c, st') → closed c = false.
Proof.
  unfold get_connection, try_except, bind.
  destruct (getconn st) as [[p|e] st1].
  2:{ by destruct (is_psycopg2_Error e). }
  destruct (closed p) eqn:Hclosed.
  - destruct (connect database st1) as [[c'|e] st2] eqn:Hc.
    + intros [= <- <-]. by apply connect_ok in Hc as (-> & _).
    + by destruct (is_psycopg2_Error e).
  - by intros [= <- <-].
Qed.

(** *** release_connection *)

(** Releasing never raises, starts with the call of [putconn], and commits
    nothing. *)
Lemma release_connection_events c st :
  ∃ st' tail, release_connection c st = (Ok tt, st') ∧
    events st' = events st ++ Putconn (conn_id c) :: tail ∧
    Forall (λ e, ¬ is_commit e) tail ∧
    srv st' = srv st.
Proof.
  unfold release_connection, try_except, putconn, bind, emit, modify, get, close,
    rollback. cbn.
  destruct (pool_closed _); cbn.
  { eexists _, _. split; [done|]. cbn. rewrite <- !app_assoc.
    split_and!; [done| |done]. repeat constructor; by intros []. }
  case_bool_decide; cbn.
  2:{ eexists _, _. split; [done|]. cbn. rewrite <- !app_assoc.
      split_and!; [done| |done]. repeat constructor; by intros []. }
  case_bool_decide; cbn.
  - destruct (closed c); cbn.
    + eexists _, _. split; [done|]. cbn. split_and!; [done| |done]. constructor.
    + destruct (in_transaction c); cbn.
      * eexists _, _. split; [done|]. cbn. rewrite <- !app_assoc.
        split_and!; [done| |done]. repeat constructor; by intros [].
      * eexists _, _. split; [done|]. cbn. split_and!; [done| |done]. constructor.
  - eexists _, _. split; [done|]. cbn. rewrite <- !app_assoc.
    split_and!; [done| |done]. repeat constructor; by intros [].
Qed.

(** *** execute_sql *)

Lemma begun_id c : conn_id (begun c) = conn_id c.
Proof. unfold begun. by destruct (autocommit c). Qed.

Lemma begun_closed c : closed (begun c) = closed c.
Proof. unfold begun. by destruct (autocommit c). Qed.

(** What [execute_sql] does once it holds a connection. *)
Lemma execute_sql_run E self db_name query params st conn st1 :
  get_connection db_name st = (Ok conn, st1) →
  let id := conn_id conn in
  let st2 := add_event (Execute id (Query query params)) st1 in
  execute_sql E self db_name query params st
  = match run_query E query params with
    | Ok (Description rows) =>
        (Ok (Some rows),
         (release_connection (begun conn) (add_event (CursorClose id) st2)).2)
    | Ok NoDescription =>
        (Ok None,
         (release_connection (set_transaction false [] (begun conn))
            (add_event (CursorClose id)
               (set_srv (install (conn_database conn) (pending (begun conn)) (srv st1))
                  (add_event (Commit id) st2)))).2)
    | Raise e =>
        (Raise e,
         if is_psycopg2_Error e
         then add_event (Log ERROR "SQL execution failed") st2 else st2)
    end.
Proof.
  intros Hget. pose proof (get_connection_open _ _ _ _ Hget) as Hopen.
  unfold execute_sql, try_except, bind at 1. rewrite Hget.
  unfold bind at 1, execute. rewrite Hopen.
  unfold bind, emit, modify, get, lift. cbn.
  destruct (run_query E query params) as [[rows|]|e]; cbn.
  - rewrite begun_id.
    match goal with
    | |- context [release_connection ?c ?s] =>
        destruct (release_connection_events c s) as (st' & tail & Hr & _)
    end.
    by rewrite Hr.
  - unfold commit. rewrite begun_closed, Hopen.
    unfold bind, emit, modify. cbn. rewrite !begun_id.
    assert (conn_database (begun conn) = conn_database conn) as ->
      by (unfold begun; by destruct (autocommit conn)).
    match goal with
    | |- context [release_connection ?c ?s] =>
        destruct (release_connection_events c s) as (st' & tail & Hr & _)
    end.
    by rewrite Hr.
  - by destruct (is_psycopg2_Error e).
Qed.

Lemma no_commit_not_exists evs :
  Forall (λ e, ¬ is_commit e) evs → ¬ Exists is_commit evs.
Proof.
  intros Hall Hex. apply Exists_exists in Hex as (e & Hin & He).
  rewrite Forall_forall in Hall. by apply (Hall e).
Qed.

(** C10: once [execute_sql] holds a connection, it commits exactly when
    the executed query leaves no result description.  A query with a
    description has its rows returned, and nothing is committed before the
    connection goes back to the pool; a query without one returns [None],
    and the commit comes first, before the cursor is closed and the
    connection released; a query that fails is neither committed nor is
    its connection released. *)
Theorem execute_sql_commits_without_description
    E self db_name query params st conn st1 :
  get_connection db_name st = (Ok conn, st1) →
  ∃ evs, events (execute_sql E self db_name query params st).2
         = events st1 ++ Execute (conn_id conn) (Query query params) :: evs ∧
    (Exists is_commit evs ↔ run_query E query params = Ok NoDescription) ∧
    match run_query E query params with
    | Ok (Description rows) =>
        (execute_sql E self db_name query params st).1 = Ok (Some rows) ∧
        Forall (λ e, ¬ is_commit e) evs ∧
        Putconn (conn_id conn) ∈ evs
    | Ok NoDescription =>
        (execute_sql E self db_name query params st).1 = Ok None ∧
        ∃ tail, evs = Commit (conn_id conn) :: CursorClose (conn_id conn)
                        :: Putconn (conn_id conn) :: tail ∧
                Forall (λ e, ¬ is_commit e) tail
    | Raise e =>
        (execute_sql E self db_name query params st).1 = Raise e ∧
        Forall (λ e, ¬ is_commit e) evs ∧
        Putconn (conn_id conn) ∉ evs
    end.
Proof.
  intros Hget. rewrite !(execute_sql_run _ _ _ _ _ _ _ _ Hget). cbn zeta.
  destruct (run_query E query params) as [[rows|]|e]; cbn [fst snd].
  - match goal with
    | |- context [release_connection ?c ?s] =>
        destruct (release_connection_events c s) as (st' & tail & -> & He & Hf & _)
    end.
    cbn in He |- *. rewrite begun_id in He.
    exists (CursorClose (conn_id conn) :: Putconn (conn_id conn) :: tail).
    assert (Forall (λ e, ¬ is_commit e)
              (CursorClose (conn_id conn) :: Putconn (conn_id conn) :: tail)) as Hall.
    { constructor; [by intros []|]. constructor; [by intros []|done]. }
    split_and!; [by rewrite He, <- !app_assoc| |done|done|].
    + split; [|done]. by intros ?%no_commit_not_exists.
    + right. left.
  - match goal with
    | |- context [release_connection ?c ?s] =>
        destruct (release_connection_events c s) as (st' & tail & -> & He & Hf & _)
    end.
    cbn in He |- *. rewrite begun_id in He.
    exists (Commit (conn_id conn) :: CursorClose (conn_id conn)
              :: Putconn (conn_id conn) :: tail).
    split_and!; [by rewrite He, <- !app_assoc| |done|by eexists].
    split; [done|]. intros _. by left.
  - assert (Forall (λ e0, ¬ is_commit e0)
              (if is_psycopg2_Error e then [Log ERROR "SQL execution failed"] else []))
      as Hall by (destruct (is_psycopg2_Error e); repeat constructor; by intros []).
    exists (if is_psycopg2_Error e then [Log ERROR "SQL execution failed"] else []).
    split_and!.
    + destruct (is_psycopg2_Error e); cbn; [by rewrite <- !app_assoc|done].
    + split; [|done]. by intros ?%no_commit_not_exists.
    + done.
    + done.
    + destruct (is_psycopg2_Error e).
      * by intros [=]%list_elem_of_singleton.
      * by intros ?%elem_of_nil.
Qed.

Lemma execute_sql_commits_without_description_witness :
  ∃ evs, events (execute_sql answering manager "osm" "ALTER SYSTEM SET work_mem = %s;"
                   ["64MB"] started).2
         = events leased
           ++ Execute 0 (Query "ALTER SYSTEM SET work_mem = %s;" ["64MB"]) :: evs ∧
    (Exists is_commit evs ↔
     run_query answering "ALTER SYSTEM SET work_mem = %s;" ["64MB"] = Ok NoDescription) ∧
    (execute_sql answering manager "osm" "ALTER SYSTEM SET work_mem = %s;"
       ["64MB"] started).1 = Ok None ∧
    ∃ tail, evs = Commit 0 :: CursorClose 0 :: Putconn 0 :: tail ∧
            Forall (λ e, ¬ is_commit e) tail.
Proof.
  apply (execute_sql_commits_without_description answering manager "osm"
           "ALTER SYSTEM SET work_mem = %s;" ["64MB"] started pooled leased).
  vm_compute. reflexivity.
Defined.

(** A query that returns rows is not committed: the pool rolls its
    transaction back when the connection is returned. *)
Example select_not_committed :
  (execute_sql answering manager "osm" "SELECT 1;" [] started).1 = Ok (Some [["1"]]) ∧
  events (execute_sql answering manager "osm" "SELECT 1;" [] started).2
  = events leased ++ [Execute 0 (Query "SELECT 1;" []); CursorClose 0; Putconn 0;
                      Rollback 0].
Proof. vm_compute. done. Qed.

(** *** The pool between and during the manager's calls *)

Lemma size_add_le (x : nat) (X : gset nat) : size ({[x]} ∪ X) ≤ S (size X).
Proof.
  rewrite size_union_alt, size_singleton.
  pose proof (subseteq_size (X ∖ {[x]}) X). set_solver by lia.
Qed.

Lemma size_remove (x : nat) (X : gset nat) : x ∈ X → S (size (X ∖ {[x]})) = size X.
Proof.
  intros Hx. rewrite size_difference by set_solver. rewrite size_singleton.
  assert (size X ≠ 0) by (intros ?%size_empty_inv; set_solver). lia.
Qed.

Lemma getconn_leases st c st1 :
  mgr_inv st →
  getconn st = (Ok c, st1) →
  idle_ok c ∧ out_inv (conn_id c) st1 ∧ srv st1 = srv st.
Proof.
  intros (Hcl & Hdb & Hidle & Hmin & Hmax). unfold getconn. rewrite Hcl.
  destruct (reverse (idle (connection_pool st))) as [|c0 rest] eqn:Hrev.
  - apply (f_equal reverse) in Hrev. rewrite reverse_involutive in Hrev.
    cbn in Hrev. rewrite Hrev in *. cbn in Hmax.
    case_bool_decide as Hfull; [done|].
    destruct (connect _ st) as [[c'|e] st'] eqn:Hc; [|done].
    intros [= <- <-]. apply connect_ok in Hc as (-> & Hin & Hsrv & Hpool & _).
    cbn. rewrite Hdb in Hin |- *.
    split; [done|]. split; [|done].
    unfold out_inv. cbn. rewrite Hrev, Hsrv. cbn.
    pose proof (size_add_le (next_id st) (used (connection_pool st))).
    split_and!; [done..|set_solver|lia|lia|].
    destruct (minconn (connection_pool st)) as [|m] eqn:Hm; [|left; lia].
    right. right. split; [|done].
    pose proof (subseteq_size
      (({[next_id st]} ∪ used (connection_pool st)) ∖ {[next_id st]})
      (used (connection_pool st))). set_solver by lia.
  - apply (f_equal reverse) in Hrev. rewrite reverse_involutive in Hrev.
    rewrite reverse_cons in Hrev. rewrite Hrev in *.
    intros [= <- <-]. apply Forall_app in Hidle as [Hrest Hc0].
    rewrite Forall_singleton in Hc0. rewrite length_app in Hmin, Hmax. cbn in *.
    split; [done|]. split; [|done].
    unfold out_inv. cbn.
    pose proof (size_add_le (conn_id c0) (used (connection_pool st))).
    split_and!; [done..|set_solver|lia|lia|left; lia].
Qed.

Lemma getconn_total st :
  mgr_inv st → can_serve st → ∃ c st1, getconn st = (Ok c, st1).
Proof.
  intros (Hcl & Hdb & Hidle & Hmin & Hmax) Hserve. unfold getconn. rewrite Hcl.
  destruct (reverse (idle (connection_pool st))) as [|c0 rest] eqn:Hrev; [|eauto].
  apply (f_equal reverse) in Hrev. rewrite reverse_involutive in Hrev. cbn in Hrev.
  destruct Hserve as [?|[Hcap Hpg]]; [done|].
  rewrite bool_decide_eq_false_2 by done.
  unfold connect. rewrite Hdb, bool_decide_eq_true_2 by done. eauto.
Qed.

(** Under the invariant [get_connection] is [getconn]: no pooled
    connection is found closed. *)
Lemma get_connection_leases database st c st1 :
  mgr_inv st →
  get_connection database st = (Ok c, st1) →
  idle_ok c ∧ out_inv (conn_id c) st1 ∧ srv st1 = srv st.
Proof.
  intros Hinv. unfold get_connection, try_except, bind.
  destruct (getconn st) as [[p|e] st'] eqn:Hget.
  2:{ by destruct (is_psycopg2_Error e). }
  destruct (getconn_leases _ _ _ Hinv Hget) as (Hok & Hout & Hsrv).
  destruct Hok as (? & Hopen & ? & ?). rewrite Hopen. by intros [= <- <-].
Qed.

Lemma get_connection_total database st :
  mgr_inv st → can_serve st → ∃ c st1, get_connection database st = (Ok c, st1).
Proof.
  intros Hinv Hserve.
  destruct (getconn_total _ Hinv Hserve) as (c & st1 & Hget).
  destruct (getconn_leases _ _ _ Hinv Hget) as ((? & Hopen & ? & ?) & _).
  exists c, st1. unfold get_connection, try_except, bind. by rewrite Hget, Hopen.
Qed.

Lemma out_inv_frame id st1 st2 :
  connection_pool st2 = connection_pool st1 →
  dom (databases (srv st1)) ⊆ dom (databases (srv st2)) →
  out_inv id st1 → out_inv id st2.
Proof.
  intros Hp Hdom (? & ? & ? & ? & ? & ? & Hroom). unfold out_inv.
  rewrite Hp. split_and!; [done..|].
  destruct Hroom as [?|[?|[? ?]]]; [auto..|]. right. right. split; [done|].
  set_solver.
Qed.

(** Handing a leased connection back restores the invariant, and leaves
    the pool able to serve the next call. *)
Lemma release_connection_inv c st :
  out_inv (conn_id c) st →
  conn_database c = "postgres" → closed c = false →
  (in_transaction c = false → pending c = []) →
  ∃ st', release_connection c st = (Ok tt, st') ∧
    mgr_inv st' ∧ can_serve st' ∧ srv st' = srv st.
Proof.
  intros (Hcl & Hdb & Hidle & Hused & Hmin & Hmax & Hroom) Hcdb Hopen Hpend.
  unfold release_connection, try_except, putconn, bind, emit, modify, get, close,
    rollback. cbn. rewrite Hcl. cbn.
  rewrite bool_decide_eq_true_2 by done. cbn.
  pose proof (size_remove _ _ Hused) as Hsize.
  case_bool_decide as Hlt; cbn.
  - rewrite Hopen.
    assert (idle_ok (if in_transaction c then set_transaction false [] c else c))
      as Hback.
    { destruct (in_transaction c) eqn:Htx; [done|]. split_and!; auto. }
    destruct (in_transaction c); cbn;
      (eexists; split; [done|]; unfold mgr_inv, can_serve; cbn;
       rewrite length_app; cbn; split; [|split; [|done]]).
    + split_and!; [done|done| |lia|lia].
      apply Forall_app. split; [done|]. by apply Forall_singleton.
    + left. by intros [? ?]%app_eq_nil.
    + split_and!; [done|done| |lia|lia].
      apply Forall_app. split; [done|]. by apply Forall_singleton.
    + left. by intros [? ?]%app_eq_nil.
  - eexists. split; [done|]. unfold mgr_inv, can_serve. cbn.
    split; [|split; [|done]].
    + split_and!; [done|done|done|done|lia].
    + destruct Hroom as [?|[?|?]]; [lia|by left|by right].
Qed.

(** *** The statements of ensure_database *)

Lemma execute_select E c datname st :
  closed c = false →
  execute E c (SelectDatabase datname) st
  = (Ok (begun c,
         Description (if bool_decide (datname ∈ dom (databases (srv st)))
                      then [["1"]] else [])),
     add_event (Execute (conn_id c) (SelectDatabase datname)) st).
Proof. intros Hopen. unfold execute. by rewrite Hopen. Qed.

Lemma execute_create_database_ok E c db_name template st p st' :
  execute E c (CreateDatabase db_name template) st = (Ok p, st') →
  p.1 = c ∧
  connection_pool st' = connection_pool st ∧
  dom (databases (srv st')) = {[db_name]} ∪ dom (databases (srv st)).
Proof.
  unfold execute. destruct (closed c); [done|].
  unfold bind, emit, modify, get. cbn.
  destruct (autocommit c); [|done]. cbn.
  destruct (databases (srv st) !! template) as [inst|]; [|done].
  case_bool_decide; [done|]. cbn. intros [= <- <-]. cbn.
  split_and!; [done..|]. by rewrite dom_insert_L.
Qed.

(** What one [CREATE EXTENSION IF NOT EXISTS] leaves, when it succeeds. *)
Lemma execute_create_extension_ok E c extension st p st' :
  execute E c (CreateExtension extension) st = (Ok p, st') →
  conn_id p.1 = conn_id c ∧ conn_database p.1 = conn_database c ∧
  closed p.1 = false ∧
  connection_pool st' = connection_pool st ∧
  dom (databases (srv st')) = dom (databases (srv st)) ∧
  is_Some (databases (srv st) !! conn_database c) ∧
  installed st (conn_database c) ⊆ installed st' (conn_database c) ∧
  (∀ x, x ∈ pending c → x ∈ pending p.1) ∧
  (extension ∈ installed st' (conn_database c) ∨ extension ∈ pending p.1) ∧
  ((in_transaction c = false → pending c = []) →
   in_transaction p.1 = false → pending p.1 = []).
Proof.
  unfold execute. destruct (closed c) eqn:Hopen; [done|].
  unfold bind, emit, modify, get, installed. cbn.
  destruct (databases (srv st) !! conn_database c) as [inst|] eqn:Hdb; [|done].
  destruct (bool_decide (extension ∈ inst) || bool_decide (extension ∈ pending c))
    eqn:Hhave; cbn.
  - intros [= <- <-]. cbn. rewrite Hdb. cbn.
    assert (conn_id (begun c) = conn_id c ∧ conn_database (begun c) = conn_database c
            ∧ closed (begun c) = closed c ∧ pending (begun c) = pending c
            ∧ (in_transaction (begun c) = false → in_transaction c = false))
      as (-> & -> & -> & -> & Htx).
    { unfold begun. by destruct (autocommit c). }
    split_and!; [done|done|done|done|done|by eexists|done|done| |auto].
    apply orb_true_iff in Hhave as [?%bool_decide_eq_true|?%bool_decide_eq_true];
      auto.
  - destruct (bool_decide (extension ∈ available (srv st))); [|done].
    destruct (autocommit c) eqn:Hauto; cbn.
    + intros [= <- <-]. cbn. rewrite dom_alter_L, lookup_alter_eq, Hdb. cbn.
      split_and!; [done|done|done|done|done|by eexists|set_solver|done
                  |left; set_solver|done].
    + intros [= <- <-]. cbn. rewrite Hdb. cbn.
      split_and!; [done|done|done|done|done|by eexists|done|set_solver
                  |right; set_solver|done].
Qed.

(** An extension that is installed already is left alone. *)
Lemma execute_create_extension_present E c extension st :
  closed c = false →
  extension ∈ installed st (conn_database c) →
  execute E c (CreateExtension extension) st
  = (Ok (begun c, NoDescription),
     add_event (Execute (conn_id c) (CreateExtension extension)) st).
Proof.
  intros Hopen Hin. unfold execute, installed in *. rewrite Hopen.
  unfold bind, emit, modify, get. cbn.
  destruct (databases (srv st) !! conn_database c) as [inst|]; [|set_solver].
  cbn in Hin. by rewrite bool_decide_eq_true_2.
Qed.

Lemma create_extensions_ok E db_name exts : ∀ c st c' st',
  create_extensions E db_name exts c st = (Ok c', st') →
  closed c = false →
  conn_id c' = conn_id c ∧ conn_database c' = conn_database c ∧
  closed c' = false ∧
  connection_pool st' = connection_pool st ∧
  dom (databases (srv st')) = dom (databases (srv st)) ∧
  (exts ≠ [] → is_Some (databases (srv st) !! conn_database c)) ∧
  installed st (conn_database c) ⊆ installed st' (conn_database c) ∧
  (∀ x, x ∈ pending c → x ∈ pending c') ∧
  (∀ x, x ∈ exts → x ∈ installed st' (conn_database c) ∨ x ∈ pending c') ∧
  ((in_transaction c = false → pending c = []) →
   in_transaction c' = false → pending c' = []).
Proof.
  induction exts as [|ext exts IH]; intros c st c' st'.
  - cbn. intros [= <- <-] Hopen. split_and!; [done..| |done].
    by intros x ?%elem_of_nil.
  - cbn [create_extensions]. unfold bind at 1.
    destruct (execute E c (CreateExtension ext) st) as [[p|e] st1] eqn:Hex; [|done].
    apply execute_create_extension_ok in Hex
      as (Hid & Hdb & Hopen1 & Hpool & Hdom & Hsome & Hinst & Hpend & Hext & Htx).
    unfold bind, emit, modify. cbn.
    intros Hrest _.
    apply IH in Hrest
      as (Hid' & Hdb' & Hopen' & Hpool' & Hdom' & _ & Hinst' & Hpend' & Hall & Htx');
      [|done].
    cbn in Hpool', Hdom', Hinst', Hall.
    assert (installed st1 (conn_database c)
            ⊆ installed st' (conn_database c)) as Hinst''.
    { rewrite <- Hdb. exact Hinst'. }
    split_and!; [congruence|congruence|done|congruence|congruence|done| | | |auto].
    + set_solver.
    + auto.
    + intros x [->|Hx]%elem_of_cons.
      * destruct Hext as [?|?]; [left; set_solver|right; auto].
      * rewrite <- Hdb. by apply Hall.
Qed.

Lemma create_extensions_present E db_name exts : ∀ c st,
  closed c = false →
  (∀ x, x ∈ exts → x ∈ installed st (conn_database c)) →
  ∃ c' st', create_extensions E db_name exts c st = (Ok c', st') ∧
    conn_id c' = conn_id c ∧ conn_database c' = conn_database c ∧
    closed c' = false ∧ pending c' = pending c ∧
    connection_pool st' = connection_pool st ∧ srv st' = srv st.
Proof.
  induction exts as [|ext exts IH]; intros c st Hopen Hall.
  - eexists _, _. by cbn.
  - cbn [create_extensions]. unfold bind at 1.
    rewrite execute_create_extension_present; [|done|apply Hall; left].
    unfold bind, emit, modify. cbn.
    assert (conn_id (begun c) = conn_id c ∧ conn_database (begun c) = conn_database c
            ∧ closed (begun c) = closed c ∧ pending (begun c) = pending c)
      as (Hid & Hdb & Hcl & Hpend).
    { unfold begun. by destruct (autocommit c). }
    edestruct (IH (begun c)) as (c' & st' & -> & ? & ? & ? & ? & ? & ?).
    + congruence.
    + intros x Hx. rewrite Hdb. unfold installed. cbn. apply Hall. by right.
    + exists c', st'. split_and!; [done|congruence..|done|done].
Qed.

(** A handler that logs and re-raises lets exactly the results of the body
    through. *)
Lemma try_reraise_ok {S A} (m : M S A) handles (h : exn → M S unit) st a st' :
  try_except m handles (λ e, h e >> raise e) st = (Ok a, st') ↔
  m st = (Ok a, st').
Proof.
  unfold try_except, bind, raise. destruct (m st) as [[b|e] s]; [done|].
  destruct (handles e); [|done]. by destruct (h e s) as [[[]|e'] s'].
Qed.

Lemma commit_ok c st :
  closed c = false →
  commit c st
  = (Ok (set_transaction false [] c),
     set_srv (install (conn_database c) (pending c) (srv st))
       (add_event (Commit (conn_id c)) st)).
Proof. intros Hopen. unfold commit. by rewrite Hopen. Qed.

Lemma installed_install d exts st st' :
  srv st' = install d exts (srv st) →
  d ∈ dom (databases (srv st)) →
  installed st' d = installed st d ∪ list_to_set exts.
Proof.
  intros Hsrv [inst Hd]%elem_of_dom. unfold installed. rewrite Hsrv.
  unfold install. cbn. by rewrite lookup_alter_eq, Hd.
Qed.

Lemma dom_install d exts s :
  dom (databases (install d exts s)) = dom (databases s).
Proof. unfold install. cbn. by rewrite dom_alter_L. Qed.

Lemma emit_bind {A} e (k : M state A) st :
  (emit e >> k) st = k (add_event e st).
Proof. done. Qed.

Lemma bind_ok {S A B} (m : M S A) (k : A → M S B) st a st1 :
  m st = (Ok a, st1) → (let* x := m in k x) st = k a st1.
Proof. intros H. unfold bind. by rewrite H. Qed.

Lemma release_connection_after e c st :
  out_inv (conn_id c) st →
  conn_database c = "postgres" → closed c = false →
  (in_transaction c = false → pending c = []) →
  ∃ st', release_connection c (add_event e st) = (Ok tt, st') ∧
    mgr_inv st' ∧ can_serve st' ∧ srv st' = srv st.
Proof.
  intros Hout ? ? ?.
  destruct (release_connection_inv c (add_event e st)) as (st' & ? & ? & ? & ?);
    [|done..|by exists st'].
  by eapply out_inv_frame; [| |exact Hout].
Qed.

Lemma check_or_create_ok E db_name template st created st' :
  mgr_inv st →
  check_or_create E db_name template st = (Ok created, st') →
  (created = true ↔ db_name ∉ dom (databases (srv st))) ∧
  db_name ∈ dom (databases (srv st')) ∧
  mgr_inv st' ∧ can_serve st'.
Proof.
  intros Hinv. unfold check_or_create. unfold bind at 1.
  destruct (get_connection "postgres" st) as [[c|e] st1] eqn:Hget; [|done].
  destruct (get_connection_leases _ _ _ _ Hinv Hget)
    as ((Hdb & Hopen & Htx & Hpend) & Hout & Hsrv).
  unfold bind at 1. rewrite execute_select by done.
  cbn [fst snd]. rewrite Hsrv.
  assert (begun (set_autocommit c) = set_autocommit c) as -> by done.
  set (st2 := add_event _ st1).
  assert (out_inv (conn_id c) st2) as Hout2.
  { by eapply out_inv_frame; [| |exact Hout]. }
  case_bool_decide as Hin; cbn [fetchone negb].
  - unfold bind at 1. rewrite emit_bind. cbn [ret fst snd]. rewrite emit_bind.
    destruct (release_connection_after (CursorClose (conn_id c))
                (set_autocommit c) (add_event (Log INFO "Database already exists") st2))
      as (st3 & Hrel & Hinv3 & Hserve3 & Hsrv3); [|done..|].
    { by eapply out_inv_frame; [| |exact Hout2]. }
    rewrite (bind_ok _ _ _ _ _ Hrel). intros [= <- <-].
    rewrite Hsrv3. cbn. rewrite Hsrv. split_and!; [|done..].
    split; [done|]. by intros [].
  - unfold bind at 1. rewrite emit_bind. unfold bind at 1.
    destruct (execute E _ _ _) as [[p'|e] st3] eqn:Hex; [|done].
    apply execute_create_database_ok in Hex as (Hp & Hpool & Hdom).
    cbn [ret fst snd]. rewrite Hp, emit_bind.
    destruct (release_connection_after (CursorClose (conn_id c))
                (set_autocommit c) st3)
      as (st4 & Hrel & Hinv4 & Hserve4 & Hsrv4); [|done..|].
    { eapply out_inv_frame; [| |exact Hout2]; [done|]. rewrite Hdom. set_solver. }
    rewrite (bind_ok _ _ _ _ _ Hrel). intros [= <- <-].
    rewrite Hsrv4, Hdom. split_and!; [done|set_solver|done..].
Qed.

Lemma check_or_create_present E db_name template st :
  mgr_inv st → can_serve st →
  db_name ∈ dom (databases (srv st)) →
  ∃ st', check_or_create E db_name template st = (Ok false, st') ∧
    mgr_inv st' ∧ can_serve st' ∧ srv st' = srv st.
Proof.
  intros Hinv Hserve Hin.
  destruct (get_connection_total "postgres" _ Hinv Hserve) as (c & st1 & Hget).
  destruct (get_connection_leases _ _ _ _ Hinv Hget)
    as ((Hdb & Hopen & Htx & Hpend) & Hout & Hsrv).
  unfold check_or_create. rewrite (bind_ok _ _ _ _ _ Hget).
  unfold bind at 1. rewrite execute_select by done.
  cbn [fst snd]. rewrite Hsrv, bool_decide_eq_true_2 by done.
  assert (begun (set_autocommit c) = set_autocommit c) as -> by done.
  cbn [fetchone negb]. unfold bind at 1. rewrite emit_bind.
  cbn [ret fst snd]. rewrite emit_bind.
  set (st2 := add_event _ (add_event _ st1)).
  destruct (release_connection_after (CursorClose (conn_id c))
              (set_autocommit c) st2)
    as (st3 & Hrel & Hinv3 & Hserve3 & Hsrv3); [|done..|].
  { by eapply out_inv_frame; [| |exact Hout]. }
  rewrite (bind_ok _ _ _ _ _ Hrel). exists st3. split_and!; [done..|].
  by rewrite Hsrv3.
Qed.

(** *** _ensure_extensions *)

Lemma ensure_extensions_ok E self db_name st st' :
  mgr_inv st →
  _ensure_extensions E self db_name st = (Ok tt, st') →
  mgr_inv st' ∧ can_serve st' ∧
  dom (databases (srv st')) = dom (databases (srv st)) ∧
  ∀ x, x ∈ extensions self → x ∈ installed st' "postgres".
Proof.
  intros Hinv. unfold _ensure_extensions. rewrite try_reraise_ok.
  unfold bind at 1.
  destruct (get_connection db_name st) as [[c|e] st1] eqn:Hget; [|done].
  destruct (get_connection_leases _ _ _ _ Hinv Hget)
    as ((Hdb & Hopen & Htx & Hpend) & Hout & Hsrv).
  unfold bind at 1.
  destruct (create_extensions E db_name (extensions self) c st1)
    as [[c'|e] st2] eqn:Hext; [|done].
  apply create_extensions_ok in Hext
    as (Hid & Hdb' & Hopen' & Hpool & Hdom & Hsome & _ & _ & Hall & Hclean);
    [|done].
  rewrite Hdb in *.
  unfold bind at 1. rewrite commit_ok by done. rewrite emit_bind.
  set (st3 := set_srv _ _).
  assert (srv st3 = install "postgres" (pending c') (srv st2)) as Hsrv3.
  { subst st3. cbn. by rewrite Hdb'. }
  assert (dom (databases (srv st3)) = dom (databases (srv st2))) as Hdom3.
  { rewrite Hsrv3. apply dom_install. }
  destruct (release_connection_after (CursorClose (conn_id c'))
              (set_transaction false [] c') st3)
    as (st4 & Hrel & Hinv4 & Hserve4 & Hsrv4); [|done..|].
  { cbn. rewrite Hid. eapply out_inv_frame; [| |exact Hout]; [done|].
    by rewrite Hdom3, Hdom. }
  cbn [conn_id set_transaction]. cbn [conn_id set_transaction] in Hrel.
  rewrite Hrel. intros [= <-]. rewrite Hsrv4, Hdom3, Hdom, Hsrv.
  split_and!; [done..|]. intros x Hx.
  unfold installed at 1. rewrite Hsrv4. fold (installed st3 "postgres").
  rewrite (installed_install _ _ st2 st3 Hsrv3).
  - destruct (Hall x Hx); set_solver.
  - rewrite Hdom. apply elem_of_dom, Hsome. intros Hnil.
    rewrite Hnil in Hx. by apply elem_of_nil in Hx.
Qed.

Lemma ensure_extensions_present E self db_name st :
  mgr_inv st → can_serve st →
  (∀ x, x ∈ extensions self → x ∈ installed st "postgres") →
  ∃ st', _ensure_extensions E self db_name st = (Ok tt, st').
Proof.
  intros Hinv Hserve Hall.
  destruct (get_connection_total db_name _ Hinv Hserve) as (c & st1 & Hget).
  destruct (get_connection_leases _ _ _ _ Hinv Hget)
    as ((Hdb & Hopen & Htx & Hpend) & Hout & Hsrv).
  destruct (create_extensions_present E db_name (extensions self) c st1)
    as (c' & st2 & Hext & Hid & Hdb' & Hopen' & Hpend' & Hpool & Hsrv2); [done| |].
  { intros x Hx. rewrite Hdb. unfold installed. rewrite Hsrv. by apply Hall. }
  set (st3 := set_srv (install (conn_database c') (pending c') (srv st2))
                (add_event (Commit (conn_id c')) st2)).
  destruct (release_connection_after (CursorClose (conn_id c'))
              (set_transaction false [] c') st3)
    as (st4 & Hrel & _); [|cbn; congruence|done|done|].
  { cbn. rewrite Hid. eapply out_inv_frame; [| |exact Hout]; [done|].
    subst st3. cbn [srv set_srv]. by rewrite dom_install, Hsrv2. }
  exists st4. unfold _ensure_extensions. apply try_reraise_ok.
  rewrite (bind_ok _ _ _ _ _ Hget), (bind_ok _ _ _ _ _ Hext).
  unfold bind at 1. rewrite commit_ok by done. by rewrite emit_bind.
Qed.

(** *** _init_connection_pool establishes the invariant *)

Lemma open_idle_ok database : ∀ n st cs st',
  open_idle n database st = (Ok cs, st') →
  length cs = n ∧ srv st' = srv st ∧
  Forall (λ c, conn_database c = database ∧ closed c = false ∧
               in_transaction c = false ∧ pending c = []) cs.
Proof.
  induction n as [|n IH]; intros st cs st'; cbn [open_idle].
  - by intros [= <- <-].
  - unfold bind at 1.
    destruct (connect database st) as [[c|e] st1] eqn:Hc; [|done].
    apply connect_ok in Hc as (-> & _ & Hsrv & _).
    unfold bind at 1.
    destruct (open_idle n database st1) as [[cs'|e] st2] eqn:Hrest; [|done].
    apply IH in Hrest as (Hlen & Hsrv' & Hall).
    intros [= <- <-]. cbn. split_and!; [by rewrite Hlen|congruence|].
    by constructor.
Qed.

Lemma init_connection_pool_inv min_conn max_conn st st' :
  min_conn ≤ max_conn →
  _init_connection_pool min_conn max_conn st = (Ok tt, st') →
  mgr_inv st' ∧ pooled_to_postgres st' ∧ srv st' = srv st.
Proof.
  intros Hle. unfold _init_connection_pool. rewrite try_reraise_ok.
  unfold bind at 1.
  destruct (open_idle min_conn "postgres" st) as [[cs|e] st1] eqn:Hopen; [|done].
  apply open_idle_ok in Hopen as (Hlen & Hsrv & Hall).
  intros [= <-]. unfold mgr_inv, pooled_to_postgres. cbn.
  rewrite size_empty, Hlen. split_and!; [done|done|done|lia|lia|done| |done].
  eapply Forall_impl; [exact Hall|]. by intros c (? & _).
Qed.

Lemma started_inv : mgr_inv started.
Proof.
  apply (init_connection_pool_inv 1 5 initial started); [lia|].
  vm_compute. reflexivity.
Qed.

(** *** ensure_database *)

(** C6: with the [execute] call of [_ensure_extensions] closed as the model
    reads it, and between two calls of the manager's methods, a call of
    [ensure_database] that returns, returns [True] exactly when the
    database was not there before the call; the database is there
    afterwards; and the same call made again returns [False] and raises
    nothing. *)
Theorem ensure_database_idempotent E self db_name template st created st' :
  mgr_inv st →
  ensure_database E self db_name template st = (Ok created, st') →
  (created = true ↔ db_name ∉ dom (databases (srv st))) ∧
  db_name ∈ dom (databases (srv st')) ∧
  mgr_inv st' ∧
  ∃ st'', ensure_database E self db_name template st' = (Ok false, st'').
Proof.
  intros Hinv. unfold ensure_database at 1. rewrite try_reraise_ok.
  unfold bind at 1.
  destruct (check_or_create E db_name template st) as [[b|e] st1] eqn:Hcheck;
    [|done].
  apply check_or_create_ok in Hcheck as (Hcreated & Hin & Hinv1 & _); [|done].
  unfold bind at 1.
  destruct (_ensure_extensions E self db_name st1) as [[[]|e] st2] eqn:Hext;
    [|done].
  apply ensure_extensions_ok in Hext as (Hinv2 & Hserve2 & Hdom & Hall); [|done].
  intros [= <- <-]. rewrite Hdom. split_and!; [done..|].
  destruct (check_or_create_present E db_name template st2)
    as (st3 & Hcheck' & Hinv3 & Hserve3 & Hsrv3); [done|done|by rewrite Hdom|].
  destruct (ensure_extensions_present E self db_name st3) as (st4 & Hext');
    [done|done| |].
  { intros x Hx. unfold installed. rewrite Hsrv3. by apply Hall. }
  exists st4. unfold ensure_database. apply try_reraise_ok.
  rewrite (bind_ok _ _ _ _ _ Hcheck'). unfold bind. by rewrite Hext'.
Qed.

Lemma ensure_database_idempotent_witness :
  (true = true ↔ "osm" ∉ dom (databases (srv started))) ∧
  "osm" ∈ dom (databases (srv first_run.2)) ∧
  mgr_inv first_run.2 ∧
  ∃ st'', ensure_database answering manager "osm" "template1" first_run.2
          = (Ok false, st'').
Proof.
  apply (ensure_database_idempotent answering manager "osm" "template1"
           started true first_run.2).
  - apply started_inv.
  - vm_compute. reflexivity.
Defined.

(** ** Further properties of src/postgres_manager.py *)

(** *** The pool's bookkeeping *)

Lemma getconn_wf st c st1 :
  pool_wf st →
  getconn st = (Ok c, st1) →
  wf_ids st1 ∧
  (conn_id c ∉ used (connection_pool st)) ∧
  used (connection_pool st1) = {[conn_id c]} ∪ used (connection_pool st) ∧
  maxconn (connection_pool st1) = maxconn (connection_pool st) ∧
  (conn_id c ∉ conn_id <$> idle (connection_pool st1)) ∧
  size (used (connection_pool st)) < maxconn (connection_pool st).
Proof.
  intros [(Hcl & Hdb & Hidle & Hmin & Hmax) (Hnd & Hfresh & Hused)].
  unfold getconn. rewrite Hcl.
  destruct (reverse (idle (connection_pool st))) as [|c0 rest] eqn:Hrev.
  - apply (f_equal reverse) in Hrev. rewrite reverse_involutive in Hrev.
    cbn in Hrev. case_bool_decide as Hfull; [done|].
    destruct (connect _ st) as [[c'|e] st'] eqn:Hc; [|done].
    intros [= <- <-]. unfold connect in Hc. case_bool_decide; [|done].
    injection Hc as <- <-. unfold wf_ids. cbn. rewrite Hrev in *. cbn in *.
    assert (next_id st ∉ used (connection_pool st)) as Hnew.
    { intros Hin%Hused. lia. }
    split_and!; [constructor|by intros ? ?%elem_of_nil| |done|done|done
                |by intros ?%elem_of_nil|lia].
    intros id [->%elem_of_singleton|Hin%Hused]%elem_of_union; lia.
  - apply (f_equal reverse) in Hrev. rewrite reverse_involutive in Hrev.
    rewrite reverse_cons in Hrev. intros [= <- <-].
    unfold wf_ids. cbn. rewrite Hrev in *.
    rewrite fmap_app in Hnd. cbn in Hnd.
    apply NoDup_app in Hnd as (Hnd & Hdisj & _).
    destruct (Hfresh c0) as [Hc0 Hlt]; [set_solver|].
    assert (conn_id c0 ∉ conn_id <$> reverse rest) as Hnotin.
    { intros Hin. apply (Hdisj _ Hin). left. }
    rewrite length_app in Hmax. cbn in Hmax.
    split_and!; [done| | |done|done|done|done|lia].
    + intros c Hc. destruct (Hfresh c) as [? ?]; [set_solver|].
      split; [|done]. intros [Heq%elem_of_singleton|?]%elem_of_union; [|done].
      apply Hnotin. rewrite <- Heq. by apply list_elem_of_fmap_2.
    + intros id [->%elem_of_singleton|Hin%Hused]%elem_of_union; lia.
Qed.

(** The state [release_connection] leaves when the pool knows the
    connection. *)
Lemma release_connection_pool c st :
  out_inv (conn_id c) st → closed c = false →
  ∃ st', release_connection c st = (Ok tt, st') ∧
    srv st' = srv st ∧ next_id st' = next_id st ∧
    connection_pool st'
    = set_used (used (connection_pool st) ∖ {[conn_id c]})
        (if bool_decide (length (idle (connection_pool st))
                         < minconn (connection_pool st))
         then set_idle (idle (connection_pool st)
                        ++ [if in_transaction c then set_transaction false [] c else c])
                (connection_pool st)
         else connection_pool st).
Proof.
  intros (Hcl & Hdb & Hidle & Hused & Hmin & Hmax & Hroom) Hopen.
  unfold release_connection, try_except, putconn, bind, emit, modify, get, close,
    rollback. cbn. rewrite Hcl. cbn.
  rewrite bool_decide_eq_true_2 by done. cbn.
  case_bool_decide as Hlt; cbn.
  - rewrite Hopen. destruct (in_transaction c); cbn; by eexists.
  - by eexists.
Qed.

Lemma release_connection_wf c st :
  out_inv (conn_id c) st → wf_ids st → closed c = false →
  (conn_id c ∉ conn_id <$> idle (connection_pool st)) →
  ∃ st', release_connection c st = (Ok tt, st') ∧ wf_ids st' ∧
    S (size (used (connection_pool st'))) = size (used (connection_pool st)) ∧
    maxconn (connection_pool st') = maxconn (connection_pool st).
Proof.
  intros Hout (Hnd & Hfresh & Hlt) Hopen Hnotin.
  destruct (release_connection_pool c st Hout Hopen)
    as (st' & Hrel & Hsrv & Hnext & Hpool).
  destruct Hout as (_ & _ & _ & Hused & _).
  exists st'. split; [done|]. unfold wf_ids. rewrite Hpool, Hnext.
  case_bool_decide; cbn.
  - split_and!; [| | |by apply size_remove|done].
    + rewrite fmap_app. apply NoDup_app. split_and!; [done| |by apply NoDup_singleton].
      intros x Hx [->|[]%elem_of_nil]%elem_of_cons. apply Hnotin.
      by destruct (in_transaction c).
    + intros c0 [Hc0|Hc0%list_elem_of_singleton]%elem_of_app.
      * destruct (Hfresh c0 Hc0). split; [set_solver|done].
      * subst c0. assert (conn_id (if in_transaction c
                                   then set_transaction false [] c else c)
                          = conn_id c) as -> by (by destruct (in_transaction c)).
        split; [set_solver|by apply Hlt].
    + intros id Hid. apply Hlt. set_solver.
  - split_and!; [done| | |by apply size_remove|done].
    + intros c0 Hc0. destruct (Hfresh c0 Hc0). split; [set_solver|done].
    + intros id Hid. apply Hlt. set_solver.
Qed.

Lemma wf_ids_frame st1 st2 :
  connection_pool st2 = connection_pool st1 → next_id st2 = next_id st1 →
  wf_ids st1 → wf_ids st2.
Proof. intros Hp Hn. unfold wf_ids. by rewrite Hp, Hn. Qed.

Lemma get_connection_getconn database st c st1 :
  mgr_inv st →
  get_connection database st = (Ok c, st1) → getconn st = (Ok c, st1).
Proof.
  intros Hinv. unfold get_connection, try_except, bind.
  destruct (getconn st) as [[p|e] st'] eqn:Hget.
  2:{ by destruct (is_psycopg2_Error e). }
  destruct (getconn_leases _ _ _ Hinv Hget) as ((_ & Hopen & _) & _).
  by rewrite Hopen.
Qed.

(** A connection taken from the pool, used, and handed back leaves the
    pool with the slots it had. *)
Lemma lease_and_release database st c st1 st2 c' :
  pool_wf st →
  get_connection database st = (Ok c, st1) →
  connection_pool st2 = connection_pool st1 → next_id st2 = next_id st1 →
  dom (databases (srv st1)) ⊆ dom (databases (srv st2)) →
  conn_id c' = conn_id c → conn_database c' = "postgres" → closed c' = false →
  (in_transaction c' = false → pending c' = []) →
  ∃ st', release_connection c' st2 = (Ok tt, st') ∧
    pool_wf st' ∧ can_serve st' ∧ free st' = free st ∧ srv st' = srv st2.
Proof.
  intros [Hinv Hwf] Hget Hpool Hnext Hdom Hid Hdb Hopen Hpend.
  pose proof (get_connection_getconn _ _ _ _ Hinv Hget) as Hg.
  destruct (getconn_leases _ _ _ Hinv Hg) as (_ & Hout & _).
  destruct (getconn_wf _ _ _ (conj Hinv Hwf) Hg)
    as (Hwf1 & Hnew & Hused & Hmaxc & Hnotin & Hroom).
  assert (out_inv (conn_id c') st2) as Hout2.
  { rewrite Hid. by eapply out_inv_frame; [| |exact Hout]. }
  assert (wf_ids st2) as Hwf2 by (by eapply wf_ids_frame; [| |exact Hwf1]).
  destruct (release_connection_inv c' st2 Hout2 Hdb Hopen Hpend)
    as (st' & Hrel & Hinv' & Hserve' & Hsrv').
  destruct (release_connection_wf c' st2 Hout2 Hwf2 Hopen)
    as (st'' & Hrel' & Hwf' & Hsize & Hmax').
  { by rewrite Hpool, Hid. }
  rewrite Hrel in Hrel'. injection Hrel' as <-.
  exists st'. split; [done|]. split; [by split|]. split; [done|].
  split; [|done].
  unfold free. rewrite Hmax', Hpool, Hmaxc.
  rewrite Hpool, Hused in Hsize.
  rewrite size_union, size_singleton in Hsize by set_solver. lia.
Qed.

Lemma out_inv_mgr_inv id st : out_inv id st → mgr_inv st.
Proof. intros (? & ? & ? & _ & ? & ? & _). by split_and!. Qed.

(** *** execute_sql and the pool *)

Lemma execute_sql_keeps_slots E self db_name query params st r st' :
  pool_wf st →
  execute_sql E self db_name query params st = (Ok r, st') →
  pool_wf st' ∧ can_serve st' ∧ free st' = free st.
Proof.
  intros Hwf Hrun. pose proof Hwf as [Hinv _].
  destruct (get_connection db_name st) as [[conn|e] st1] eqn:Hget.
  2:{ unfold execute_sql, try_except, bind in Hrun. rewrite Hget in Hrun.
      by destruct (is_psycopg2_Error e). }
  destruct (get_connection_leases _ _ _ _ Hinv Hget)
    as ((Hdb & Hopen & Htx & Hpend) & _).
  rewrite (execute_sql_run _ _ _ _ _ _ _ _ Hget) in Hrun. cbn zeta in Hrun.
  assert (conn_id (begun conn) = conn_id conn ∧
          conn_database (begun conn) = "postgres" ∧
          closed (begun conn) = false ∧ pending (begun conn) = [])
    as (Hid & Hdb' & Hopen' & Hpend').
  { unfold begun. by destruct (autocommit conn). }
  destruct (run_query E query params) as [[rows|]|e]; [| |done].
  - match type of Hrun with
    | context [release_connection ?c ?s] =>
        destruct (lease_and_release db_name st conn st1 s c Hwf Hget)
          as (st2 & Hrel & ? & ? & ? & _); [done..|rewrite Hrel in Hrun]
    end.
    by injection Hrun as _ <-.
  - match type of Hrun with
    | context [release_connection ?c ?s] =>
        destruct (lease_and_release db_name st conn st1 s c Hwf Hget)
          as (st2 & Hrel & ? & ? & ? & _);
          [done|done| |done..|rewrite Hrel in Hrun]
    end.
    { cbn [srv set_srv add_event]. by rewrite dom_install. }
    by injection Hrun as _ <-.
Qed.

Lemma failed_query_leaks_connection E self db_name query params st e :
  pool_wf st → can_serve st →
  run_query E query params = Raise e →
  ∃ st', execute_sql E self db_name query params st = (Raise e, st') ∧
    pool_wf st' ∧ S (free st') = free st ∧ srv st' = srv st.
Proof.
  intros Hwf Hserve Hfail. pose proof Hwf as [Hinv _].
  destruct (get_connection_total db_name st Hinv Hserve) as (conn & st1 & Hget).
  pose proof (get_connection_getconn _ _ _ _ Hinv Hget) as Hg.
  destruct (getconn_leases _ _ _ Hinv Hg) as (_ & Hout & Hsrv).
  destruct (getconn_wf _ _ _ Hwf Hg) as (Hwf1 & Hnew & Hused & Hmaxc & _ & Hroom).
  rewrite (execute_sql_run _ _ _ _ _ _ _ _ Hget), Hfail. cbn zeta.
  eexists. split; [done|].
  assert (∀ st2, connection_pool st2 = connection_pool st1 →
                 next_id st2 = next_id st1 → srv st2 = srv st1 →
                 pool_wf st2 ∧ S (free st2) = free st ∧ srv st2 = srv st) as Hany.
  { intros st2 Hp Hn Hs. split; [split|split].
    - apply (out_inv_mgr_inv (conn_id conn)).
      eapply out_inv_frame; [exact Hp| |exact Hout]. by rewrite Hs.
    - by eapply wf_ids_frame; [| |exact Hwf1].
    - unfold free. rewrite Hp, Hmaxc, Hused.
      rewrite size_union, size_singleton by set_solver. lia.
    - congruence. }
  destruct (is_psycopg2_Error e); by apply Hany.
Qed.

(** A pool with no slot left refuses every call. *)
Lemma exhausted_getconn st :
  mgr_inv st → free st = 0 → getconn st = (Raise PoolError, st).
Proof.
  intros (Hcl & Hdb & Hidle & Hmin & Hmax) Hfree. unfold free in Hfree.
  unfold getconn. rewrite Hcl.
  destruct (idle (connection_pool st)) as [|c l] eqn:Hi; [|cbn in Hmax; lia].
  cbn. rewrite bool_decide_eq_true_2; [done|]. cbn in Hmax. lia.
Qed.

Lemma exhausted_get_connection database st :
  mgr_inv st → free st = 0 →
  get_connection database st
  = (Raise PoolError, add_event (Log ERROR "Failed to get connection") st).
Proof.
  intros Hinv Hfree. unfold get_connection, try_except, bind.
  by rewrite exhausted_getconn.
Qed.

(** *** ensure_database and the pool *)

Lemma execute_frame E c s st r st' :
  execute E c s st = (r, st') →
  connection_pool st' = connection_pool st ∧ next_id st' = next_id st.
Proof.
  unfold execute. destruct (closed c); [by intros [= <- <-]|].
  unfold bind, emit, modify, get, lift, raise, ret. cbn.
  destruct s as [d|d t|x|q ps]; cbn.
  - by intros [= <- <-].
  - destruct (autocommit c); cbn; [|by intros [= <- <-]].
    destruct (databases (srv st) !! t); [|by intros [= <- <-]].
    case_bool_decide; by intros [= <- <-].
  - destruct (databases (srv st) !! conn_database c); [|by intros [= <- <-]].
    destruct (_ || _); [by intros [= <- <-]|].
    destruct (bool_decide (x ∈ available (srv st))); [|by intros [= <- <-]].
    destruct (autocommit c); by intros [= <- <-].
  - destruct (run_query E q ps); by intros [= <- <-].
Qed.

Lemma create_extensions_frame E db_name exts : ∀ c st r st',
  create_extensions E db_name exts c st = (r, st') →
  connection_pool st' = connection_pool st ∧ next_id st' = next_id st.
Proof.
  induction exts as [|x exts IH]; intros c st r st'; cbn [create_extensions].
  - by intros [= <- <-].
  - unfold bind at 1.
    destruct (execute E c (CreateExtension x) st) as [[p|e] st1] eqn:Hex.
    + apply execute_frame in Hex as [Hp Hn]. rewrite emit_bind.
      intros [Hp' Hn']%IH. cbn in Hp', Hn'. split; congruence.
    + apply execute_frame in Hex as [Hp Hn]. by intros [= <- <-].
Qed.

Lemma check_or_create_wf E db_name template st created st' :
  pool_wf st →
  check_or_create E db_name template st = (Ok created, st') →
  pool_wf st' ∧ can_serve st' ∧ free st' = free st.
Proof.
  intros Hwf. pose proof Hwf as [Hinv _]. unfold check_or_create. unfold bind at 1.
  destruct (get_connection "postgres" st) as [[c|e] st1] eqn:Hget; [|done].
  destruct (get_connection_leases _ _ _ _ Hinv Hget)
    as ((Hdb & Hopen & Htx & Hpend) & Hout & Hsrv).
  unfold bind at 1. rewrite execute_select by done.
  cbn [fst snd].
  assert (begun (set_autocommit c) = set_autocommit c) as -> by done.
  case_bool_decide as Hin; cbn [fetchone negb].
  - unfold bind at 1. rewrite emit_bind. cbn [ret fst snd]. rewrite emit_bind.
    match goal with
    | |- context [bind (release_connection ?c') _ ?s] =>
        destruct (lease_and_release "postgres" st c st1 s c' Hwf Hget)
          as (st3 & Hrel & ? & ? & ? & _); [done..|]
    end.
    rewrite (bind_ok _ _ _ _ _ Hrel). by intros [= <- <-].
  - unfold bind at 1. rewrite emit_bind. unfold bind at 1.
    destruct (execute E _ _ _) as [[p'|e] st3] eqn:Hex; [|done].
    pose proof (execute_frame _ _ _ _ _ _ Hex) as [Hp3 Hn3].
    apply execute_create_database_ok in Hex as (Hp & _ & Hdom).
    cbn [ret fst snd]. rewrite Hp, emit_bind.
    match goal with
    | |- context [bind (release_connection ?c') _ ?s] =>
        destruct (lease_and_release "postgres" st c st1 s c' Hwf Hget)
          as (st4 & Hrel & ? & ? & ? & _); [done|done| |done..|]
    end.
    { cbn [srv add_event]. rewrite Hdom. set_solver. }
    rewrite (bind_ok _ _ _ _ _ Hrel). by intros [= <- <-].
Qed.

Lemma ensure_extensions_wf E self db_name st st' :
  pool_wf st →
  _ensure_extensions E self db_name st = (Ok tt, st') →
  pool_wf st' ∧ can_serve st' ∧ free st' = free st.
Proof.
  intros Hwf. pose proof Hwf as [Hinv _].
  unfold _ensure_extensions. rewrite try_reraise_ok.
  unfold bind at 1.
  destruct (get_connection db_name st) as [[c|e] st1] eqn:Hget; [|done].
  destruct (get_connection_leases _ _ _ _ Hinv Hget)
    as ((Hdb & Hopen & Htx & Hpend) & Hout & Hsrv).
  unfold bind at 1.
  destruct (create_extensions E db_name (extensions self) c st1)
    as [[c'|e] st2] eqn:Hext; [|done].
  pose proof (create_extensions_frame _ _ _ _ _ _ _ Hext) as [Hp2 Hn2].
  apply create_extensions_ok in Hext
    as (Hid & Hdb' & Hopen' & _ & Hdom & _); [|done].
  unfold bind at 1. rewrite commit_ok by done. rewrite emit_bind.
  match goal with
  | |- context [release_connection ?c0 ?s] =>
      destruct (lease_and_release db_name st c st1 s c0 Hwf Hget)
        as (st4 & Hrel & ? & ? & ? & _); [done|done| |done|cbn; congruence|done..|]
  end.
  { cbn [srv set_srv add_event]. by rewrite dom_install, Hdom. }
  rewrite Hrel. by intros [= <-].
Qed.

Lemma ensure_database_wf E self db_name template st created st' :
  pool_wf st →
  ensure_database E self db_name template st = (Ok created, st') →
  pool_wf st' ∧ can_serve st' ∧ free st' = free st.
Proof.
  intros Hwf. unfold ensure_database. rewrite try_reraise_ok.
  unfold bind at 1.
  destruct (check_or_create E db_name template st) as [[b|e] st1] eqn:Hcheck;
    [|done].
  apply check_or_create_wf in Hcheck as (Hwf1 & _ & Hfree1); [|done].
  unfold bind at 1.
  destruct (_ensure_extensions E self db_name st1) as [[[]|e] st2] eqn:Hext;
    [|done].
  apply ensure_extensions_wf in Hext as (Hwf2 & Hserve2 & Hfree2); [|done].
  intros [= <- <-]. split_and!; [done..|congruence].
Qed.

(** *** Where the extensions go *)

Lemma execute_create_extension_elsewhere E c x st p st' d :
  execute E c (CreateExtension x) st = (Ok p, st') →
  d ≠ conn_database c →
  databases (srv st') !! d = databases (srv st) !! d.
Proof.
  unfold execute. destruct (closed c); [done|].
  unfold bind, emit, modify, get. cbn.
  destruct (databases (srv st) !! conn_database c) as [inst|]; [|done].
  destruct (_ || _); cbn; [by intros [= <- <-]|].
  destruct (bool_decide (x ∈ available (srv st))); [|done].
  destruct (autocommit c); cbn; intros [= <- <-] Hd; cbn; [|done].
  by rewrite lookup_alter_ne.
Qed.

Lemma create_extensions_elsewhere E db_name exts d : ∀ c st c' st',
  create_extensions E db_name exts c st = (Ok c', st') →
  closed c = false →
  d ≠ conn_database c →
  databases (srv st') !! d = databases (srv st) !! d.
Proof.
  induction exts as [|x exts IH]; intros c st c' st'; cbn [create_extensions].
  - by intros [= <- <-].
  - unfold bind at 1.
    destruct (execute E c (CreateExtension x) st) as [[p|e] st1] eqn:Hex; [|done].
    rewrite emit_bind. intros Hrest Hopen Hd.
    pose proof (execute_create_extension_elsewhere _ _ _ _ _ _ d Hex Hd) as H1.
    apply execute_create_extension_ok in Hex as (_ & Hdb & Hopen1 & _).
    apply IH in Hrest; [|done|by rewrite Hdb]. cbn in Hrest. congruence.
Qed.

Lemma ensure_extensions_elsewhere E self db_name st st' d :
  mgr_inv st →
  _ensure_extensions E self db_name st = (Ok tt, st') →
  d ≠ "postgres" →
  databases (srv st') !! d = databases (srv st) !! d.
Proof.
  intros Hinv. unfold _ensure_extensions. rewrite try_reraise_ok.
  unfold bind at 1.
  destruct (get_connection db_name st) as [[c|e] st1] eqn:Hget; [|done].
  destruct (get_connection_leases _ _ _ _ Hinv Hget)
    as ((Hdb & Hopen & Htx & Hpend) & Hout & Hsrv).
  unfold bind at 1.
  destruct (create_extensions E db_name (extensions self) c st1)
    as [[c'|e] st2] eqn:Hext; [|done].
  intros Hrun Hd.
  pose proof (create_extensions_elsewhere _ _ _ d _ _ _ _ Hext Hopen) as Hsame.
  apply create_extensions_ok in Hext as (Hid & Hdb' & Hopen' & _); [|done].
  revert Hrun. unfold bind at 1. rewrite commit_ok by done. rewrite emit_bind.
  match goal with
  | |- context [release_connection ?c0 ?s] =>
      destruct (release_connection_events c0 s) as (st4 & tail & Hrel & _ & _ & Hsrv4)
  end.
  rewrite Hrel. intros [= <-]. rewrite Hsrv4. cbn.
  rewrite lookup_alter_ne by congruence. rewrite Hsame by congruence.
  by rewrite Hsrv.
Qed.

Lemma check_or_create_databases E db_name template st created st' :
  mgr_inv st →
  check_or_create E db_name template st = (Ok created, st') →
  if created
  then ∃ inst, databases (srv st) !! template = Some inst ∧
               databases (srv st') = <[db_name := inst]> (databases (srv st)) ∧
               available (srv st') = available (srv st)
  else srv st' = srv st.
Proof.
  intros Hinv. unfold check_or_create. unfold bind at 1.
  destruct (get_connection "postgres" st) as [[c|e] st1] eqn:Hget; [|done].
  destruct (get_connection_leases _ _ _ _ Hinv Hget)
    as ((Hdb & Hopen & Htx & Hpend) & Hout & Hsrv).
  unfold bind at 1. rewrite execute_select by done.
  cbn [fst snd].
  assert (begun (set_autocommit c) = set_autocommit c) as -> by done.
  case_bool_decide as Hin; cbn [fetchone negb].
  - unfold bind at 1. rewrite emit_bind. cbn [ret fst snd]. rewrite emit_bind.
    match goal with
    | |- context [bind (release_connection ?c0) _ ?s] =>
        destruct (release_connection_events c0 s) as (st4 & tail & Hrel & _ & _ & Hsrv4)
    end.
    rewrite (bind_ok _ _ _ _ _ Hrel). intros [= <- <-]. by rewrite Hsrv4.
  - unfold bind at 1. rewrite emit_bind. unfold bind at 1.
    destruct (execute E _ _ _) as [[p'|e] st3] eqn:Hex; [|done].
    cbn [ret fst snd]. rewrite emit_bind.
    match goal with
    | |- context [bind (release_connection ?c0) _ ?s] =>
        destruct (release_connection_events c0 s) as (st4 & tail & Hrel & _ & _ & Hsrv4)
    end.
    rewrite (bind_ok _ _ _ _ _ Hrel). intros [= <- <-]. rewrite Hsrv4. cbn.
    revert Hex. unfold execute. cbn. unfold bind, emit, modify, get. cbn.
    rewrite Hopen. cbn. rewrite Hsrv.
    destruct (databases (srv st) !! template) as [inst|]; [|done].
    destruct (bool_decide (db_name ∈ dom (databases (srv st)))); [done|].
    cbn. intros [= <- <-]. cbn. rewrite ?Hsrv. by exists inst.
Qed.

(** A call of [ensure_database] that returns has installed every requested
    extension in the maintenance database 'postgres', because
    [_ensure_extensions] works on the pooled connection; the database it was
    asked for holds the extensions of the template when it was just created,
    and the extensions it already had otherwise. *)
Theorem extensions_installed_in_postgres E self db_name template st created st' :
  mgr_inv st → db_name ≠ "postgres" →
  ensure_database E self db_name template st = (Ok created, st') →
  (∀ x, x ∈ extensions self → x ∈ installed st' "postgres") ∧
  installed st' db_name
  = (if created then installed st template else installed st db_name).
Proof.
  intros Hinv Hne. unfold ensure_database. rewrite try_reraise_ok.
  unfold bind at 1.
  destruct (check_or_create E db_name template st) as [[b|e] st1] eqn:Hcheck;
    [|done].
  pose proof (check_or_create_databases _ _ _ _ _ _ Hinv Hcheck) as Hdbs.
  apply check_or_create_ok in Hcheck as (_ & _ & Hinv1 & _); [|done].
  unfold bind at 1.
  destruct (_ensure_extensions E self db_name st1) as [[[]|e] st2] eqn:Hext;
    [|done].
  pose proof (ensure_extensions_elsewhere _ _ _ _ _ db_name Hinv1 Hext Hne) as Hsame.
  apply ensure_extensions_ok in Hext as (_ & _ & _ & Hall); [|done].
  intros [= <- <-]. split; [done|]. unfold installed. rewrite Hsame.
  destruct b.
  - destruct Hdbs as (inst & -> & -> & _). by rewrite lookup_insert_eq.
  - by rewrite Hdbs.
Qed.

(** *** A failure after the database was created *)

Lemma create_extensions_unavailable E db_name x exts : ∀ c st,
  closed c = false →
  x ∈ exts →
  x ∉ available (srv st) →
  x ∉ installed st (conn_database c) →
  x ∉ pending c →
  ∃ st', create_extensions E db_name exts c st = (Raise OperationalError, st') ∧
    dom (databases (srv st')) = dom (databases (srv st)).
Proof.
  induction exts as [|y exts IH]; intros c st Hopen Hin Hav Hinst Hpend.
  { by apply elem_of_nil in Hin. }
  cbn [create_extensions]. unfold bind at 1.
  destruct (execute E c (CreateExtension y) st) as [[p|e] st1] eqn:Hex.
  - rewrite emit_bind.
    assert (x ≠ y) as Hxy.
    { intros <-. revert Hex. unfold execute. rewrite Hopen.
      unfold bind, emit, modify, get, installed in *. cbn.
      destruct (databases (srv st) !! conn_database c) as [inst|]; [|done].
      cbn in Hinst. rewrite !bool_decide_eq_false_2 by done. done. }
    apply elem_of_cons in Hin as [?|Hin]; [done|].
    assert (available (srv st1) = available (srv st) ∧
            (x ∉ installed st1 (conn_database c)) ∧ (x ∉ pending p.1)) as (Hav1 & Hinst1 & Hpend1).
    { revert Hex. unfold execute. rewrite Hopen.
      unfold bind, emit, modify, get, installed in *. cbn.
      destruct (databases (srv st) !! conn_database c) as [inst|] eqn:Hdb; [|done].
      destruct (_ || _); cbn.
      - intros [= <- <-]. cbn. rewrite Hdb. split_and!; [done..|].
        unfold begun. by destruct (autocommit c).
      - destruct (bool_decide (y ∈ available (srv st))); [|done].
        destruct (autocommit c); cbn; intros [= <- <-]; cbn.
        + rewrite lookup_alter_eq, Hdb. cbn in *. split_and!; [done| |done].
          set_solver.
        + rewrite Hdb. split_and!; [done..|]. set_solver. }
    apply execute_create_extension_ok in Hex as (_ & Hdb & Hopen1 & _ & Hdom & _).
    destruct (IH p.1 (add_event (Log INFO "Ensured extension") st1))
      as (st' & -> & Hdom'); [done|done|by rewrite <- Hav1 in Hav| |done|].
    { by rewrite Hdb. }
    exists st'. split; [done|]. rewrite Hdom'. cbn. done.
  - exists st1. revert Hex. unfold execute. rewrite Hopen.
    unfold bind, emit, modify, get. cbn.
    destruct (databases (srv st) !! conn_database c) as [inst|]; [|by intros [= <- <-]].
    destruct (_ || _); cbn; [done|].
    destruct (bool_decide (y ∈ available (srv st))); [|by intros [= <- <-]].
    by destruct (autocommit c).
Qed.

Lemma check_or_create_absent E db_name template st :
  mgr_inv st → can_serve st →
  db_name ∉ dom (databases (srv st)) →
  template ∈ dom (databases (srv st)) →
  ∃ st', check_or_create E db_name template st = (Ok true, st').
Proof.
  intros Hinv Hserve Hout [inst Ht]%elem_of_dom.
  destruct (get_connection_total "postgres" _ Hinv Hserve) as (c & st1 & Hget).
  destruct (get_connection_leases _ _ _ _ Hinv Hget)
    as ((Hdb & Hopen & Htx & Hpend) & _ & Hsrv).
  unfold check_or_create. rewrite (bind_ok _ _ _ _ _ Hget).
  unfold bind at 1. rewrite execute_select by done.
  cbn [fst snd]. rewrite Hsrv, bool_decide_eq_false_2 by done.
  assert (begun (set_autocommit c) = set_autocommit c) as -> by done.
  cbn [fetchone negb]. unfold bind at 1. rewrite emit_bind.
  unfold bind at 1. unfold execute at 1. cbn [closed set_autocommit].
  rewrite Hopen. rewrite emit_bind. unfold bind at 1, get at 1.
  cbn [autocommit set_autocommit negb srv add_event].
  rewrite Hsrv, Ht, bool_decide_eq_false_2 by done.
  unfold bind at 1, modify at 1. cbn [ret fst snd]. rewrite emit_bind.
  match goal with
  | |- context [bind (release_connection ?c0) _ ?s] =>
      destruct (release_connection_events c0 s) as (st4 & tail & Hrel & _)
  end.
  rewrite (bind_ok _ _ _ _ _ Hrel). by exists st4.
Qed.

(** [ensure_database] is not atomic: when the database is missing and one
    of the requested extensions can be installed neither from the server
    nor is there already, the call raises [OperationalError], and the
    database it created in autocommit mode stays. *)
Theorem failed_extension_leaves_database E self db_name template x st :
  mgr_inv st → can_serve st →
  db_name ≠ "postgres" →
  db_name ∉ dom (databases (srv st)) →
  template ∈ dom (databases (srv st)) →
  x ∈ extensions self →
  x ∉ available (srv st) →
  x ∉ installed st "postgres" →
  ∃ st', ensure_database E self db_name template st = (Raise OperationalError, st') ∧
    db_name ∈ dom (databases (srv st')).
Proof.
  intros Hinv Hserve Hne Hout Ht Hx Hav Hinst.
  destruct (check_or_create_absent E db_name template st Hinv Hserve Hout Ht)
    as (st1 & Hcheck).
  pose proof (check_or_create_databases _ _ _ _ _ _ Hinv Hcheck)
    as (inst & _ & Hdbs & Hav1).
  destruct (check_or_create_ok _ _ _ _ _ _ Hinv Hcheck)
    as (_ & Hin1 & Hinv1 & Hserve1).
  destruct (get_connection_total db_name _ Hinv1 Hserve1) as (c & st2 & Hget).
  destruct (get_connection_leases _ _ _ _ Hinv1 Hget)
    as ((Hdb & Hopen & Htx & Hpend) & _ & Hsrv2).
  destruct (create_extensions_unavailable E db_name x (extensions self) c st2)
    as (st3 & Hext & Hdom3); [done|done|by rewrite Hsrv2, Hav1| |by rewrite Hpend; apply not_elem_of_nil|].
  { rewrite Hdb. unfold installed in *. rewrite Hsrv2, Hdbs.
    by rewrite lookup_insert_ne. }
  eexists. split.
  - unfold ensure_database, try_except. rewrite (bind_ok _ _ _ _ _ Hcheck).
    unfold bind at 1. unfold _ensure_extensions, try_except.
    rewrite (bind_ok _ _ _ _ _ Hget). unfold bind at 1. rewrite Hext.
    reflexivity.
  - cbn. by rewrite Hdom3, Hsrv2.
Qed.

(** *** _init_connection_pool *)

Lemma open_idle_ids database : ∀ n st cs st',
  open_idle n database st = (Ok cs, st') →
  conn_id <$> cs = seq (next_id st) n ∧ next_id st' = next_id st + n ∧
  ∃ evs, events st' = events st ++ evs ∧
         evs = (λ i, Connect i database) <$> seq (next_id st) n.
Proof.
  induction n as [|n IH]; intros st cs st'; cbn [open_idle].
  - intros [= <- <-]. split_and!; [done|lia|]. exists []. by rewrite app_nil_r.
  - unfold bind at 1.
    destruct (connect database st) as [[c|e] st1] eqn:Hc; [|done].
    unfold connect in Hc. case_bool_decide; [|done]. injection Hc as <- <-.
    unfold bind at 1.
    destruct (open_idle n database _) as [[cs'|e] st2] eqn:Hrest; [|done].
    apply IH in Hrest as (Hids & Hnext & evs & Hev & ->). cbn in *.
    intros [= <- <-]. cbn. rewrite Hids, Hnext. split_and!; [done|lia|].
    eexists. split; [|done]. by rewrite Hev, <- app_assoc.
Qed.

Lemma open_idle_total database : ∀ n st,
  database ∈ dom (databases (srv st)) →
  ∃ cs st', open_idle n database st = (Ok cs, st').
Proof.
  induction n as [|n IH]; intros st Hin; cbn [open_idle]; [by eexists _, _|].
  unfold bind at 1, connect. rewrite bool_decide_eq_true_2 by done.
  match goal with
  | |- context [bind (open_idle n database) _ ?s] =>
      destruct (IH s) as (cs & st' & Hrest); [done|]
  end.
  unfold bind. rewrite Hrest. by eexists _, _.
Qed.

Lemma open_idle_unreachable database n st :
  database ∉ dom (databases (srv st)) →
  open_idle (S n) database st = (Raise OperationalError, st).
Proof.
  intros Hout. cbn [open_idle]. unfold bind, connect.
  by rewrite bool_decide_eq_false_2.
Qed.

Lemma init_connection_pool_ok min_conn max_conn st :
  min_conn ≤ max_conn →
  "postgres" ∈ dom (databases (srv st)) →
  ∃ st', _init_connection_pool min_conn max_conn st = (Ok tt, st') ∧
    pool_wf st' ∧ pooled_to_postgres st' ∧
    length (idle (connection_pool st')) = min_conn ∧
    free st' = max_conn ∧
    srv st' = srv st ∧
    events st' = events st
                 ++ ((λ i, Connect i "postgres") <$> seq (next_id st) min_conn)
                 ++ [Log INFO "Initialized connection pool"].
Proof.
  intros Hle Hin.
  destruct (open_idle_total "postgres" min_conn st Hin) as (cs & st1 & Hopen).
  destruct (init_connection_pool_inv min_conn max_conn st
              (add_event (Log INFO "Initialized connection pool")
                 (set_pool {| minconn := min_conn; maxconn := max_conn;
                              pool_database := "postgres"; idle := cs;
                              used := ∅; pool_closed := false |} st1)))
    as (Hinv & Hpg & Hsrv); [done| |].
  { unfold _init_connection_pool, try_except, bind. by rewrite Hopen. }
  pose proof (open_idle_ok _ _ _ _ _ Hopen) as (Hlen & _ & _).
  pose proof (open_idle_ids _ _ _ _ _ Hopen) as (Hids & Hnext & evs & Hev & ->).
  eexists. split.
  { unfold _init_connection_pool, try_except, bind. by rewrite Hopen. }
  split; [split; [done|]|].
  - unfold wf_ids. cbn. rewrite Hids, Hnext. split_and!.
    + apply NoDup_seq.
    + intros c Hc. split; [set_solver|].
      assert (conn_id c ∈ seq (next_id st) min_conn) as Hs.
      { rewrite <- Hids. by apply list_elem_of_fmap_2. }
      apply elem_of_seq in Hs. lia.
    + set_solver.
  - split_and!; [done|done| |done|].
    + unfold free. cbn. rewrite size_empty. lia.
    + cbn. by rewrite Hev, <- app_assoc.
Qed.

Lemma started_wf : pool_wf started ∧ can_serve started ∧ free started = 5.
Proof.
  destruct (init_connection_pool_ok 1 5 initial) as (st' & Hrun & Hwf & _ & Hlen & Hfree & _);
    [lia|by vm_compute|].
  assert (st' = started) as -> by (unfold started; by rewrite Hrun).
  split_and!; [done| |done]. left. intros Hnil. by rewrite Hnil in Hlen.
Qed.

(** [_init_connection_pool] with [min_conn <= max_conn]: when 'postgres' can
    be reached it opens exactly [min_conn] connections to it, keeps them
    idle, logs, and leaves a pool with [max_conn] free slots that satisfies
    the invariant; when 'postgres' cannot be reached it raises
    [OperationalError] after logging, unless [min_conn] is 0, in which
    case nothing is opened and the failure goes unnoticed. *)
Theorem init_connection_pool_spec min_conn max_conn st :
  min_conn ≤ max_conn →
  ("postgres" ∈ dom (databases (srv st)) →
   ∃ st', _init_connection_pool min_conn max_conn st = (Ok tt, st') ∧
     pool_wf st' ∧ pooled_to_postgres st' ∧
     length (idle (connection_pool st')) = min_conn ∧
     free st' = max_conn ∧
     srv st' = srv st ∧
     events st' = events st
                  ++ ((λ i, Connect i "postgres") <$> seq (next_id st) min_conn)
                  ++ [Log INFO "Initialized connection pool"]) ∧
  ("postgres" ∉ dom (databases (srv st)) →
   _init_connection_pool min_conn max_conn st
   = if decide (min_conn = 0)
     then (Ok tt, add_event (Log INFO "Initialized connection pool")
                    (set_pool {| minconn := 0; maxconn := max_conn;
                                 pool_database := "postgres"; idle := [];
                                 used := ∅; pool_closed := false |} st))
     else (Raise OperationalError,
           add_event (Log ERROR "Failed to initialize connection pool") st)).
Proof.
  intros Hle. split; [by apply init_connection_pool_ok|].
  intros Hout. unfold _init_connection_pool, try_except.
  destruct min_conn as [|n]; cbn [decide_rel]; [done|].
  unfold bind at 1. by rewrite open_idle_unreachable.
Qed.

(** *** release_connection *)

(** [release_connection] never raises, whatever the connection and the
    state of the pool, and leaves the server alone.  When the pool is closed
    or did not hand the connection out, it logs a warning, closes the
    connection and leaves the pool as it was. *)
Theorem release_connection_never_raises c st :
  ∃ st' tail, release_connection c st = (Ok tt, st') ∧
    srv st' = srv st ∧
    events st' = events st ++ Putconn (conn_id c) :: tail ∧
    (pool_closed (connection_pool st) = true ∨
     conn_id c ∉ used (connection_pool st) →
     tail = [Log WARNING "Error releasing connection"; Close (conn_id c)] ∧
     connection_pool st' = connection_pool st).
Proof.
  unfold release_connection, try_except, putconn, bind, emit, modify, get, close,
    rollback. cbn.
  destruct (pool_closed _) eqn:Hcl; cbn.
  { eexists _, _. split; [done|]. cbn. rewrite <- !app_assoc. by split_and!. }
  case_bool_decide as Hin; cbn.
  2:{ eexists _, _. split; [done|]. cbn. rewrite <- !app_assoc. by split_and!. }
  case_bool_decide; cbn.
  - destruct (closed c); cbn.
    + eexists _, _. split; [done|]. cbn. split_and!; [done..|].
      by intros [?|?].
    + destruct (in_transaction c); cbn.
      * eexists _, _. split; [done|]. cbn. rewrite <- !app_assoc.
        split_and!; [done..|]. by intros [?|?].
      * eexists _, _. split; [done|]. cbn. split_and!; [done..|].
        by intros [?|?].
  - eexists _, _. split; [done|]. cbn. rewrite <- !app_assoc.
    split_and!; [done..|]. by intros [?|?].
Qed.

(** *** A pool with no slot left *)

(** With no free slot left in the pool, [execute_sql] and [ensure_database]
    raise [PoolError] at once: nothing is sent to the server, and the two
    error messages are all that is logged. *)
Theorem exhausted_pool_refuses E self db_name template query params st :
  mgr_inv st → free st = 0 →
  execute_sql E self db_name query params st
  = (Raise PoolError,
     add_event (Log ERROR "SQL execution failed")
       (add_event (Log ERROR "Failed to get connection") st)) ∧
  ensure_database E self db_name template st
  = (Raise PoolError,
     add_event (Log ERROR "Error ensuring database")
       (add_event (Log ERROR "Failed to get connection") st)).
Proof.
  intros Hinv Hfree. split.
  - unfold execute_sql, try_except. unfold bind at 1.
    by rewrite exhausted_get_connection.
  - unfold ensure_database, try_except. unfold bind at 1.
    unfold check_or_create. unfold bind at 1.
    by rewrite exhausted_get_connection.
Qed.

(** *** close and the with block *)

Lemma close_each cs : ∀ st,
  ∃ st', for_each cs close st = (Ok tt, st') ∧
    srv st' = srv st ∧ connection_pool st' = connection_pool st.
Proof.
  induction cs as [|c cs IH]; intros st; cbn [for_each]; [by eexists|].
  unfold bind at 1.
  change (close c st) with (Ok tt, add_event (Close (conn_id c)) st).
  destruct (IH (add_event (Close (conn_id c)) st)) as (st' & -> & ? & ?).
  by exists st'.
Qed.

Lemma close_ids ids : ∀ st,
  ∃ st', for_each ids (λ id, emit (Close id)) st = (Ok tt, st') ∧
    srv st' = srv st ∧ connection_pool st' = connection_pool st.
Proof.
  induction ids as [|id ids IH]; intros st; cbn [for_each]; [by eexists|].
  unfold bind at 1.
  change (emit (Close id) st) with (Ok tt, add_event (Close id) st).
  destruct (IH (add_event (Close id) st)) as (st' & -> & ? & ?).
  by exists st'.
Qed.

Lemma manager_close_open st :
  pool_closed (connection_pool st) = false →
  ∃ st', manager_close st = (Ok tt, st') ∧ srv st' = srv st ∧
    connection_pool st' = set_pool_closed (connection_pool st).
Proof.
  intros Hcl. unfold manager_close, closeall.
  unfold bind at 1. unfold bind at 1, get at 1. rewrite Hcl.
  destruct (close_each (idle (connection_pool st)) st) as (st1 & H1 & Hs1 & Hp1).
  unfold bind at 1. rewrite H1.
  destruct (close_ids (elements (used (connection_pool st))) st1)
    as (st2 & H2 & Hs2 & Hp2).
  unfold bind at 1. rewrite H2. unfold modify, emit. cbn.
  eexists. split; [done|]. cbn. split; congruence.
Qed.

Lemma manager_close_closed st :
  pool_closed (connection_pool st) = true →
  manager_close st = (Raise PoolError, st).
Proof.
  intros Hcl. unfold manager_close, closeall, bind, get. by rewrite Hcl.
Qed.

Lemma closed_get_connection database st :
  pool_closed (connection_pool st) = true →
  get_connection database st
  = (Raise PoolError, add_event (Log ERROR "Failed to get connection") st).
Proof.
  intros Hcl. unfold get_connection, try_except, bind, getconn. by rewrite Hcl.
Qed.

(** After [close], the manager is unusable: [get_connection], [execute_sql]
    and [ensure_database] raise [PoolError]; [optimize_postgis_settings]
    swallows that error and returns without having sent a statement; and
    a second [close] raises [PoolError] itself. *)
Theorem closed_manager_refuses E self db_name template query params st :
  pool_closed (connection_pool st) = false →
  ∃ st', manager_close st = (Ok tt, st') ∧
    srv st' = srv st ∧
    (∀ database, (get_connection database st').1 = Raise PoolError) ∧
    (execute_sql E self db_name query params st').1 = Raise PoolError ∧
    (ensure_database E self db_name template st').1 = Raise PoolError ∧
    (optimize_postgis_settings E self db_name st').1 = Ok tt ∧
    queries_of (events (optimize_postgis_settings E self db_name st').2)
    = queries_of (events st') ∧
    (manager_close st').1 = Raise PoolError.
Proof.
  intros Hcl. destruct (manager_close_open st Hcl) as (st' & Hclose & Hsrv & Hpool).
  assert (pool_closed (connection_pool st') = true) as Hcl' by (by rewrite Hpool).
  exists st'. split_and!; [done|done| | | | | |].
  - intros d. by rewrite closed_get_connection.
  - unfold execute_sql, try_except. unfold bind at 1.
    by rewrite closed_get_connection.
  - unfold ensure_database, try_except. unfold bind at 1.
    unfold check_or_create. unfold bind at 1.
    by rewrite closed_get_connection.
  - unfold optimize_postgis_settings, try_except. unfold bind at 1.
    cbn [settings for_each]. unfold bind at 1. unfold bind at 1.
    unfold execute_sql at 1, try_except. unfold bind at 1.
    by rewrite closed_get_connection.
  - unfold optimize_postgis_settings, try_except. unfold bind at 1.
    cbn [settings for_each]. unfold bind at 1. unfold bind at 1.
    unfold execute_sql at 1, try_except. unfold bind at 1.
    rewrite closed_get_connection by done. cbn.
    unfold queries_of. by rewrite !omap_app, !app_nil_r.
  - by rewrite manager_close_closed.
Qed.

(** The [with] block closes the pool on the way out, whether the body
    returned or raised, and lets the body's outcome through.  If the body
    closed the manager itself, leaving the block raises [PoolError], even
    when the body returned normally. *)
Theorem with_manager_closes_pool {A} (body : M state A) st :
  (pool_closed (connection_pool (body st).2) = false →
   ∃ st', with_manager body st = ((body st).1, st') ∧
     pool_closed (connection_pool st') = true ∧
     srv st' = srv (body st).2) ∧
  (pool_closed (connection_pool (body st).2) = true →
   with_manager body st = (Raise PoolError, (body st).2)).
Proof.
  unfold with_manager. destruct (body st) as [r st1]. cbn. split; intros Hcl.
  - destruct (manager_close_open st1 Hcl) as (st' & -> & Hsrv & Hpool).
    exists st'. split_and!; [done| |done]. by rewrite Hpool.
  - by rewrite manager_close_closed.
Qed.

(** *** optimize_postgis_settings *)

Lemma queries_of_app evs1 evs2 :
  queries_of (evs1 ++ evs2) = queries_of evs1 ++ queries_of evs2.
Proof. apply omap_app. Qed.

Lemma get_connection_queries database st r st1 :
  get_connection database st = (r, st1) →
  queries_of (events st1) = queries_of (events st).
Proof.
  unfold get_connection, try_except, bind, getconn.
  destruct (pool_closed _).
  { intros [= <- <-]. cbn. by rewrite queries_of_app, app_nil_r. }
  destruct (reverse _) as [|c rest].
  - case_bool_decide.
    { intros [= <- <-]. cbn. by rewrite queries_of_app, app_nil_r. }
    unfold connect. case_bool_decide; cbn.
    + intros [= <- <-]. cbn. by rewrite !queries_of_app, !app_nil_r.
    + intros [= <- <-]. cbn. by rewrite queries_of_app, app_nil_r.
  - destruct (closed c).
    + unfold connect. cbn. case_bool_decide; cbn.
      * intros [= <- <-]. cbn. by rewrite !queries_of_app, !app_nil_r.
      * intros [= <- <-]. cbn. by rewrite !queries_of_app, !app_nil_r.
    + intros [= <- <-]. cbn. by rewrite queries_of_app, app_nil_r.
Qed.

Lemma release_connection_queries c st :
  queries_of (events (release_connection c st).2) = queries_of (events st).
Proof.
  unfold release_connection, try_except, putconn, bind, emit, modify, get, close,
    rollback. cbn.
  destruct (pool_closed _); cbn.
  { by rewrite !queries_of_app, !app_nil_r. }
  case_bool_decide; cbn.
  2:{ by rewrite !queries_of_app, !app_nil_r. }
  case_bool_decide; cbn.
  - destruct (closed c); cbn; [by rewrite !queries_of_app, !app_nil_r|].
    destruct (in_transaction c); cbn; by rewrite !queries_of_app, !app_nil_r.
  - by rewrite !queries_of_app, !app_nil_r.
Qed.

Lemma execute_sql_queries E self db_name query params st conn st1 :
  get_connection db_name st = (Ok conn, st1) →
  queries_of (events (execute_sql E self db_name query params st).2)
  = queries_of (events st) ++ [(query, params)].
Proof.
  intros Hget. rewrite (execute_sql_run _ _ _ _ _ _ _ _ Hget). cbn zeta.
  pose proof (get_connection_queries _ _ _ _ Hget) as Hq.
  destruct (run_query E query params) as [[rows|]|e]; cbn [snd].
  - rewrite release_connection_queries. cbn.
    by rewrite !queries_of_app, Hq, app_nil_r.
  - rewrite release_connection_queries. cbn.
    by rewrite !queries_of_app, Hq, !app_nil_r.
  - destruct (is_psycopg2_Error e); cbn;
      by rewrite !queries_of_app, Hq, ?app_nil_r.
Qed.

Lemma execute_sql_accepts E self db_name query params st :
  pool_wf st → can_serve st →
  is_ok (run_query E query params) = true →
  ∃ r st', execute_sql E self db_name query params st = (Ok r, st') ∧
    pool_wf st' ∧ can_serve st' ∧ free st' = free st ∧
    queries_of (events st') = queries_of (events st) ++ [(query, params)].
Proof.
  intros Hwf Hserve Hok. pose proof Hwf as [Hinv _].
  destruct (get_connection_total db_name st Hinv Hserve) as (conn & st1 & Hget).
  pose proof (execute_sql_queries E self db_name query params _ _ _ Hget) as Hq.
  destruct (execute_sql E self db_name query params st) as [[r|e] st'] eqn:Hrun.
  - destruct (execute_sql_keeps_slots _ _ _ _ _ _ _ _ Hwf Hrun) as (? & ? & ?).
    by exists r, st'.
  - rewrite (execute_sql_run _ _ _ _ _ _ _ _ Hget) in Hrun. cbn zeta in Hrun.
    by destruct (run_query E query params) as [[rows|]|e'].
Qed.

(** The statements [optimize_postgis_settings] sends, in order. *)
Lemma alter_loop E self db_name done_ : ∀ st,
  pool_wf st → can_serve st →
  Forall (λ s, is_ok (run_query E (alter_system s.1) [s.2]) = true) done_ →
  ∀ rest,
  ∃ st1, for_each (done_ ++ rest)
           (λ s, let* _ := execute_sql E self db_name (alter_system s.1) [s.2] in
                 ret tt) st
         = for_each rest
             (λ s, let* _ := execute_sql E self db_name (alter_system s.1) [s.2] in
                   ret tt) st1 ∧
    pool_wf st1 ∧ can_serve st1 ∧ free st1 = free st ∧
    queries_of (events st1)
    = queries_of (events st) ++ ((λ s, (alter_system s.1, [s.2])) <$> done_).
Proof.
  induction done_ as [|s done_ IH]; intros st Hwf Hserve Hall rest.
  { exists st. by rewrite app_nil_r. }
  apply Forall_cons in Hall as [Hs Hall].
  destruct (execute_sql_accepts E self db_name _ _ st Hwf Hserve Hs)
    as (r & st1 & Hrun & Hwf1 & Hserve1 & Hfree1 & Hq1).
  destruct (IH st1 Hwf1 Hserve1 Hall rest) as (st2 & Hloop & ? & ? & ? & Hq2).
  exists st2. split_and!; [|done|done|congruence|].
  - cbn [app for_each]. unfold bind at 1. unfold bind at 1. by rewrite Hrun.
  - rewrite Hq2, Hq1, <- app_assoc. done.
Qed.

(** When the server accepts all six settings, [optimize_postgis_settings]
    sends the six ALTER SYSTEM statements in the order of the dictionary,
    each with its value as the only parameter, logs its success last, and
    hands back every connection it took. *)
Theorem optimize_all_accepted E self db_name st :
  pool_wf st → can_serve st →
  Forall (λ s, is_ok (run_query E (alter_system s.1) [s.2]) = true) settings →
  ∃ st', optimize_postgis_settings E self db_name st = (Ok tt, st') ∧
    queries_of (events st')
    = queries_of (events st) ++ ((λ s, (alter_system s.1, [s.2])) <$> settings) ∧
    last (events st') = Some (Log INFO "Optimized PostGIS settings") ∧
    pool_wf st' ∧ can_serve st' ∧ free st' = free st.
Proof.
  intros Hwf Hserve Hall.
  destruct (alter_loop E self db_name settings st Hwf Hserve Hall [])
    as (st1 & Hloop & Hwf1 & Hserve1 & Hfree1 & Hq1).
  rewrite app_nil_r in Hloop. cbn [for_each] in Hloop.
  exists (add_event (Log INFO "Optimized PostGIS settings") st1).
  split_and!; [|..].
  - unfold optimize_postgis_settings, try_except. unfold bind at 1.
    by rewrite Hloop.
  - cbn. by rewrite queries_of_app, Hq1, app_nil_r.
  - cbn. by rewrite last_snoc.
  - done.
  - done.
  - done.
Qed.

(** [optimize_postgis_settings] stops at the first setting the server
    rejects: the statements sent are those up to and including it.  A
    [psycopg2.Error] is swallowed with a warning and the call returns; any
    other exception is raised.  Either way the connection of the rejected
    statement is not handed back to the pool. *)
Theorem optimize_stops_at_first_failure E self db_name done_ s rest e st :
  pool_wf st → can_serve st →
  settings = done_ ++ s :: rest →
  Forall (λ s, is_ok (run_query E (alter_system s.1) [s.2]) = true) done_ →
  run_query E (alter_system s.1) [s.2] = Raise e →
  ∃ st', optimize_postgis_settings E self db_name st
         = ((if is_psycopg2_Error e then Ok tt else Raise e), st') ∧
    queries_of (events st')
    = queries_of (events st)
      ++ ((λ s, (alter_system s.1, [s.2])) <$> (done_ ++ [s])) ∧
    S (free st') = free st ∧
    (is_psycopg2_Error e = true →
     last (events st') = Some (Log WARNING "Could not optimize settings")).
Proof.
  intros Hwf Hserve Hsplit Hall Hfail.
  destruct (alter_loop E self db_name done_ st Hwf Hserve Hall (s :: rest))
    as (st1 & Hloop & Hwf1 & Hserve1 & Hfree1 & Hq1).
  destruct (failed_query_leaks_connection E self db_name _ _ st1 e Hwf1 Hserve1 Hfail)
    as (st2 & Hrun & Hwf2 & Hfree2 & _).
  pose proof Hwf1 as [Hinv1 _].
  destruct (get_connection_total db_name st1 Hinv1 Hserve1) as (conn & st1' & Hget).
  pose proof (execute_sql_queries E self db_name (alter_system s.1) [s.2] _ _ _ Hget)
    as Hq2.
  rewrite Hrun in Hq2. cbn [snd] in Hq2.
  assert (queries_of (events st2)
          = queries_of (events st)
            ++ ((λ s, (alter_system s.1, [s.2])) <$> (done_ ++ [s]))) as Hq.
  { rewrite Hq2, Hq1, fmap_app, <- app_assoc. done. }
  unfold optimize_postgis_settings, try_except. unfold bind at 1.
  rewrite Hsplit, Hloop. cbn [for_each]. unfold bind at 1. unfold bind at 1.
  rewrite Hrun. destruct (is_psycopg2_Error e); eexists; (split; [done|]).
  - cbn. rewrite queries_of_app, Hq, app_nil_r.
    split_and!; [done|unfold free in *; cbn; lia|]. intros _. by rewrite last_snoc.
  - split_and!; [done|unfold free in *; cbn; lia|done].
Qed.

Lemma init_connection_pool_spec_witness :
  ("postgres" ∈ dom (databases (srv initial)) →
   ∃ st', _init_connection_pool 1 5 initial = (Ok tt, st') ∧
     pool_wf st' ∧ pooled_to_postgres st' ∧
     length (idle (connection_pool st')) = 1 ∧
     free st' = 5 ∧
     srv st' = srv initial ∧
     events st' = events initial
                  ++ ((λ i, Connect i "postgres") <$> seq (next_id initial) 1)
                  ++ [Log INFO "Initialized connection pool"]) ∧
  ("postgres" ∉ dom (databases (srv initial)) →
   _init_connection_pool 1 5 initial
   = if decide (1 = 0)
     then (Ok tt, add_event (Log INFO "Initialized connection pool")
                    (set_pool {| minconn := 0; maxconn := 5;
                                 pool_database := "postgres"; idle := [];
                                 used := ∅; pool_closed := false |} initial))
     else (Raise OperationalError,
           add_event (Log ERROR "Failed to initialize connection pool") initial)).
Proof. apply (init_connection_pool_spec 1 5 initial). lia. Defined.

(** A call of [execute_sql] or [ensure_database] that returns leaves the
    pool with the free slots it had, and satisfying its invariant: every
    connection taken was handed back. *)
Theorem successful_calls_return_connection
    E self db_name template query params st :
  pool_wf st →
  (∀ r st', execute_sql E self db_name query params st = (Ok r, st') →
            pool_wf st' ∧ can_serve st' ∧ free st' = free st) ∧
  (∀ created st', ensure_database E self db_name template st = (Ok created, st') →
            pool_wf st' ∧ can_serve st' ∧ free st' = free st).
Proof.
  intros Hwf. split.
  - intros r st'. by apply execute_sql_keeps_slots.
  - intros created st'. by apply ensure_database_wf.
Qed.

Lemma successful_calls_return_connection_witness :
  (∀ r st', execute_sql answering manager "osm" "SELECT 1;" [] started = (Ok r, st') →
            pool_wf st' ∧ can_serve st' ∧ free st' = free started) ∧
  (∀ created st', ensure_database answering manager "osm" "template1" started
                  = (Ok created, st') →
            pool_wf st' ∧ can_serve st' ∧ free st' = free started).
Proof.
  apply (successful_calls_return_connection answering manager "osm" "template1"
           "SELECT 1;" [] started).
  apply started_wf.
Defined.

(** A query the server rejects costs the pool a slot: [execute_sql] raises
    what the query raised without releasing the connection, so there is
    one free slot less afterwards. *)
Theorem failed_query_keeps_connection E self db_name query params st e :
  pool_wf st → can_serve st →
  run_query E query params = Raise e →
  ∃ st', execute_sql E self db_name query params st = (Raise e, st') ∧
    pool_wf st' ∧ S (free st') = free st ∧ srv st' = srv st.
Proof. apply failed_query_leaks_connection. Qed.

Lemma failed_query_keeps_connection_witness :
  ∃ st', execute_sql failing manager "osm" "SELECT 1;" [] started
         = (Raise OperationalError, st') ∧
    pool_wf st' ∧ S (free st') = free started ∧ srv st' = srv started.
Proof.
  apply (failed_query_keeps_connection failing manager "osm" "SELECT 1;" []
           started OperationalError).
  - apply started_wf.
  - apply started_wf.
  - reflexivity.
Defined.

Lemma fail_times_spec n : ∀ st,
  pool_wf st → n ≤ free st → "postgres" ∈ dom (databases (srv st)) →
  pool_wf (fail_times n st) ∧ free (fail_times n st) + n = free st.
Proof.
  induction n as [|n IH]; intros st Hwf Hn Hpg; cbn [fail_times]; [split; [done|lia]|].
  assert (can_serve st) as Hserve.
  { right. split; [|done]. unfold free in Hn. lia. }
  destruct (failed_query_leaks_connection failing manager "osm" "SELECT 1;" [] st
              OperationalError Hwf Hserve eq_refl) as (st' & -> & Hwf' & Hfree & Hsrv).
  cbn [snd]. destruct (IH st' Hwf') as [? ?]; [lia|by rewrite Hsrv|].
  split; [done|lia].
Qed.

Lemma exhausted_inv : mgr_inv exhausted ∧ free exhausted = 0.
Proof.
  destruct started_wf as (Hwf & _ & Hfree).
  destruct (fail_times_spec 5 started Hwf) as [[? _] ?]; [lia|by vm_compute|].
  split; [done|]. unfold exhausted. lia.
Qed.

Lemma exhausted_pool_refuses_witness :
  execute_sql answering manager "osm" "SELECT 1;" [] exhausted
  = (Raise PoolError,
     add_event (Log ERROR "SQL execution failed")
       (add_event (Log ERROR "Failed to get connection") exhausted)) ∧
  ensure_database answering manager "osm" "template1" exhausted
  = (Raise PoolError,
     add_event (Log ERROR "Error ensuring database")
       (add_event (Log ERROR "Failed to get connection") exhausted)).
Proof.
  apply (exhausted_pool_refuses answering manager "osm" "template1" "SELECT 1;" []
           exhausted); apply exhausted_inv.
Defined.

Lemma closed_manager_refuses_witness :
  ∃ st', manager_close started = (Ok tt, st') ∧
    srv st' = srv started ∧
    (∀ database, (get_connection database st').1 = Raise PoolError) ∧
    (execute_sql answering manager "osm" "SELECT 1;" [] st').1 = Raise PoolError ∧
    (ensure_database answering manager "osm" "template1" st').1 = Raise PoolError ∧
    (optimize_postgis_settings answering manager "osm" st').1 = Ok tt ∧
    queries_of (events (optimize_postgis_settings answering manager "osm" st').2)
    = queries_of (events st') ∧
    (manager_close st').1 = Raise PoolError.
Proof.
  apply (closed_manager_refuses answering manager "osm" "template1" "SELECT 1;" []
           started).
  reflexivity.
Defined.

Lemma extensions_installed_in_postgres_witness :
  (∀ x, x ∈ extensions manager → x ∈ installed first_run.2 "postgres") ∧
  installed first_run.2 "osm"
  = (if true then installed started "template1" else installed started "osm").
Proof.
  apply (extensions_installed_in_postgres answering manager "osm" "template1"
           started true first_run.2).
  - apply started_inv.
  - done.
  - vm_compute. reflexivity.
Defined.

Lemma failed_extension_leaves_database_witness :
  ∃ st', ensure_database answering topology_manager "osm" "template1" started
         = (Raise OperationalError, st') ∧
    "osm" ∈ dom (databases (srv st')).
Proof.
  apply (failed_extension_leaves_database answering topology_manager "osm"
           "template1" "postgis_topology" started).
  - apply started_inv.
  - apply started_wf.
  - done.
  - apply (bool_decide_unpack _). by vm_compute.
  - apply (bool_decide_unpack _). by vm_compute.
  - apply (bool_decide_unpack _). by vm_compute.
  - apply (bool_decide_unpack _). by vm_compute.
  - apply (bool_decide_unpack _). by vm_compute.
Defined.

Lemma optimize_all_accepted_witness :
  ∃ st', optimize_postgis_settings answering manager "osm" started = (Ok tt, st') ∧
    queries_of (events st')
    = queries_of (events started) ++ ((λ s, (alter_system s.1, [s.2])) <$> settings) ∧
    last (events st') = Some (Log INFO "Optimized PostGIS settings") ∧
    pool_wf st' ∧ can_serve st' ∧ free st' = free started.
Proof.
  apply (optimize_all_accepted answering manager "osm" started).
  - apply started_wf.
  - apply started_wf.
  - repeat constructor.
Defined.

Lemma optimize_stops_at_first_failure_witness :
  ∃ st', optimize_postgis_settings rejecting_work_mem manager "osm" started
         = ((if is_psycopg2_Error OperationalError then Ok tt
             else Raise OperationalError), st') ∧
    queries_of (events st')
    = queries_of (events started)
      ++ ((λ s, (alter_system s.1, [s.2]))
            <$> ([("shared_buffers", "1GB"); ("maintenance_work_mem", "256MB")]
                 ++ [("work_mem", "64MB")])) ∧
    S (free st') = free started ∧
    (is_psycopg2_Error OperationalError = true →
     last (events st') = Some (Log WARNING "Could not optimize settings")).
Proof.
  apply (optimize_stops_at_first_failure rejecting_work_mem manager "osm"
           [("shared_buffers", "1GB"); ("maintenance_work_mem", "256MB")]
           ("work_mem", "64MB")
           [("effective_cache_size", "3GB"); ("random_page_cost", "1.1");
            ("geqo_threshold", "12")] OperationalError started).
  - apply started_wf.
  - apply started_wf.
  - reflexivity.
  - repeat constructor.
  - reflexivity.
Defined.

(** *** A pooled connection found closed *)

Lemma getconn_used st p st1 :
  wf_ids st →
  getconn st = (Ok p, st1) →
  used (connection_pool st1) = {[conn_id p]} ∪ used (connection_pool st) ∧
  pool_closed (connection_pool st1) = false ∧
  srv st1 = srv st ∧
  (∀ id, id ∈ used (connection_pool st1) → id < next_id st1).
Proof.
  intros (Hnd & Hfresh & Hused). unfold getconn.
  destruct (pool_closed _) eqn:Hcl; [done|].
  destruct (reverse (idle (connection_pool st))) as [|c0 rest] eqn:Hrev.
  - case_bool_decide; [done|]. unfold connect. case_bool_decide; [|done].
    intros [= <- <-]. cbn. split_and!; [done..|].
    intros id [->%elem_of_singleton|Hin%Hused]%elem_of_union; lia.
  - apply (f_equal reverse) in Hrev. rewrite reverse_involutive in Hrev.
    rewrite reverse_cons in Hrev. intros [= <- <-]. cbn.
    split_and!; [done..|].
    destruct (Hfresh c0) as [_ Hlt]; [rewrite Hrev; set_solver|].
    intros id [->%elem_of_singleton|Hin%Hused]%elem_of_union; lia.
Qed.

(** When the pool hands [get_connection] a connection that is closed,
    the caller gets a new connection to the database asked for, opened
    outside the pool, and never the closed one.  The pool does not know
    the new connection: releasing it logs a warning and closes it, and the
    slot taken by the closed connection stays in use. *)
Theorem stale_connection_is_never_returned database st p st1 :
  wf_ids st →
  getconn st = (Ok p, st1) →
  closed p = true →
  database ∈ dom (databases (srv st)) →
  ∃ c st2 st3,
    get_connection database st = (Ok c, st2) ∧
    conn_database c = database ∧ conn_id c ≠ conn_id p ∧
    release_connection c st2 = (Ok tt, st3) ∧
    events st3 = events st2 ++ [Putconn (conn_id c);
                                Log WARNING "Error releasing connection";
                                Close (conn_id c)] ∧
    used (connection_pool st3) = {[conn_id p]} ∪ used (connection_pool st).
Proof.
  intros Hwf Hget Hclosed Hdb.
  destruct (getconn_used _ _ _ Hwf Hget) as (Hused & Hcl & Hsrv & Hlt).
  set (c := Connection (next_id st1) database false false false []).
  assert (get_connection database st
          = (Ok c, {| srv := srv st1; connection_pool := connection_pool st1;
                      next_id := S (next_id st1);
                      events := events st1 ++ [Connect (next_id st1) database] |}))
    as Hgc.
  { unfold get_connection, try_except, bind. rewrite Hget, Hclosed.
    unfold connect. rewrite Hsrv. by rewrite bool_decide_eq_true_2. }
  assert (next_id st1 ∉ used (connection_pool st1)) as Hnew.
  { intros Hin%Hlt. lia. }
  exists c. eexists _, _. split; [exact Hgc|]. split; [done|]. split.
  { cbn. intros Heq. apply Hnew. rewrite Heq, Hused. set_solver. }
  unfold release_connection, try_except, putconn, bind, emit, modify, get, close.
  cbn. rewrite Hcl. cbn. rewrite bool_decide_eq_false_2 by done. cbn.
  split; [done|]. cbn. by rewrite <- !app_assoc.
Qed.

Lemma stale_connection_is_never_returned_witness :
  ∃ c st2 st3,
    get_connection "template1" stale = (Ok c, st2) ∧
    conn_database c = "template1" ∧ conn_id c ≠ conn_id (set_closed pooled) ∧
    release_connection c st2 = (Ok tt, st3) ∧
    events st3 = events st2 ++ [Putconn (conn_id c);
                                Log WARNING "Error releasing connection";
                                Close (conn_id c)] ∧
    used (connection_pool st3)
    = {[conn_id (set_closed pooled)]} ∪ used (connection_pool stale).
Proof.
  apply (stale_connection_is_never_returned "template1" stale (set_closed pooled)
           (getconn stale).2).
  - unfold wf_ids. split_and!.
    + vm_compute. repeat constructor; by intros ?%elem_of_nil.
    + intros c Hc. vm_compute in Hc. apply list_elem_of_singleton in Hc as ->.
      split; [|vm_compute; lia]. apply (bool_decide_unpack _). by vm_compute.
    + intros id Hid. apply (bool_decide_pack _) in Hid. by vm_compute in Hid.
  - vm_compute. reflexivity.
  - reflexivity.
  - apply (bool_decide_unpack _). by vm_compute.
Defined.

End postgres_manager_facts.

(** ** Properties of src/pipeline.py *)

Module pipeline_facts.
Import pipeline.
Local Open Scope py_scope.

(** *** dict operations *)

Lemma dict_get_set k v d k' :
  dict_get k' (dict_set k v d) = if bool_decide (k = k') then Some v else dict_get k' d.
Proof.
  induction d as [|[k0 v0] d IH]; cbn [dict_set dict_get].
  - done.
  - destruct (decide (k0 = k)) as [->|Hne].
    + rewrite (bool_decide_eq_true_2 (k = k)) by done. cbn [dict_get].
      by destruct (bool_decide (k = k')).
    + rewrite (bool_decide_eq_false_2 (k0 = k)) by done. cbn [dict_get].
      rewrite IH. destruct (decide (k0 = k')) as [->|Hne'].
      * rewrite (bool_decide_eq_true_2 (k' = k')) by done.
        by rewrite (bool_decide_eq_false_2 (k = k')) by done.
      * by rewrite (bool_decide_eq_false_2 (k0 = k')) by done.
Qed.

Lemma dict_get_setdefault k v d k' :
  dict_get k' (setdefault k v d)
  = if bool_decide (k = k')
    then Some (default v (dict_get k d)) else dict_get k' d.
Proof.
  unfold setdefault. destruct (dict_get k d) as [v0|] eqn:Hk.
  - case_bool_decide; [by subst|done].
  - by rewrite dict_get_set.
Qed.

Lemma setdefault_present k v d :
  is_Some (dict_get k d) → setdefault k v d = d.
Proof. intros [v0 Hk]. unfold setdefault. by rewrite Hk. Qed.

Lemma dict_get_defaults pg k :
  dict_get k (with_defaults pg)
  = match dict_get k pg with
    | Some v => Some v
    | None => dict_get k defaults
    end.
Proof.
  unfold with_defaults. rewrite !dict_get_setdefault.
  rewrite ?dict_get_setdefault. unfold defaults. cbn.
  repeat case_bool_decide; subst; try done;
    rewrite ?dict_get_setdefault; repeat case_bool_decide; try done;
    by destruct (dict_get _ pg).
Qed.

(** The defaults [load_config] gives the postgis section: a key the file
    sets keeps its value, whatever it is; each of extensions, create_index,
    chunk_size and geometry_type the file leaves out gets its default; no
    other key is added; and giving the defaults twice changes nothing. *)
Theorem config_defaults pg :
  (∀ k v, dict_get k pg = Some v → dict_get k (with_defaults pg) = Some v) ∧
  (∀ k, dict_get k pg = None →
        dict_get k (with_defaults pg) = dict_get k defaults) ∧
  with_defaults (with_defaults pg) = with_defaults pg.
Proof.
  split_and!.
  - intros k v Hk. by rewrite dict_get_defaults, Hk.
  - intros k Hk. by rewrite dict_get_defaults, Hk.
  - unfold with_defaults at 1.
    rewrite (setdefault_present "extensions") by (rewrite dict_get_defaults; by destruct (dict_get _ pg)).
    rewrite (setdefault_present "create_index") by (rewrite dict_get_defaults; by destruct (dict_get _ pg)).
    rewrite (setdefault_present "chunk_size") by (rewrite dict_get_defaults; by destruct (dict_get _ pg)).
    by rewrite (setdefault_present "geometry_type") by (rewrite dict_get_defaults; by destruct (dict_get _ pg)).
Qed.

(** *** load_config *)

Lemma check_sections_ok sections config :
  check_sections sections config = Return tt ↔
  Forall (λ s, contains s config = Return true) sections.
Proof.
  induction sections as [|s sections IH]; cbn.
  - split; [constructor|done].
  - destruct (contains s config) as [[]|e] eqn:Hs.
    + rewrite IH. split; [by constructor|by intros [_ ?]%Forall_cons].
    + split; [done|intros [? _]%Forall_cons; congruence].
    + split; [done|intros [? _]%Forall_cons; congruence].
Qed.

Lemma check_sections_raises sections config e :
  check_sections sections config = Raises e →
  (∃ before s after,
     sections = before ++ s :: after ∧
     Forall (λ s, contains s config = Return true) before ∧
     contains s config = Return false ∧
     e = ValueError ("Missing required config section: " +:+ s)) ∨
  (e = TypeError ∧ ∀ s, contains s config = Raises TypeError).
Proof.
  induction sections as [|s sections IH]; cbn; [done|].
  destruct (contains s config) as [[]|e'] eqn:Hs.
  - intros [(before & s' & after & -> & Hb & Hs' & ->)|?]%IH; [left|by right].
    exists (s :: before), s', after. split; [done|]. split; [by constructor|done].
  - intros [= <-]. left. by exists [], s, sections.
  - intros [= <-]. right. destruct config; try done; cbn in Hs;
      injection Hs as <-; by split.
Qed.

(** What [load_config] does, by cases on the file.  It returns only for a
    JSON object that has the three sections and whose postgis section is
    an object, and the result is that object with the defaults filled in.
    It logs one error and exits with status 1 for a missing file, for
    malformed JSON, for bytes that do not decode, and for a document that
    lacks a section, naming the first one missing.  An unreadable file, a
    document that is no container, and a postgis section that is no
    object raise [OSError], [TypeError] and [AttributeError], which
    [load_config] neither catches nor logs. *)
Theorem load_config_outcome config_path f :
  match load_config config_path f with
  | (Return cfg, log) =>
      log = [] ∧
      ∃ d pg, f = Document (JObj d) ∧
        Forall (λ s, is_Some (dict_get s d)) required_sections ∧
        dict_get "postgis" d = Some (JObj pg) ∧
        cfg = JObj (dict_set "postgis" (JObj (with_defaults pg)) d)
  | (Raises (SystemExit code), log) =>
      code = 1%Z ∧
      ((f = Missing ∧ log = ["Config file not found at " +:+ config_path]) ∨
       (f = Malformed ∧ log = ["Invalid JSON in config file " +:+ config_path]) ∨
       (∃ msg, f = Undecodable msg ∧ log = ["Configuration error: " +:+ msg]) ∨
       (∃ config before s after,
          f = Document config ∧
          required_sections = before ++ s :: after ∧
          Forall (λ s, contains s config = Return true) before ∧
          contains s config = Return false ∧
          log = ["Configuration error: Missing required config section: " +:+ s]))
  | (Raises e, log) =>
      log = [] ∧
      ((f = Unreadable ∧ e = OSError) ∨
       (∃ config, f = Document config ∧
          Forall (λ s, contains s config ≠ Return false) required_sections ∧
          (e = TypeError ∨ e = AttributeError)))
  end.
Proof.
  unfold load_config, load_config_body.
  destruct f as [| | |msg|config]; cbn [read].
  - split; [done|]. by left.
  - split; [done|]. by left.
  - split; [done|]. right. by left.
  - split; [done|]. do 2 right. left. by exists msg.
  - destruct (check_sections required_sections config) as [[]|e] eqn:Hcheck.
    + apply check_sections_ok in Hcheck.
      assert (Forall (λ s, contains s config ≠ Return false) required_sections)
        as Hnot.
      { eapply Forall_impl; [exact Hcheck|]. intros s Hs. by rewrite Hs. }
      destruct config as [|b|z|m x|str|l|d]; cbn [getitem].
      1-4: by apply Forall_cons in Hcheck as [? _].
      * split; [done|]. right. eexists. split; [done|]. split; [done|by left].
      * split; [done|]. right. eexists. split; [done|]. split; [done|by left].
      * assert (Forall (λ s, is_Some (dict_get s d)) required_sections) as Hall.
        { eapply Forall_impl; [exact Hcheck|]. cbn. intros s [= Hs].
          by apply bool_decide_eq_true in Hs. }
        assert (is_Some (dict_get "postgis" d)) as [pgv Hpg].
        { rewrite Forall_forall in Hall. apply Hall. set_solver. }
        rewrite Hpg.
        destruct pgv as [|b|z|m x|str|l|pg];
          try (split; [done|]; right; eexists; split; [done|]; split; [done|by right]).
        split; [done|]. by exists d, pg.
    + apply check_sections_raises in Hcheck
        as [(before & s & after & Hsec & Hb & Hs & ->)|[-> Hty]].
      * split; [done|]. do 3 right. by exists config, before, s, after.
      * split; [done|]. right. exists config. split; [done|]. split; [|by left].
        apply Forall_forall. intros s _. by rewrite Hty.
Qed.

Example load_sample_config :
  load_config "config/config.json" (Document sample_config)
  = (Return (JObj [("osm", JObj [("location_name", JStr "Ikeja, Nigeria")]);
                   ("cleaning", JObj [("target_crs", JStr "EPSG:4326")]);
                   ("postgis", JObj [("table_name", JStr "osm_features");
                                     ("chunk_size", JNum 1000);
                                     ("extensions", JArr [JStr "postgis"]);
                                     ("create_index", JBool true);
                                     ("geometry_type", JStr "GEOMETRY")])]),
     []).
Proof. reflexivity. Qed.

(** Only the first missing section is reported. *)
Example load_empty_config :
  load_config "config/config.json" (Document (JObj []))
  = (Raises (SystemExit 1),
     ["Configuration error: Missing required config section: osm"]).
Proof. reflexivity. Qed.

(** A document that is a list naming the three sections passes the test of
    the sections and fails at [config["postgis"]]: the [TypeError] is not
    caught, and nothing is logged. *)
Example load_list_config :
  load_config "config/config.json"
    (Document (JArr [JStr "osm"; JStr "cleaning"; JStr "postgis"]))
  = (Raises TypeError, []).
Proof. reflexivity. Qed.

(** *** Logging set-up *)

Lemma basicConfig_configured level hs root :
  handlers root ≠ [] → basicConfig level hs root = root.
Proof. unfold basicConfig. by destruct (handlers root). Qed.

Lemma basicConfig_handlers level root :
  handlers (basicConfig level None root) ≠ [].
Proof. unfold basicConfig. by destruct (handlers root) eqn:Hh; cbn; rewrite ?Hh. Qed.

(** [setup_logging] has no effect in [main]: importing download_osm has
    configured the root logger before, so the root logger stays as the
    imports left it (at INFO with one stream handler, in a fresh
    interpreter), whatever the flags: neither --debug nor the default
    changes the level, and pipeline.log gets no handler.  On a root logger
    without handlers the function does what it says. *)
Theorem setup_logging_after_imports verbose debug root :
  main_logging verbose debug root = imports root ∧
  handlers (imports root) ≠ [] ∧
  (handlers root = [] →
     main_logging verbose debug root
     = {| root_level := Py.INFO; handlers := [StreamHandler] |}) ∧
  setup_logging verbose debug fresh_root
  = {| root_level := if debug then Py.DEBUG
                     else if verbose then Py.INFO else Py.WARNING;
       handlers := [StreamHandler; FileHandler "pipeline.log"] |}.
Proof.
  assert (handlers (imports root) ≠ []) as Hh
    by apply basicConfig_handlers.
  assert (main_logging verbose debug root = imports root) as Hm
    by (by apply basicConfig_configured).
  split_and!; [done..| |done].
  intros Hroot. rewrite Hm. unfold imports, basicConfig. by rewrite Hroot.
Qed.

End pipeline_facts.
